(** * Nand2Tetris suite: CPU, VM memory/engine and HDL scheduling

    A shallow embedding of the simulator core (instruction decoder, CPU
    memory and engine, VM memory and engine, HDL pins, wiring and
    evaluation order) and the properties checked against it.

    Conventions.  [Word] and [Address] are [uint16_t]: they are modelled as
    [Z] with the wrap-around written out ([to_word]).  [int16_t] casts are
    [to_int16].  [uint64_t] counters wrap with [to_u64].  A [std::array] is a
    total function on indices; where the source indexes it with a value that
    is not checked beforehand, the access is guarded and an index outside
    the array is the outcome [Undefined]. *)

From Stdlib Require Import ZArith List Bool String Ascii Lia.
Import ListNotations.
Open Scope Z_scope.

(* ===================================================================== *)
(** ** Shared types (types.hpp, error.hpp)                                *)
(* ===================================================================== *)

Module Common.

Definition to_word (z : Z) : Z := z mod 65536.
Definition to_int16 (w : Z) : Z :=
  let u := w mod 65536 in if u <? 32768 then u else u - 65536.
Definition to_u8 (z : Z) : Z := z mod 256.
Definition to_u64 (z : Z) : Z := z mod 18446744073709551616.

(** What an error message reports.  The text of each message is fixed by
    its throw site; the constructor names the site and carries the values
    that the source formats into the text. *)
Inductive Message :=
  | MsgProgramTooLarge                       (* load_rom_string / load_rom *)
  | MsgExpected16 (len : Z) (line : string)  (* parse_binary_line: length *)
  | MsgInvalidChar (c : ascii) (position : Z)(* parse_binary_line: char *)
  | MsgRamRead (address : Z)                 (* CPUMemory::read_ram *)
  | MsgRamWrite (address : Z)                (* CPUMemory::write_ram *)
  | MsgInvalidALU (pc : Z)                   (* CPUEngine::compute_alu *)
  | MsgStackOverflow (sp : Z)                (* VMMemory::push *)
  | MsgStackUnderflow                        (* VMMemory::pop *)
  | MsgNoActiveFunction                      (* VMMemory::pop_frame *)
  | MsgWriteConstant                         (* VMMemory::write_segment *)
  | MsgTempIndex (index : Z)
  | MsgPointerIndex (index : Z)
  | MsgStaticNotInitialized (file : string)
  | MsgOutOfStaticSpace
  | MsgUndefinedLabel (name : string)
  | MsgUndefinedFunction (name : string)
  | MsgEntryPointNotFound (name : string)
  | MsgUnknownChip (name : string) (line : Z)
  | MsgInternal.

Inductive ErrorCategory :=
  PARSE_ERROR | RUNTIME_ERROR | LOGIC_ERROR | FILE_ERROR | INTERNAL_ERROR.

Record N2TError := mkError {
  category : ErrorCategory;
  file : string;
  line : Z;
  message : Message
}.

Definition ParseError (f : string) (l : Z) (m : Message) : N2TError :=
  mkError PARSE_ERROR f l m.
Definition RuntimeError (m : Message) : N2TError :=
  mkError RUNTIME_ERROR EmptyString 0 m.
Definition InternalError (m : Message) : N2TError :=
  mkError INTERNAL_ERROR EmptyString 0 m.

(** The engines keep the text of their last error: [e.what()] of a caught
    exception, or a message given to [set_error]. *)
Inductive ErrorText :=
  | What (e : N2TError)
  | Text (m : Message).

(** Result of a call that may throw. *)
Inductive except (A : Type) :=
  | Return (a : A)
  | Raise (e : N2TError).
Arguments Return {A} a.
Arguments Raise {A} e.

(** Result of a call that may throw or index a [std::array] outside its
    bounds ([Undefined]). *)
Inductive outcome (A : Type) :=
  | Ok (a : A)
  | Throw (e : N2TError)
  | Undefined.
Arguments Ok {A} a.
Arguments Throw {A} e.
Arguments Undefined {A}.

Definition bind {A B} (m : outcome A) (k : A -> outcome B) : outcome B :=
  match m with
  | Ok a => k a
  | Throw e => Throw e
  | Undefined => Undefined
  end.

(** In-place update of one array cell. *)
Definition upd (f : Z -> Z) (i v : Z) : Z -> Z :=
  fun j => if j =? i then v else f j.

End Common.
Import Common.

Declare Scope outcome_scope.
Notation "x <- m ;; k" := (bind m (fun x => k))
  (at level 61, m at next level, right associativity) : outcome_scope.

(* ===================================================================== *)
(** ** Instruction decoder (instruction.hpp / instruction.cpp)            *)
(* ===================================================================== *)

Module Instruction.

Inductive InstructionType := A_INSTRUCTION | C_INSTRUCTION.

(** [enum class Computation : uint8_t]: the value is the 7-bit field
    itself, and [static_cast<Computation>] accepts any bit pattern, so the
    type is the code. *)
Definition Computation := Z.
Definition ZERO : Computation := 42.      (* 0b0101010 *)
Definition ONE : Computation := 63.       (* 0b0111111 *)
Definition NEG_ONE : Computation := 58.   (* 0b0111010 *)
Definition D : Computation := 12.         (* 0b0001100 *)
Definition A : Computation := 48.         (* 0b0110000 *)
Definition NOT_D : Computation := 13.     (* 0b0001101 *)
Definition NOT_A : Computation := 49.     (* 0b0110001 *)
Definition NEG_D : Computation := 15.     (* 0b0001111 *)
Definition NEG_A : Computation := 51.     (* 0b0110011 *)
Definition D_PLUS_1 : Computation := 31.  (* 0b0011111 *)
Definition A_PLUS_1 : Computation := 55.  (* 0b0110111 *)
Definition D_MINUS_1 : Computation := 14. (* 0b0001110 *)
Definition A_MINUS_1 : Computation := 50. (* 0b0110010 *)
Definition D_PLUS_A : Computation := 2.   (* 0b0000010 *)
Definition D_MINUS_A : Computation := 19. (* 0b0010011 *)
Definition A_MINUS_D : Computation := 7.  (* 0b0000111 *)
Definition D_AND_A : Computation := 0.    (* 0b0000000 *)
Definition D_OR_A : Computation := 21.    (* 0b0010101 *)
Definition M : Computation := 112.        (* 0b1110000 *)
Definition NOT_M : Computation := 113.    (* 0b1110001 *)
Definition NEG_M : Computation := 115.    (* 0b1110011 *)
Definition M_PLUS_1 : Computation := 119. (* 0b1110111 *)
Definition M_MINUS_1 : Computation := 114. (* 0b1110010 *)
Definition D_PLUS_M : Computation := 66.  (* 0b1000010 *)
Definition D_MINUS_M : Computation := 83. (* 0b1010011 *)
Definition M_MINUS_D : Computation := 71. (* 0b1000111 *)
Definition D_AND_M : Computation := 64.   (* 0b1000000 *)
Definition D_OR_M : Computation := 85.    (* 0b1010101 *)

(** [enum class JumpCondition : uint8_t], again the 3-bit code. *)
Definition JumpCondition := Z.
Definition NO_JUMP : JumpCondition := 0.
Definition JGT : JumpCondition := 1.
Definition JEQ : JumpCondition := 2.
Definition JGE : JumpCondition := 3.
Definition JLT : JumpCondition := 4.
Definition JNE : JumpCondition := 5.
Definition JLE : JumpCondition := 6.
Definition JMP : JumpCondition := 7.

Record Destination := mkDest { dest_a : bool; dest_d : bool; dest_m : bool }.

Record DecodedInstruction := mkDecoded {
  type : InstructionType;
  value : Z;
  comp : Computation;
  dest : Destination;
  jump : JumpCondition;
  reads_memory : bool
}.

Definition nonzero (z : Z) : bool := negb (z =? 0).

Definition decode_instruction (instruction : Z) : DecodedInstruction :=
  if negb (nonzero (Z.land instruction 32768)) then
    (* DecodedInstruction decoded{} leaves the C fields zeroed *)
    mkDecoded A_INSTRUCTION (Z.land instruction 32767)
              0 (mkDest false false false) 0 false
  else
    let comp_bits := to_u8 (Z.land (Z.shiftr instruction 6) 127) in
    let dest_bits := to_u8 (Z.land (Z.shiftr instruction 3) 7) in
    let jump_bits := to_u8 (Z.land instruction 7) in
    mkDecoded C_INSTRUCTION 0 comp_bits
              (mkDest (nonzero (Z.land dest_bits 4))
                      (nonzero (Z.land dest_bits 2))
                      (nonzero (Z.land dest_bits 1)))
              jump_bits
              (nonzero (Z.land comp_bits 64)).

End Instruction.

(* ===================================================================== *)
(** ** CPU memory (memory.hpp / CPU memory implementation)                *)
(* ===================================================================== *)

Module CPUMem.

Definition STACK_BASE : Z := 256.
Definition SCREEN_BASE : Z := 16384.
Definition SCREEN_SIZE : Z := 8192.
Definition KEYBOARD : Z := 24576.
Definition RAM_SIZE : Z := 32768.
Definition ROM_SIZE : Z := 32768.

Record CPUMemory := mkMem {
  rom : Z -> Z;
  ram : Z -> Z;
  program_size : Z;
  screen_dirty : bool
}.

Definition zeros : Z -> Z := fun _ => 0.

Definition reset (_ : CPUMemory) : CPUMemory := mkMem zeros zeros 0 false.

Definition set_rom (m : CPUMemory) (r : Z -> Z) : CPUMemory :=
  mkMem r (ram m) (program_size m) (screen_dirty m).
Definition set_ram (m : CPUMemory) (r : Z -> Z) : CPUMemory :=
  mkMem (rom m) r (program_size m) (screen_dirty m).
Definition set_program_size (m : CPUMemory) (n : Z) : CPUMemory :=
  mkMem (rom m) (ram m) n (screen_dirty m).
Definition set_screen_dirty (m : CPUMemory) (b : bool) : CPUMemory :=
  mkMem (rom m) (ram m) (program_size m) b.

(** *** Text of a .hack program *)

Definition newline : ascii := "010"%char.
Definition carriage_return : ascii := "013"%char.
Definition space : ascii := " "%char.
Definition tab : ascii := "009"%char.

(** The pieces of a text between its newline characters. *)
Fixpoint split_lines (s : string) : list string :=
  match s with
  | EmptyString => [EmptyString]
  | String c s' =>
      if Ascii.eqb c newline then EmptyString :: split_lines s'
      else match split_lines s' with
           | l :: ls => String c l :: ls
           | [] => [String c EmptyString]
           end
  end.

Definition is_empty (s : string) : bool :=
  match s with EmptyString => true | _ => false end.

(** The lines delivered by [while (std::getline(stream, line))]: a last
    piece that holds no character is the end of the stream, not a line. *)
Definition getlines (s : string) : list string :=
  let pieces := split_lines s in
  if is_empty (last pieces EmptyString) then removelast pieces else pieces.

Definition is_trailing_blank (c : ascii) : bool :=
  Ascii.eqb c carriage_return || Ascii.eqb c space || Ascii.eqb c tab.

(** [while (!line.empty() && back is CR, space or tab) line.pop_back()] *)
Fixpoint trim_trailing (line : string) : string :=
  match line with
  | EmptyString => EmptyString
  | String c rest =>
      let t := trim_trailing rest in
      if is_empty t && is_trailing_blank c then EmptyString else String c t
  end.

(** The [for] loop of [parse_binary_line], from index [i] on the rest
    [cs] of the line. *)
Fixpoint parse_bits (cs : string) (i : Z) (result : Z) (line_number : Z)
  : except Z :=
  match cs with
  | EmptyString => Return result
  | String c rest =>
      if Ascii.eqb c "1"%char then
        parse_bits rest (i + 1)
                   (to_word (Z.lor result (to_word (Z.shiftl 1 (15 - i)))))
                   line_number
      else if negb (Ascii.eqb c "0"%char) then
        Raise (ParseError "<rom>" line_number (MsgInvalidChar c (i + 1)))
      else parse_bits rest (i + 1) result line_number
  end.

Definition parse_binary_line (line : string) (line_number : Z) : except Z :=
  if negb (Z.of_nat (String.length line) =? 16) then
    Raise (ParseError "<rom>" line_number
             (MsgExpected16 (Z.of_nat (String.length line)) line))
  else parse_bits line 0 0 line_number.

(** The [while (getline)] loop of [load_rom_string]; [line_number] is the
    number of lines read before [lines].  A throw leaves the memory as it
    was filled so far. *)
Fixpoint load_lines (lines : list string) (line_number : Z) (m : CPUMemory)
  : CPUMemory * option N2TError :=
  match lines with
  | [] => (m, None)
  | raw :: more =>
      let line_number := line_number + 1 in
      let line := trim_trailing raw in
      if is_empty line then load_lines more line_number m
      else if program_size m >=? ROM_SIZE then
        (m, Some (ParseError "<rom>" line_number MsgProgramTooLarge))
      else
        match parse_binary_line line line_number with
        | Return w =>
            load_lines more line_number
              (set_program_size (set_rom m (upd (rom m) (program_size m) w))
                                (program_size m + 1))
        | Raise e => (m, Some e)
        end
  end.

Definition load_rom_string (m : CPUMemory) (hack_text : string)
  : CPUMemory * option N2TError :=
  let m := set_rom m zeros in
  let m := set_program_size m 0 in
  load_lines (getlines hack_text) 0 m.

(** [for (i = 0; i < instructions.size(); i++) rom_[i] = instructions[i]] *)
Fixpoint copy_rom (instructions : list Z) (i : Z) (r : Z -> Z) : Z -> Z :=
  match instructions with
  | [] => r
  | w :: more => copy_rom more (i + 1) (upd r i w)
  end.

Definition load_rom (m : CPUMemory) (instructions : list Z)
  : CPUMemory * option N2TError :=
  let m := set_rom m zeros in
  if Z.of_nat (List.length instructions) >? ROM_SIZE then
    (m, Some (RuntimeError MsgProgramTooLarge))
  else
    let m := set_rom m (copy_rom instructions 0 (rom m)) in
    (set_program_size m (Z.of_nat (List.length instructions)), None).

Definition rom_size (m : CPUMemory) : Z := program_size m.

Definition read_ram (m : CPUMemory) (address : Z) : except Z :=
  if address >=? RAM_SIZE then Raise (RuntimeError (MsgRamRead address))
  else Return (ram m address).

Definition write_ram (m : CPUMemory) (address value : Z) : except CPUMemory :=
  if address >=? RAM_SIZE then Raise (RuntimeError (MsgRamWrite address))
  else
    let m := set_ram m (upd (ram m) address value) in
    if (address >=? SCREEN_BASE) && (address <? SCREEN_BASE + SCREEN_SIZE)
    then Return (set_screen_dirty m true)
    else Return m.

Definition out_of_screen (x y : Z) : bool :=
  (x <? 0) || (x >=? 512) || (y <? 0) || (y >=? 256).

Definition get_pixel (m : CPUMemory) (x y : Z) : bool :=
  if out_of_screen x y then false
  else
    let word_offset := y * 32 + Z.quot x 16 in
    let bit_offset := Z.rem x 16 in
    let word := ram m (SCREEN_BASE + word_offset) in
    Instruction.nonzero (Z.land (Z.shiftr word bit_offset) 1).

Definition set_pixel (m : CPUMemory) (x y : Z) (on : bool) : CPUMemory :=
  if out_of_screen x y then m
  else
    let word_offset := y * 32 + Z.quot x 16 in
    let bit_offset := Z.rem x 16 in
    let addr := to_word (SCREEN_BASE + word_offset) in
    let m :=
      if on then
        set_ram m (upd (ram m) addr
          (to_word (Z.lor (ram m addr) (to_word (Z.shiftl 1 bit_offset)))))
      else
        set_ram m (upd (ram m) addr
          (to_word (Z.land (ram m addr)
                           (to_word (Z.lnot (Z.shiftl 1 bit_offset))))))
    in
    set_screen_dirty m true.

Definition clear_screen_dirty (m : CPUMemory) : CPUMemory :=
  set_screen_dirty m false.

End CPUMem.

(* ===================================================================== *)
(** ** CPU engine (cpu.hpp / CPU engine implementation)                   *)
(* ===================================================================== *)

Module CPU.
Import Instruction CPUMem.

Inductive CPUState := READY | RUNNING | PAUSED | HALTED | ERROR.
Inductive CPUPauseReason := NONE | STEP_COMPLETE | BREAKPOINT | USER_REQUEST.

Record CPUStats := mkStats {
  instructions_executed : Z;
  a_instruction_count : Z;
  c_instruction_count : Z;
  jump_count : Z;
  memory_reads : Z;
  memory_writes : Z
}.

Definition stats_reset : CPUStats := mkStats 0 0 0 0 0 0.

Record CPUEngine := mkCPU {
  a_register : Z;
  d_register : Z;
  pc : Z;
  memory : CPUMemory;
  state : CPUState;
  pause_reason : CPUPauseReason;
  pause_requested : bool;
  stats : CPUStats;
  breakpoints : list Z;               (* std::unordered_set<Address> *)
  error_message : option ErrorText;   (* None is the empty string *)
  error_location : Z
}.

Definition set_a (s : CPUEngine) (v : Z) : CPUEngine :=
  mkCPU v (d_register s) (pc s) (memory s) (state s) (pause_reason s)
        (pause_requested s) (stats s) (breakpoints s) (error_message s)
        (error_location s).
Definition set_d (s : CPUEngine) (v : Z) : CPUEngine :=
  mkCPU (a_register s) v (pc s) (memory s) (state s) (pause_reason s)
        (pause_requested s) (stats s) (breakpoints s) (error_message s)
        (error_location s).
Definition set_pc (s : CPUEngine) (v : Z) : CPUEngine :=
  mkCPU (a_register s) (d_register s) v (memory s) (state s) (pause_reason s)
        (pause_requested s) (stats s) (breakpoints s) (error_message s)
        (error_location s).
Definition set_memory (s : CPUEngine) (m : CPUMemory) : CPUEngine :=
  mkCPU (a_register s) (d_register s) (pc s) m (state s) (pause_reason s)
        (pause_requested s) (stats s) (breakpoints s) (error_message s)
        (error_location s).
Definition set_state (s : CPUEngine) (v : CPUState) : CPUEngine :=
  mkCPU (a_register s) (d_register s) (pc s) (memory s) v (pause_reason s)
        (pause_requested s) (stats s) (breakpoints s) (error_message s)
        (error_location s).
Definition set_pause_reason (s : CPUEngine) (v : CPUPauseReason) : CPUEngine :=
  mkCPU (a_register s) (d_register s) (pc s) (memory s) (state s) v
        (pause_requested s) (stats s) (breakpoints s) (error_message s)
        (error_location s).
Definition set_pause_requested (s : CPUEngine) (v : bool) : CPUEngine :=
  mkCPU (a_register s) (d_register s) (pc s) (memory s) (state s)
        (pause_reason s) v (stats s) (breakpoints s) (error_message s)
        (error_location s).
Definition set_stats (s : CPUEngine) (v : CPUStats) : CPUEngine :=
  mkCPU (a_register s) (d_register s) (pc s) (memory s) (state s)
        (pause_reason s) (pause_requested s) v (breakpoints s)
        (error_message s) (error_location s).
Definition set_breakpoints (s : CPUEngine) (v : list Z) : CPUEngine :=
  mkCPU (a_register s) (d_register s) (pc s) (memory s) (state s)
        (pause_reason s) (pause_requested s) (stats s) v
        (error_message s) (error_location s).
Definition set_error_fields (s : CPUEngine) (e : option ErrorText) (loc : Z)
  : CPUEngine :=
  mkCPU (a_register s) (d_register s) (pc s) (memory s) (state s)
        (pause_reason s) (pause_requested s) (stats s) (breakpoints s)
        e loc.

Definition inc_instructions_executed (t : CPUStats) : CPUStats :=
  mkStats (to_u64 (instructions_executed t + 1)) (a_instruction_count t)
          (c_instruction_count t) (jump_count t) (memory_reads t)
          (memory_writes t).
Definition inc_a_instruction_count (t : CPUStats) : CPUStats :=
  mkStats (instructions_executed t) (to_u64 (a_instruction_count t + 1))
          (c_instruction_count t) (jump_count t) (memory_reads t)
          (memory_writes t).
Definition inc_c_instruction_count (t : CPUStats) : CPUStats :=
  mkStats (instructions_executed t) (a_instruction_count t)
          (to_u64 (c_instruction_count t + 1)) (jump_count t) (memory_reads t)
          (memory_writes t).
Definition inc_jump_count (t : CPUStats) : CPUStats :=
  mkStats (instructions_executed t) (a_instruction_count t)
          (c_instruction_count t) (to_u64 (jump_count t + 1)) (memory_reads t)
          (memory_writes t).
Definition inc_memory_reads (t : CPUStats) : CPUStats :=
  mkStats (instructions_executed t) (a_instruction_count t)
          (c_instruction_count t) (jump_count t) (to_u64 (memory_reads t + 1))
          (memory_writes t).
Definition inc_memory_writes (t : CPUStats) : CPUStats :=
  mkStats (instructions_executed t) (a_instruction_count t)
          (c_instruction_count t) (jump_count t) (memory_reads t)
          (to_u64 (memory_writes t + 1)).

(** The initial engine ([CPUEngine() = default], memory reset). *)
Definition initial : CPUEngine :=
  mkCPU 0 0 0 (CPUMem.reset (mkMem zeros zeros 0 false)) READY NONE false
        stats_reset [] None 0.

Definition after_load (s : CPUEngine) (m : CPUMemory) : CPUEngine :=
  set_stats (set_d (set_a (set_pc (set_state (set_memory s m) READY) 0) 0) 0)
            stats_reset.

(** [load_string] / [load]: a loader that throws leaves the engine fields
    untouched but the memory as the loader left it. *)
Definition load_string (s : CPUEngine) (hack_text : string)
  : CPUEngine * option N2TError :=
  match load_rom_string (memory s) hack_text with
  | (m, None) => (after_load s m, None)
  | (m, Some e) => (set_memory s m, Some e)
  end.

Definition load (s : CPUEngine) (instructions : list Z)
  : CPUEngine * option N2TError :=
  match load_rom (memory s) instructions with
  | (m, None) => (after_load s m, None)
  | (m, Some e) => (set_memory s m, Some e)
  end.

Definition reset (s : CPUEngine) : CPUEngine :=
  mkCPU 0 0 0 (CPUMem.reset (memory s)) READY NONE false stats_reset
        (breakpoints s) None 0.

Definition add_breakpoint (s : CPUEngine) (rom_address : Z) : CPUEngine :=
  if existsb (Z.eqb rom_address) (breakpoints s) then s
  else set_breakpoints s (rom_address :: breakpoints s).
Definition remove_breakpoint (s : CPUEngine) (rom_address : Z) : CPUEngine :=
  set_breakpoints s
    (filter (fun b => negb (b =? rom_address)) (breakpoints s)).
Definition clear_breakpoints (s : CPUEngine) : CPUEngine :=
  set_breakpoints s [].
Definition has_breakpoint (s : CPUEngine) (rom_address : Z) : bool :=
  existsb (Z.eqb rom_address) (breakpoints s).

Definition pause (s : CPUEngine) : CPUEngine := set_pause_requested s true.

Definition is_one_of (c : Z) (l : list Z) : bool := existsb (Z.eqb c) l.

Definition compute_alu (pc_now : Z) (comp d_val am_val : Z) : except Z :=
  let d := to_int16 d_val in
  let am := to_int16 am_val in
  let done (result : Z) := Return (to_word (to_int16 result)) in
  if comp =? ZERO then done 0
  else if comp =? ONE then done 1
  else if comp =? NEG_ONE then done (-1)
  else if comp =? D then done d
  else if is_one_of comp [A; M] then done am
  else if comp =? NOT_D then done (Z.lnot d)
  else if is_one_of comp [NOT_A; NOT_M] then done (Z.lnot am)
  else if comp =? NEG_D then done (- d)
  else if is_one_of comp [NEG_A; NEG_M] then done (- am)
  else if comp =? D_PLUS_1 then done (d + 1)
  else if is_one_of comp [A_PLUS_1; M_PLUS_1] then done (am + 1)
  else if comp =? D_MINUS_1 then done (d - 1)
  else if is_one_of comp [A_MINUS_1; M_MINUS_1] then done (am - 1)
  else if is_one_of comp [D_PLUS_A; D_PLUS_M] then done (d + am)
  else if is_one_of comp [D_MINUS_A; D_MINUS_M] then done (d - am)
  else if is_one_of comp [A_MINUS_D; M_MINUS_D] then done (am - d)
  else if is_one_of comp [D_AND_A; D_AND_M] then done (Z.land d am)
  else if is_one_of comp [D_OR_A; D_OR_M] then done (Z.lor d am)
  else Raise (RuntimeError (MsgInvalidALU pc_now)).

Definition should_jump (jump alu_output : Z) : bool :=
  if jump =? NO_JUMP then false
  else if jump =? JMP then true
  else
    let val := to_int16 alu_output in
    let j := to_u8 jump in
    ((val <? 0) && nonzero (Z.land j 4))
    || ((val =? 0) && nonzero (Z.land j 2))
    || ((val >? 0) && nonzero (Z.land j 1)).

(** How the [try] block of [execute_instruction] ends: it runs to its end
    or returns ([Completed], with the value returned), or throws ([Caught],
    with the engine as it was at the throw). *)
Inductive tried :=
  | Completed (continue : bool) (s : CPUEngine)
  | Caught (e : N2TError) (s : CPUEngine).

(** End of the [try] block: count the instruction, then the halt check. *)
Definition finish_instruction (s : CPUEngine) : tried :=
  let s := set_stats s (inc_instructions_executed (stats s)) in
  if pc s >=? rom_size (memory s) then Completed false (set_state s HALTED)
  else Completed true s.

Definition execute_a (s : CPUEngine) (raw : Z) : tried :=
  let s := set_a s (Z.land raw 32767) in
  let s := set_pc s (to_word (pc s + 1)) in
  let s := set_stats s (inc_a_instruction_count (stats s)) in
  finish_instruction s.

(** Jump evaluation and the C-instruction counter. *)
Definition execute_c_jump (s : CPUEngine) (jump_bits alu_output : Z) : tried :=
  let s :=
    if should_jump jump_bits alu_output then
      let s := set_pc s (a_register s) in
      set_stats s (inc_jump_count (stats s))
    else set_pc s (to_word (pc s + 1)) in
  let s := set_stats s (inc_c_instruction_count (stats s)) in
  finish_instruction s.

(** The three destination writes, [original_a] being A before them. *)
Definition execute_c_store (s : CPUEngine) (dest_bits jump_bits alu_output : Z)
  : tried :=
  let original_a := a_register s in
  let s := if nonzero (Z.land dest_bits 4) then set_a s alu_output else s in
  let s := if nonzero (Z.land dest_bits 2) then set_d s alu_output else s in
  if nonzero (Z.land dest_bits 1) then
    match write_ram (memory s) original_a alu_output with
    | Raise e => Caught e s
    | Return m =>
        let s := set_memory s m in
        let s := set_stats s (inc_memory_writes (stats s)) in
        execute_c_jump s jump_bits alu_output
    end
  else execute_c_jump s jump_bits alu_output.

Definition execute_c (s : CPUEngine) (raw : Z) : tried :=
  let comp_bits := to_u8 (Z.land (Z.shiftr raw 6) 127) in
  let dest_bits := to_u8 (Z.land (Z.shiftr raw 3) 7) in
  let jump_bits := to_u8 (Z.land raw 7) in
  let with_operand (s : CPUEngine) (am_val : Z) : tried :=
    match compute_alu (pc s) comp_bits (d_register s) am_val with
    | Raise e => Caught e s
    | Return alu_output => execute_c_store s dest_bits jump_bits alu_output
    end in
  if nonzero (Z.land comp_bits 64) then
    match read_ram (memory s) (a_register s) with
    | Raise e => Caught e s
    | Return am_val =>
        with_operand (set_stats s (inc_memory_reads (stats s))) am_val
    end
  else with_operand s (a_register s).

Definition execute_instruction (s : CPUEngine) : bool * CPUEngine :=
  if pc s >=? rom_size (memory s) then (false, set_state s HALTED)
  else if pause_requested s then
    (false, set_pause_reason
              (set_state (set_pause_requested s false) PAUSED) USER_REQUEST)
  else if (instructions_executed (stats s) >? 0)
          && existsb (Z.eqb (pc s)) (breakpoints s) then
    (false, set_pause_reason (set_state s PAUSED) BREAKPOINT)
  else
    let raw := rom (memory s) (pc s) in
    let t := if negb (nonzero (Z.land raw 32768)) then execute_a s raw
             else execute_c s raw in
    match t with
    | Completed continue s => (continue, s)
    | Caught e s =>
        (false, set_state (set_error_fields s (Some (What e)) (pc s)) ERROR)
    end.

Definition can_start (st : CPUState) : bool :=
  match st with READY | PAUSED => true | _ => false end.

Definition is_running (s : CPUEngine) : bool :=
  match state s with RUNNING => true | _ => false end.

(** [while (state_ == RUNNING) { if (!execute_instruction()) break; }];
    [None] when [fuel] iterations did not end the loop. *)
Fixpoint run_loop (fuel : nat) (s : CPUEngine) : option CPUEngine :=
  if is_running s then
    match fuel with
    | O => None
    | S fuel =>
        let '(continue, s) := execute_instruction s in
        if continue then run_loop fuel s else Some s
    end
  else Some s.

Definition run (fuel : nat) (s : CPUEngine) : option (CPUState * CPUEngine) :=
  if can_start (state s) then
    let s := set_state s RUNNING in
    let s := set_pause_reason s NONE in
    let s := set_pause_requested s false in
    match run_loop fuel s with
    | Some s => Some (state s, s)
    | None => None
    end
  else Some (state s, s).

(** The loop of [run_for]; it ends on its own, so the recursion is on the
    instructions left. *)
Fixpoint run_for_loop (budget : nat) (s : CPUEngine) : CPUEngine :=
  match budget with
  | O => s
  | S budget =>
      if is_running s then
        let '(continue, s) := execute_instruction s in
        if continue then run_for_loop budget s else s
      else s
  end.

Definition run_for (max_instructions : nat) (s : CPUEngine)
  : CPUState * CPUEngine :=
  if can_start (state s) then
    let s := set_state s RUNNING in
    let s := set_pause_reason s NONE in
    let s := set_pause_requested s false in
    let s := run_for_loop max_instructions s in
    let s := if is_running s
             then set_pause_reason (set_state s PAUSED) USER_REQUEST
             else s in
    (state s, s)
  else (state s, s).

Definition step (s : CPUEngine) : CPUState * CPUEngine :=
  if can_start (state s) then
    let s := set_state s RUNNING in
    let s := set_pause_reason s NONE in
    let s := snd (execute_instruction s) in
    let s := if is_running s
             then set_pause_reason (set_state s PAUSED) STEP_COMPLETE
             else s in
    (state s, s)
  else (state s, s).

End CPU.

(* ===================================================================== *)
(** ** VM memory (vm_memory.hpp / vm_memory.cpp)                          *)
(* ===================================================================== *)

Module VMMem.

Definition SP : Z := 0.
Definition LCL : Z := 1.
Definition ARG : Z := 2.
Definition THIS : Z := 3.
Definition THAT : Z := 4.
Definition TEMP_BASE : Z := 5.
Definition TEMP_SIZE : Z := 8.
Definition STATIC_BASE : Z := 16.
Definition STACK_BASE : Z := 256.
Definition STACK_MAX : Z := 2047.
Definition SCREEN_BASE : Z := 16384.
Definition RAM_SIZE : Z := 32768.

Inductive SegmentType :=
  LOCAL | ARGUMENT | SEG_THIS | SEG_THAT | CONSTANT | STATIC | TEMP | POINTER.

Record CallFrame := mkFrame {
  return_address : Z;
  saved_lcl : Z;
  saved_arg : Z;
  saved_this : Z;
  saved_that : Z;
  function_name : string;
  num_args : Z;
  num_locals : Z
}.

Record VMMemory := mkVMMem {
  ram : Z -> Z;
  call_stack : list CallFrame;          (* head = back() of the vector *)
  static_bases : list (string * Z);     (* unordered_map file -> base *)
  next_static_address : Z
}.

Definition set_ram (m : VMMemory) (r : Z -> Z) : VMMemory :=
  mkVMMem r (call_stack m) (static_bases m) (next_static_address m).
Definition set_call_stack (m : VMMemory) (c : list CallFrame) : VMMemory :=
  mkVMMem (ram m) c (static_bases m) (next_static_address m).

Definition reset (_ : VMMemory) : VMMemory :=
  mkVMMem (upd (fun _ => 0) SP STACK_BASE) [] [] STATIC_BASE.

Definition in_ram (i : Z) : bool := (0 <=? i) && (i <? RAM_SIZE).

(** [ram_[i]] as an rvalue and as the target of an assignment. *)
Definition ram_get (r : Z -> Z) (i : Z) : outcome Z :=
  if in_ram i then Ok (r i) else Undefined.
Definition ram_put (r : Z -> Z) (i v : Z) : outcome (Z -> Z) :=
  if in_ram i then Ok (upd r i v) else Undefined.

Local Open Scope outcome_scope.

Definition push (m : VMMemory) (value : Z) : outcome VMMemory :=
  let sp := ram m SP in
  if sp >? STACK_MAX then Throw (RuntimeError (MsgStackOverflow sp))
  else
    r <- ram_put (ram m) sp value ;;
    Ok (set_ram m (upd r SP (to_word (sp + 1)))).

Definition pop (m : VMMemory) : outcome (Z * VMMemory) :=
  let sp := ram m SP in
  if sp <=? STACK_BASE then Throw (RuntimeError MsgStackUnderflow)
  else
    let r := upd (ram m) SP (to_word (sp - 1)) in
    v <- ram_get r (sp - 1) ;;
    Ok (v, set_ram m r).

Fixpoint lookup (key : string) (l : list (string * Z)) : option Z :=
  match l with
  | [] => None
  | (k, v) :: rest => if String.eqb k key then Some v else lookup key rest
  end.

Definition calculate_address (m : VMMemory) (segment : SegmentType)
    (index : Z) (file_name : string) : outcome Z :=
  match segment with
  | LOCAL => Ok (to_word (ram m LCL + index))
  | ARGUMENT => Ok (to_word (ram m ARG + index))
  | SEG_THIS => Ok (to_word (ram m THIS + index))
  | SEG_THAT => Ok (to_word (ram m THAT + index))
  | TEMP =>
      if index >=? TEMP_SIZE then Throw (RuntimeError (MsgTempIndex index))
      else Ok (to_word (TEMP_BASE + index))
  | STATIC =>
      match lookup file_name (static_bases m) with
      | Some base => Ok (to_word (base + index))
      | None => Throw (RuntimeError (MsgStaticNotInitialized file_name))
      end
  | POINTER =>
      if index >? 1 then Throw (RuntimeError (MsgPointerIndex index))
      else Ok (to_word (THIS + index))
  | CONSTANT => Throw (InternalError MsgInternal)
  end.

Definition read_segment (m : VMMemory) (segment : SegmentType) (index : Z)
    (file_name : string) : outcome Z :=
  match segment with
  | CONSTANT => Ok index
  | _ =>
      addr <- calculate_address m segment index file_name ;;
      ram_get (ram m) addr
  end.

Definition write_segment (m : VMMemory) (segment : SegmentType)
    (index value : Z) (file_name : string) : outcome VMMemory :=
  match segment with
  | CONSTANT => Throw (RuntimeError MsgWriteConstant)
  | _ =>
      addr <- calculate_address m segment index file_name ;;
      r <- ram_put (ram m) addr value ;;
      Ok (set_ram m r)
  end.

Definition get_static_base (m : VMMemory) (file_name : string)
  : outcome (Z * VMMemory) :=
  match lookup file_name (static_bases m) with
  | Some base => Ok (base, m)
  | None =>
      let base := next_static_address m in
      if base >=? STACK_BASE then Throw (RuntimeError MsgOutOfStaticSpace)
      else
        Ok (base,
            mkVMMem (ram m) (call_stack m)
                    ((file_name, base) :: static_bases m)
                    (to_word (next_static_address m + 16)))
  end.

(** [for (i = 0; i < num_locals; i++) ram_[sp++] = 0;] *)
Fixpoint push_zeros (count : nat) (r : Z -> Z) (sp : Z)
  : outcome ((Z -> Z) * Z) :=
  match count with
  | O => Ok (r, sp)
  | S count =>
      r <- ram_put r sp 0 ;;
      push_zeros count r (to_word (sp + 1))
  end.

Definition push_frame (m : VMMemory) (return_address : Z)
    (function_name : string) (num_args num_locals : Z) : outcome VMMemory :=
  let r := ram m in
  let frame := mkFrame return_address (r LCL) (r ARG) (r THIS) (r THAT)
                       function_name num_args num_locals in
  let sp := r SP in
  r <- ram_put r sp (to_word return_address) ;;
  let sp := to_word (sp + 1) in
  r <- ram_put r sp (saved_lcl frame) ;;
  let sp := to_word (sp + 1) in
  r <- ram_put r sp (saved_arg frame) ;;
  let sp := to_word (sp + 1) in
  r <- ram_put r sp (saved_this frame) ;;
  let sp := to_word (sp + 1) in
  r <- ram_put r sp (saved_that frame) ;;
  let sp := to_word (sp + 1) in
  let r := upd r ARG (to_word (sp - num_args - 5)) in
  let r := upd r LCL sp in
  rs <- push_zeros (Z.to_nat num_locals) r sp ;;
  let '(r, sp) := rs in
  let r := upd r SP sp in
  Ok (mkVMMem r (frame :: call_stack m) (static_bases m)
              (next_static_address m)).

Definition pop_frame (m : VMMemory) (return_value : Z)
  : outcome (Z * VMMemory) :=
  match call_stack m with
  | [] => Throw (RuntimeError MsgNoActiveFunction)
  | _frame :: frames =>
      let r := ram m in
      let frame_ptr := r LCL in
      ret_addr <- ram_get r (frame_ptr - 5) ;;
      let arg_addr := r ARG in
      v <- ram_get r (frame_ptr - 1) ;;
      let r := upd r THAT v in
      v <- ram_get r (frame_ptr - 2) ;;
      let r := upd r THIS v in
      v <- ram_get r (frame_ptr - 3) ;;
      let r := upd r ARG v in
      v <- ram_get r (frame_ptr - 4) ;;
      let r := upd r LCL v in
      r <- ram_put r arg_addr return_value ;;
      let r := upd r SP (to_word (arg_addr + 1)) in
      Ok (ret_addr, mkVMMem r frames (static_bases m) (next_static_address m))
  end.

Definition current_function (m : VMMemory) : string :=
  match call_stack m with
  | [] => EmptyString
  | f :: _ => function_name f
  end.

Definition out_of_screen (x y : Z) : bool :=
  (x <? 0) || (x >=? 512) || (y <? 0) || (y >=? 256).

Definition get_pixel (m : VMMemory) (x y : Z) : bool :=
  if out_of_screen x y then false
  else
    let word_offset := y * 32 + Z.quot x 16 in
    let bit_offset := Z.rem x 16 in
    let word := ram m (SCREEN_BASE + word_offset) in
    Instruction.nonzero (Z.land (Z.shiftr word bit_offset) 1).

Definition set_pixel (m : VMMemory) (x y : Z) (on : bool) : VMMemory :=
  if out_of_screen x y then m
  else
    let word_offset := y * 32 + Z.quot x 16 in
    let bit_offset := Z.rem x 16 in
    let addr := to_word (SCREEN_BASE + word_offset) in
    if on then
      set_ram m (upd (ram m) addr
        (to_word (Z.lor (ram m addr) (Z.shiftl 1 bit_offset))))
    else
      set_ram m (upd (ram m) addr
        (to_word (Z.land (ram m addr)
                         (to_word (Z.lnot (Z.shiftl 1 bit_offset)))))).

End VMMem.

(* ===================================================================== *)
(** ** VM engine (vm_command.hpp, vm_engine.hpp / vm_engine.cpp)          *)
(* ===================================================================== *)

Module VM.
Import VMMem.

Inductive ArithmeticOp := ADD | SUB | NEG | EQ | GT | LT | AND | OR | NOT.

Inductive VMCommand :=
  | ArithmeticCommand (operation : ArithmeticOp)
  | PushCommand (segment : SegmentType) (index : Z) (file_name : string)
  | PopCommand (segment : SegmentType) (index : Z) (file_name : string)
  | LabelCommand (label_name : string)
  | GotoCommand (label_name : string)
  | IfGotoCommand (label_name : string)
  | FunctionCommand (function_name : string) (num_locals : Z)
  | CallCommand (function_name : string) (num_args : Z)
  | ReturnCommand.

Record VMProgram := mkProgram {
  commands : list VMCommand;
  label_positions : list (string * Z);
  function_entry_points : list (string * Z);
  source_files : list string
}.

Inductive VMState := READY | RUNNING | PAUSED | HALTED | ERROR.
Inductive PauseReason :=
  NONE | STEP_COMPLETE | BREAKPOINT | FUNCTION_ENTRY | FUNCTION_EXIT
  | USER_REQUEST.

Record VMStats := mkStats {
  instructions_executed : Z;
  push_count : Z;
  pop_count : Z;
  arithmetic_count : Z;
  call_count : Z;
  return_count : Z
}.

Definition stats_reset : VMStats := mkStats 0 0 0 0 0 0.

Record VMEngine := mkVM {
  program : VMProgram;
  memory : VMMemory;
  pc : Z;
  state : VMState;
  pause_reason : PauseReason;
  stats : VMStats;
  entry_point : string;
  pause_requested : bool;
  breakpoints : list Z;               (* std::unordered_set<size_t> *)
  error_message : option ErrorText;   (* None is the empty string *)
  error_location : Z
}.

Definition set_memory (s : VMEngine) (m : VMMemory) : VMEngine :=
  mkVM (program s) m (pc s) (state s) (pause_reason s) (stats s)
       (entry_point s) (pause_requested s) (breakpoints s) (error_message s)
       (error_location s).
Definition set_pc (s : VMEngine) (v : Z) : VMEngine :=
  mkVM (program s) (memory s) v (state s) (pause_reason s) (stats s)
       (entry_point s) (pause_requested s) (breakpoints s) (error_message s)
       (error_location s).
Definition set_state (s : VMEngine) (v : VMState) : VMEngine :=
  mkVM (program s) (memory s) (pc s) v (pause_reason s) (stats s)
       (entry_point s) (pause_requested s) (breakpoints s) (error_message s)
       (error_location s).
Definition set_pause_reason (s : VMEngine) (v : PauseReason) : VMEngine :=
  mkVM (program s) (memory s) (pc s) (state s) v (stats s)
       (entry_point s) (pause_requested s) (breakpoints s) (error_message s)
       (error_location s).
Definition set_stats (s : VMEngine) (v : VMStats) : VMEngine :=
  mkVM (program s) (memory s) (pc s) (state s) (pause_reason s) v
       (entry_point s) (pause_requested s) (breakpoints s) (error_message s)
       (error_location s).
Definition set_pause_requested (s : VMEngine) (v : bool) : VMEngine :=
  mkVM (program s) (memory s) (pc s) (state s) (pause_reason s) (stats s)
       (entry_point s) v (breakpoints s) (error_message s)
       (error_location s).
Definition set_breakpoints (s : VMEngine) (v : list Z) : VMEngine :=
  mkVM (program s) (memory s) (pc s) (state s) (pause_reason s) (stats s)
       (entry_point s) (pause_requested s) v (error_message s)
       (error_location s).
Definition set_error_fields (s : VMEngine) (e : option ErrorText) (loc : Z)
  : VMEngine :=
  mkVM (program s) (memory s) (pc s) (state s) (pause_reason s) (stats s)
       (entry_point s) (pause_requested s) (breakpoints s) e loc.

Definition set_error (s : VMEngine) (m : Message) : VMEngine :=
  set_state (set_error_fields s (Some (Text m)) (pc s)) ERROR.

Definition inc_instructions_executed (t : VMStats) : VMStats :=
  mkStats (to_u64 (instructions_executed t + 1)) (push_count t) (pop_count t)
          (arithmetic_count t) (call_count t) (return_count t).
Definition inc_push_count (t : VMStats) : VMStats :=
  mkStats (instructions_executed t) (to_u64 (push_count t + 1)) (pop_count t)
          (arithmetic_count t) (call_count t) (return_count t).
Definition inc_pop_count (t : VMStats) : VMStats :=
  mkStats (instructions_executed t) (push_count t) (to_u64 (pop_count t + 1))
          (arithmetic_count t) (call_count t) (return_count t).
Definition inc_arithmetic_count (t : VMStats) : VMStats :=
  mkStats (instructions_executed t) (push_count t) (pop_count t)
          (to_u64 (arithmetic_count t + 1)) (call_count t) (return_count t).
Definition inc_call_count (t : VMStats) : VMStats :=
  mkStats (instructions_executed t) (push_count t) (pop_count t)
          (arithmetic_count t) (to_u64 (call_count t + 1)) (return_count t).
Definition inc_return_count (t : VMStats) : VMStats :=
  mkStats (instructions_executed t) (push_count t) (pop_count t)
          (arithmetic_count t) (call_count t) (to_u64 (return_count t + 1)).

(** The engine after [load_string] of an already parsed program. *)
Definition loaded (p : VMProgram) : VMEngine :=
  mkVM p (VMMem.reset (mkVMMem (fun _ => 0) [] [] STATIC_BASE)) 0 READY NONE
       stats_reset EmptyString false [] None 0.

Definition reset (s : VMEngine) : VMEngine :=
  mkVM (program s) (VMMem.reset (memory s)) 0 READY NONE stats_reset
       (entry_point s) false (breakpoints s) None 0.

Definition add_breakpoint (s : VMEngine) (command_index : Z) : VMEngine :=
  if existsb (Z.eqb command_index) (breakpoints s) then s
  else set_breakpoints s (command_index :: breakpoints s).
Definition remove_breakpoint (s : VMEngine) (command_index : Z) : VMEngine :=
  set_breakpoints s
    (filter (fun b => negb (b =? command_index)) (breakpoints s)).

(** *** Code that runs inside the engine: state, throw, undefined *)

Inductive vres (A : Type) :=
  | VOk (a : A) (s : VMEngine)
  | VThrow (e : N2TError) (s : VMEngine)
  | VUndef.
Arguments VOk {A} a s.
Arguments VThrow {A} e s.
Arguments VUndef {A}.

Definition M (A : Type) := VMEngine -> vres A.

Definition ret {A} (a : A) : M A := fun s => VOk a s.
Definition vbind {A B} (m : M A) (k : A -> M B) : M B :=
  fun s => match m s with
           | VOk a s' => k a s'
           | VThrow e s' => VThrow e s'
           | VUndef => VUndef
           end.
Definition throw {A} (e : N2TError) : M A := fun s => VThrow e s.
Definition get : M VMEngine := fun s => VOk s s.
Definition modify (f : VMEngine -> VMEngine) : M unit := fun s => VOk tt (f s).

(** A call into [memory_]. *)
Definition on_memory {A} (f : VMMemory -> outcome (A * VMMemory)) : M A :=
  fun s => match f (memory s) with
           | Ok (a, m) => VOk a (set_memory s m)
           | Throw e => VThrow e s
           | Undefined => VUndef
           end.

Definition with_unit (o : outcome VMMemory) : outcome (unit * VMMemory) :=
  match o with
  | Ok m => Ok (tt, m)
  | Throw e => Throw e
  | Undefined => Undefined
  end.

Definition keep_memory {A} (m : VMMemory) (o : outcome A)
  : outcome (A * VMMemory) :=
  match o with
  | Ok a => Ok (a, m)
  | Throw e => Throw e
  | Undefined => Undefined
  end.

Notation "x <~ m ;; k" := (vbind m (fun x => k))
  (at level 61, m at next level, right associativity).
Notation "m ;;; k" := (vbind m (fun _ => k))
  (at level 61, right associativity).

Definition mem_pop : M Z := on_memory VMMem.pop.
Definition mem_push (v : Z) : M unit :=
  on_memory (fun m => with_unit (VMMem.push m v)).
Definition advance_pc : M unit :=
  modify (fun s => set_pc s (to_u64 (pc s + 1))).
Definition count (inc : VMStats -> VMStats) : M unit :=
  modify (fun s => set_stats s (inc (stats s))).

Definition truth (b : bool) : Z := if b then 65535 else 0.

Definition execute_arithmetic (op : ArithmeticOp) : M unit :=
  count inc_arithmetic_count ;;;
  match op with
  | ADD => y <~ mem_pop ;; x <~ mem_pop ;;
           mem_push (to_word (to_int16 x + to_int16 y))
  | SUB => y <~ mem_pop ;; x <~ mem_pop ;;
           mem_push (to_word (to_int16 x - to_int16 y))
  | NEG => y <~ mem_pop ;; mem_push (to_word (- to_int16 y))
  | EQ => y <~ mem_pop ;; x <~ mem_pop ;; mem_push (truth (x =? y))
  | GT => y <~ mem_pop ;; x <~ mem_pop ;;
          mem_push (truth (to_int16 x >? to_int16 y))
  | LT => y <~ mem_pop ;; x <~ mem_pop ;;
          mem_push (truth (to_int16 x <? to_int16 y))
  | AND => y <~ mem_pop ;; x <~ mem_pop ;; mem_push (to_word (Z.land x y))
  | OR => y <~ mem_pop ;; x <~ mem_pop ;; mem_push (to_word (Z.lor x y))
  | NOT => y <~ mem_pop ;; mem_push (to_word (Z.lnot y))
  end ;;;
  advance_pc.

Definition execute_push (segment : SegmentType) (index : Z)
    (file_name : string) : M unit :=
  count inc_push_count ;;;
  value <~ on_memory (fun m =>
             keep_memory m (read_segment m segment index file_name)) ;;
  mem_push value ;;;
  advance_pc.

Definition execute_pop (segment : SegmentType) (index : Z)
    (file_name : string) : M unit :=
  count inc_pop_count ;;;
  value <~ mem_pop ;;
  on_memory (fun m =>
    with_unit (write_segment m segment index value file_name)) ;;;
  advance_pc.

Definition lookup_label (label_name : string) : M Z :=
  s <~ get ;;
  let current_func := current_function (memory s) in
  let scoped := (current_func ++ "$" ++ label_name)%string in
  let unscoped :=
    match lookup label_name (label_positions (program s)) with
    | Some i => ret i
    | None => throw (RuntimeError (MsgUndefinedLabel label_name))
    end in
  if negb (CPUMem.is_empty current_func) then
    match lookup scoped (label_positions (program s)) with
    | Some i => ret i
    | None => unscoped
    end
  else unscoped.

Definition lookup_function (function_name : string) : M Z :=
  s <~ get ;;
  match lookup function_name (function_entry_points (program s)) with
  | Some i => ret i
  | None => throw (RuntimeError (MsgUndefinedFunction function_name))
  end.

Definition execute_goto (label_name : string) : M unit :=
  target <~ lookup_label label_name ;;
  modify (fun s => set_pc s target).

Definition execute_if_goto (label_name : string) : M unit :=
  condition <~ mem_pop ;;
  if negb (condition =? 0) then
    target <~ lookup_label label_name ;;
    modify (fun s => set_pc s target)
  else advance_pc.

(** [num_locals] of the [function] command at [function_pc], else 0. *)
Definition locals_at (p : VMProgram) (function_pc : Z) : Z :=
  if function_pc <? Z.of_nat (List.length (commands p)) then
    match nth_error (commands p) (Z.to_nat function_pc) with
    | Some (FunctionCommand _ n) => n
    | _ => 0
    end
  else 0.

Definition execute_call (function_name : string) (num_args : Z) : M unit :=
  count inc_call_count ;;;
  function_pc <~ lookup_function function_name ;;
  s <~ get ;;
  let return_address := to_u64 (pc s + 1) in
  let num_locals := locals_at (program s) function_pc in
  on_memory (fun m =>
    with_unit (push_frame m return_address function_name num_args
                          num_locals)) ;;;
  modify (fun s => set_pc s function_pc).

Definition execute_return : M unit :=
  count inc_return_count ;;;
  return_value <~ mem_pop ;;
  return_address <~ on_memory (fun m => pop_frame m return_value) ;;
  if return_address =? 0 then modify (fun s => set_state s HALTED)
  else modify (fun s => set_pc s return_address).

(** The [std::visit] dispatch. *)
Definition dispatch (cmd : VMCommand) : M unit :=
  match cmd with
  | ArithmeticCommand op => execute_arithmetic op
  | PushCommand seg i f => execute_push seg i f
  | PopCommand seg i f => execute_pop seg i f
  | LabelCommand _ => advance_pc
  | GotoCommand l => execute_goto l
  | IfGotoCommand l => execute_if_goto l
  | FunctionCommand _ _ => advance_pc
  | CallCommand f n => execute_call f n
  | ReturnCommand => execute_return
  end.

(** [execute_command]: [None] is undefined behaviour inside the command. *)
Definition execute_command (s : VMEngine) : option (bool * VMEngine) :=
  if pc s >=? Z.of_nat (List.length (commands (program s))) then
    Some (false, set_state s HALTED)
  else if pause_requested s then
    Some (false, set_pause_reason
                   (set_state (set_pause_requested s false) PAUSED)
                   USER_REQUEST)
  else if (instructions_executed (stats s) >? 0)
          && existsb (Z.eqb (pc s)) (breakpoints s) then
    Some (false, set_pause_reason (set_state s PAUSED) BREAKPOINT)
  else
    match nth_error (commands (program s)) (Z.to_nat (pc s)) with
    | None => None
    | Some cmd =>
        match (dispatch cmd ;;; count inc_instructions_executed) s with
        | VOk _ s => Some (true, s)
        | VThrow e s =>
            Some (false,
                  set_state (set_error_fields s (Some (What e)) (pc s)) ERROR)
        | VUndef => None
        end
    end.

Section Execution.

(** [get_file_basename] is [std::filesystem::path(p).stem()]. *)
Variable get_file_basename : string -> string.

(** The loop of [initialize_execution] over the source files; a throw of
    [get_static_base] is not caught by the engine. *)
Fixpoint allocate_statics (files : list string) (m : VMMemory)
  : outcome VMMemory :=
  match files with
  | [] => Ok m
  | f :: more =>
      match get_static_base m (get_file_basename f) with
      | Ok (_, m) => allocate_statics more m
      | Throw e => Throw e
      | Undefined => Undefined
      end
  end.

Definition has_function (p : VMProgram) (name : string) : bool :=
  match lookup name (function_entry_points p) with
  | Some _ => true
  | None => false
  end.

Definition initialize_execution : M unit := fun s =>
  let s := set_memory s (VMMem.reset (memory s)) in
  let entry :=
    if CPUMem.is_empty (entry_point s) then
      if has_function (program s) "Sys.init" then "Sys.init"%string
      else if has_function (program s) "Main.main" then "Main.main"%string
      else EmptyString
    else entry_point s in
  (* [true]: the entry is set up; [false]: set_error and return *)
  let prepared : vres bool :=
    if negb (CPUMem.is_empty entry) then
      match lookup entry (function_entry_points (program s)) with
      | Some target =>
          let s := set_pc s target in
          match push_frame (memory s) 0 entry 0
                           (locals_at (program s) target) with
          | Ok m => VOk true (set_memory s m)
          | Throw e => VThrow e s
          | Undefined => VUndef
          end
      | None => VOk false (set_error s (MsgEntryPointNotFound entry))
      end
    else VOk true (set_pc s 0) in
  match prepared with
  | VOk false s => VOk tt s
  | VOk true s =>
      match allocate_statics (source_files (program s)) (memory s) with
      | Ok m =>
          VOk tt (set_pause_reason (set_state (set_memory s m) PAUSED) NONE)
      | Throw e => VThrow e s
      | Undefined => VUndef
      end
  | VThrow e s => VThrow e s
  | VUndef => VUndef
  end.

(** What a public call gives back: the state it returns, an exception that
    leaves the call, undefined behaviour, or a loop that [fuel] iterations
    did not end. *)
Inductive call_result :=
  | Returned (st : VMState) (s : VMEngine)
  | Escaped (e : N2TError) (s : VMEngine)
  | UndefinedBehaviour
  | OutOfFuel.

Definition is_running (s : VMEngine) : bool :=
  match state s with RUNNING => true | _ => false end.

Fixpoint run_loop (fuel : nat) (s : VMEngine) : call_result :=
  if is_running s then
    match fuel with
    | O => OutOfFuel
    | S fuel =>
        match execute_command s with
        | None => UndefinedBehaviour
        | Some (true, s) => run_loop fuel s
        | Some (false, s) => Returned (state s) s
        end
    end
  else Returned (state s) s.

(** The common head of [run] and [step]. *)
Definition prepare (s : VMEngine) : vres unit :=
  match state s with
  | READY => initialize_execution s
  | _ => VOk tt s
  end.

Definition may_proceed (st : VMState) : bool :=
  match st with PAUSED | RUNNING => true | _ => false end.

Definition run (fuel : nat) (s : VMEngine) : call_result :=
  match prepare s with
  | VUndef => UndefinedBehaviour
  | VThrow e s => Escaped e s
  | VOk _ s =>
      if negb (may_proceed (state s)) then Returned (state s) s
      else
        let s := set_state s RUNNING in
        let s := set_pause_reason s NONE in
        let s := set_pause_requested s false in
        run_loop fuel s
  end.

(** The loop of [run_for]; it ends on its own, so the recursion is on the
    instructions left. *)
Fixpoint run_for_loop (budget : nat) (s : VMEngine) : call_result :=
  match budget with
  | O => Returned (state s) s
  | S budget =>
      if is_running s then
        match execute_command s with
        | None => UndefinedBehaviour
        | Some (true, s) => run_for_loop budget s
        | Some (false, s) => Returned (state s) s
        end
      else Returned (state s) s
  end.

Definition run_for (max_instructions : nat) (s : VMEngine) : call_result :=
  match prepare s with
  | VUndef => UndefinedBehaviour
  | VThrow e s => Escaped e s
  | VOk _ s =>
      if negb (may_proceed (state s)) then Returned (state s) s
      else
        let s := set_state s RUNNING in
        let s := set_pause_reason s NONE in
        let s := set_pause_requested s false in
        match run_for_loop max_instructions s with
        | Returned _ s =>
            let s := if is_running s
                     then set_pause_reason (set_state s PAUSED) USER_REQUEST
                     else s in
            Returned (state s) s
        | other => other
        end
  end.

Definition step (s : VMEngine) : call_result :=
  match prepare s with
  | VUndef => UndefinedBehaviour
  | VThrow e s => Escaped e s
  | VOk _ s =>
      if negb (may_proceed (state s)) then Returned (state s) s
      else
        let s := set_state s RUNNING in
        let s := set_pause_reason s NONE in
        match execute_command s with
        | None => UndefinedBehaviour
        | Some (_, s) =>
            let s := if is_running s
                     then set_pause_reason (set_state s PAUSED) STEP_COMPLETE
                     else s in
            Returned (state s) s
        end
  end.

End Execution.

End VM.

(* ===================================================================== *)
(** ** HDL chip runtime: wiring and evaluation order (hdl_chip)           *)
(* ===================================================================== *)

Module HDL.

Record HDLPort := mkPort { port_name : string; width : Z }.

Record PinRef := mkPin { name : string; lo : Z; hi : Z }.

Record HDLConnection := mkConn { internal : PinRef; external : PinRef }.

Record HDLPart := mkPart {
  chip_name : string;
  connections : list HDLConnection;
  source_line : Z
}.

Record HDLChipDef := mkDef {
  def_name : string;
  inputs : list HDLPort;
  outputs : list HDLPort;
  parts : list HDLPart;
  is_builtin : bool
}.

Record WireMapping := mkMapping {
  part_index : nat;
  part_pin : string;
  part_lo : Z;
  part_hi : Z;
  chip_pin : string;
  chip_lo : Z;
  chip_hi : Z;
  is_input : bool
}.

(** What the resolver gives for a chip name: here the definition of the
    chip it instantiates, which is all the wiring looks at. *)
Definition ChipResolver := string -> option HDLChipDef.

(** The fields of a user-defined [HDLChip] that wiring and scheduling use;
    [sub_chips] holds the definition of each sub-chip instance. *)
Record HDLChip := mkChip {
  def : HDLChipDef;
  sub_chips : list HDLChipDef;
  input_mappings : list WireMapping;
  output_mappings : list WireMapping;
  eval_order : list nat
}.

Definition has_port (ports : list HDLPort) (n : string) : bool :=
  existsb (fun p => String.eqb (port_name p) n) ports.

Definition is_chip_input (d : HDLChipDef) (n : string) : bool :=
  has_port (inputs d) n.
Definition is_chip_output (d : HDLChipDef) (n : string) : bool :=
  has_port (outputs d) n.

Definition is_constant (n : string) : bool :=
  String.eqb n "true" || String.eqb n "false".

(** The connection loop of [build_wiring] for part [pi] whose sub-chip has
    definition [sub_def]: the mappings appended to the two tables. *)
Fixpoint wire_connections (pi : nat) (sub_def : HDLChipDef)
    (conns : list HDLConnection) (ins outs : list WireMapping)
  : list WireMapping * list WireMapping :=
  match conns with
  | [] => (ins, outs)
  | conn :: more =>
      let i := internal conn in
      let e := external conn in
      let is_part_input := has_port (inputs sub_def) (name i) in
      if is_constant (name e) then
        let m := mkMapping pi (name i) (lo i) (hi i) (name e) (lo e) (hi e)
                           true in
        wire_connections pi sub_def more (ins ++ [m]) outs
      else
        let m := mkMapping pi (name i) (lo i) (hi i) (name e) (lo e) (hi e)
                           is_part_input in
        if is_part_input
        then wire_connections pi sub_def more (ins ++ [m]) outs
        else wire_connections pi sub_def more ins (outs ++ [m])
  end.

(** The part loop of [build_wiring], from part number [pi] on. *)
Fixpoint build_parts (resolver : ChipResolver) (ps : list HDLPart) (pi : nat)
    (subs : list HDLChipDef) (ins outs : list WireMapping)
  : except (list HDLChipDef * list WireMapping * list WireMapping) :=
  match ps with
  | [] => Return (subs, ins, outs)
  | part :: more =>
      match resolver (chip_name part) with
      | None =>
          Raise (RuntimeError
                   (MsgUnknownChip (chip_name part) (source_line part)))
      | Some sub_def =>
          let '(ins, outs) :=
            wire_connections pi sub_def (connections part) ins outs in
          build_parts resolver more (S pi) (subs ++ [sub_def]) ins outs
      end
  end.

Definition build_wiring (d : HDLChipDef) (resolver : ChipResolver)
  : except (list HDLChipDef * list WireMapping * list WireMapping) :=
  build_parts resolver (parts d) 0%nat [] [] [].

(** *** [compute_eval_order] *)

(** [std::set<std::string>]: a sorted list without repetition. *)
Fixpoint set_insert (x : string) (s : list string) : list string :=
  match s with
  | [] => [x]
  | y :: rest =>
      match String.compare x y with
      | Eq => s
      | Lt => x :: s
      | Gt => y :: set_insert x rest
      end
  end.

Definition set_count (x : string) (s : list string) : bool :=
  existsb (String.eqb x) s.

(** A [std::vector] indexed by part number, with one cell replaced. *)
Definition vset {A} (v : nat -> A) (i : nat) (x : A) : nat -> A :=
  fun j => if Nat.eqb j i then x else v j.

Definition collect_outputs (outs : list WireMapping) : nat -> list string :=
  fold_left
    (fun po m => vset po (part_index m)
                      (set_insert (chip_pin m) (po (part_index m))))
    outs (fun _ => []).

Definition collect_inputs (d : HDLChipDef) (ins : list WireMapping)
  : nat -> list string :=
  fold_left
    (fun pi m =>
       if is_constant (chip_pin m) then pi
       else if negb (is_chip_input d (chip_pin m))
               && negb (is_chip_output d (chip_pin m))
       then vset pi (part_index m)
                 (set_insert (chip_pin m) (pi (part_index m)))
       else pi)
    ins (fun _ => []).

(** The pairs [(a, b)] for which the triple loop runs its body, in the
    order it meets them: [b] outermost, then the wires [b] reads, then
    [a]. *)
Definition dependency_pairs (n : nat) (part_inputs part_outputs
    : nat -> list string) : list (nat * nat) :=
  flat_map (fun b =>
    flat_map (fun wire =>
      flat_map (fun a =>
        if negb (Nat.eqb a b) && set_count wire (part_outputs a)
        then [(a, b)] else [])
        (seq 0 n))
      (part_inputs b))
    (seq 0 n).

(** The body of the triple loop: [adj[a].push_back(b); in_degree[b]++]. *)
Definition add_edge (g : (nat -> list nat) * (nat -> Z)) (e : nat * nat)
  : (nat -> list nat) * (nat -> Z) :=
  let '(adj, in_degree) := g in
  let '(a, b) := e in
  (vset adj a (adj a ++ [b]), vset in_degree b (to_u64 (in_degree b + 1))).

Definition build_graph (pairs : list (nat * nat))
  : (nat -> list nat) * (nat -> Z) :=
  fold_left add_edge pairs (fun _ => [], fun _ => 0).

(** [for (size_t v : adj[u]) if (--in_degree[v] == 0) q.push(v);] *)
Fixpoint relax (targets : list nat) (in_degree : nat -> Z) (q : list nat)
  : (nat -> Z) * list nat :=
  match targets with
  | [] => (in_degree, q)
  | v :: more =>
      let d := to_u64 (in_degree v - 1) in
      let in_degree := vset in_degree v d in
      relax more in_degree (if d =? 0 then q ++ [v] else q)
  end.

(** The [while (!q.empty())] loop; [None] when [fuel] iterations did not
    empty the queue. *)
Fixpoint kahn (fuel : nat) (adj : nat -> list nat) (in_degree : nat -> Z)
    (q order : list nat) : option (list nat) :=
  match q with
  | [] => Some order
  | u :: q =>
      match fuel with
      | O => None
      | S fuel =>
          let '(in_degree, q) := relax (adj u) in_degree q in
          kahn fuel adj in_degree q (order ++ [u])
      end
  end.

(** The pairs that the triple loop of [compute_eval_order] meets for the
    mappings of a chip with [n] sub-chips. *)
Definition dependencies (d : HDLChipDef) (n : nat)
    (ins outs : list WireMapping) : list (nat * nat) :=
  dependency_pairs n (collect_inputs d ins) (collect_outputs outs).

(** [compute_eval_order] up to the end of the queue loop, which is given
    [n] iterations: the order Kahn's algorithm reaches. *)
Definition kahn_order (d : HDLChipDef) (n : nat)
    (ins outs : list WireMapping) : option (list nat) :=
  let '(adj, in_degree) := build_graph (dependencies d n ins outs) in
  let q := filter (fun i => in_degree i =? 0) (seq 0 n) in
  kahn n adj in_degree q [].

(** [compute_eval_order] for [n] sub-chips. *)
Definition compute_eval_order (d : HDLChipDef) (n : nat)
    (ins outs : list WireMapping) : option (list nat) :=
  match n with
  | O => Some []
  | _ =>
      match kahn_order d n ins outs with
      | None => None
      | Some order =>
          if negb (Nat.eqb (List.length order) n) then Some (seq 0 n)
          else Some order
      end
  end.

(** Construction of a user-defined chip. *)
Inductive constructed :=
  | Built (c : HDLChip)
  | Failed (e : N2TError)
  | Unfinished.

Definition construct (d : HDLChipDef) (resolver : ChipResolver)
  : constructed :=
  match build_wiring d resolver with
  | Raise e => Failed e
  | Return (subs, ins, outs) =>
      match compute_eval_order d (List.length subs) ins outs with
      | Some order => Built (mkChip d subs ins outs order)
      | None => Unfinished
      end
  end.

End HDL.

(* ===================================================================== *)
(** ** Vocabulary of the statements                                       *)
(* ===================================================================== *)

Module Vocabulary.

(** Every character of [s] satisfies [p]. *)
Fixpoint all_chars (p : ascii -> bool) (s : string) : bool :=
  match s with
  | EmptyString => true
  | String c rest => p c && all_chars p rest
  end.

Definition is_binary_digit (c : ascii) : bool :=
  Ascii.eqb c "0"%char || Ascii.eqb c "1"%char.

(** The lines of a .hack text that hold an instruction: those left
    non-empty by the trailing trim. *)
Definition instruction_lines (hack_text : string) : list string :=
  filter (fun l => negb (CPUMem.is_empty (CPUMem.trim_trailing l)))
         (CPUMem.getlines hack_text).

(** A line that [load_rom_string] takes without complaint: blank after the
    trailing trim, or sixteen binary digits. *)
Definition acceptable_line (raw : string) : bool :=
  let line := CPUMem.trim_trailing raw in
  CPUMem.is_empty line
  || ((Z.of_nat (String.length line) =? 16)
      && all_chars is_binary_digit line).

(** Where pixel (x, y) lives: the RAM word and the bit in it. *)
Definition word_of (x y : Z) : Z := 16384 + (y * 32 + Z.quot x 16).
Definition bit_of (x : Z) : Z := Z.rem x 16.

Definition on_screen (x y : Z) : Prop := 0 <= x < 512 /\ 0 <= y < 256.

(** The jump condition on a signed value: j1 (bit 2) is "< 0", j2 (bit 1)
    is "= 0", j3 (bit 0) is "> 0". *)
Definition jump_condition (jump value : Z) : bool :=
  (Z.testbit jump 2 && (value <? 0))
  || (Z.testbit jump 1 && (value =? 0))
  || (Z.testbit jump 0 && (value >? 0)).

(** The CPU engine gets past the halt, pause and breakpoint checks of
    [execute_instruction] and fetches the instruction at PC. *)
Definition cpu_fetches (s : CPU.CPUEngine) : bool :=
  negb (CPU.pc s >=? CPUMem.rom_size (CPU.memory s))
  && negb (CPU.pause_requested s)
  && negb ((CPU.instructions_executed (CPU.stats s) >? 0)
           && existsb (Z.eqb (CPU.pc s)) (CPU.breakpoints s)).

(** A public call on an engine: [run] (with the iterations its loop is
    allowed) or [step]. *)
Inductive engine_call := CallRun (fuel : nat) | CallStep.

(** A series of calls on the CPU engine, with the states they return;
    [None] when a [run] did not finish. *)
Fixpoint cpu_calls (calls : list engine_call) (s : CPU.CPUEngine)
  : option (list CPU.CPUState * CPU.CPUEngine) :=
  match calls with
  | [] => Some ([], s)
  | c :: more =>
      match (match c with
             | CallRun fuel => CPU.run fuel s
             | CallStep => Some (CPU.step s)
             end) with
      | Some (st, s) =>
          match cpu_calls more s with
          | Some (sts, s) => Some (st :: sts, s)
          | None => None
          end
      | None => None
      end
  end.

(** The same for the VM engine. *)
Fixpoint vm_calls (basename : string -> string) (calls : list engine_call)
    (s : VM.VMEngine) : option (list VM.VMState * VM.VMEngine) :=
  match calls with
  | [] => Some ([], s)
  | c :: more =>
      match (match c with
             | CallRun fuel => VM.run basename fuel s
             | CallStep => VM.step basename s
             end) with
      | VM.Returned st s =>
          match vm_calls basename more s with
          | Some (sts, s) => Some (st :: sts, s)
          | None => None
          end
      | _ => None
      end
  end.

(** Programs used to exercise the engines.  The CPU program of the
    breakpoint test: [@1; D=A; @2; D=A]. *)
Definition cpu_test_program : list Z := [1; 60432; 2; 60432].

(** [function Sys.init 0; push constant 7; push constant 8; add; return] *)
Definition vm_test_program : VM.VMProgram :=
  VM.mkProgram
    [VM.FunctionCommand "Sys.init" 0;
     VM.PushCommand VMMem.CONSTANT 7 "Test";
     VM.PushCommand VMMem.CONSTANT 8 "Test";
     VM.ArithmeticCommand VM.ADD;
     VM.ReturnCommand]
    [] [("Sys.init"%string, 0)] ["Test"%string].

(** [function Sys.init 0; call Sys.init 0]: recursion without end. *)
Definition vm_runaway_program : VM.VMProgram :=
  VM.mkProgram
    [VM.FunctionCommand "Sys.init" 0; VM.CallCommand "Sys.init" 0]
    [] [("Sys.init"%string, 0)] ["Test"%string].

(** [function Sys.init 0; push constant 7; push constant 8;
     call Math.add 2; return; function Math.add 0; push argument 0;
     push argument 1; add; return] *)
Definition vm_add_program : VM.VMProgram :=
  VM.mkProgram
    [VM.FunctionCommand "Sys.init" 0;
     VM.PushCommand VMMem.CONSTANT 7 "Test";
     VM.PushCommand VMMem.CONSTANT 8 "Test";
     VM.CallCommand "Math.add" 2;
     VM.ReturnCommand;
     VM.FunctionCommand "Math.add" 0;
     VM.PushCommand VMMem.ARGUMENT 0 "Test";
     VM.PushCommand VMMem.ARGUMENT 1 "Test";
     VM.ArithmeticCommand VM.ADD;
     VM.ReturnCommand]
    [] [("Sys.init"%string, 0); ("Math.add"%string, 5)] ["Test"%string].

(** File names that are their own stem. *)
Definition plain_basename (file : string) : string := file.


Local Open Scope outcome_scope.





(** [a] comes before an occurrence of [b] in [l]. *)
Definition before (a b : nat) (l : list nat) : Prop :=
  exists l1 l2, l = l1 ++ b :: l2 /\ In a l1.

(** Part [a] of the chip writes the wire [w]: one of its output pins is
    connected to [w]. *)
Definition part_writes (c : HDL.HDLChip) (a : nat) (w : string) : Prop :=
  exists m, In m (HDL.output_mappings c)
            /\ HDL.part_index m = a /\ HDL.chip_pin m = w.

(** Part [b] of the chip reads the wire [w]: one of its input pins is
    connected to [w], which is not one of the constants. *)
Definition part_reads (c : HDL.HDLChip) (b : nat) (w : string) : Prop :=
  exists m, In m (HDL.input_mappings c)
            /\ HDL.part_index m = b /\ HDL.chip_pin m = w
            /\ HDL.is_constant w = false.

(** [w] is an internal wire: neither an input nor an output of the chip. *)
Definition internal_wire (c : HDL.HDLChip) (w : string) : Prop :=
  HDL.is_chip_input (HDL.def c) w = false
  /\ HDL.is_chip_output (HDL.def c) w = false.

(** Counting in a list [E] of dependency pairs: the pairs into [b] whose
    source is not in [order]; the pairs from [u] to [b]; the targets of
    [u] in the order of [E]. *)
Definition pending (E : list (nat * nat)) (order : list nat) (b : nat) : nat :=
  List.length
    (filter (fun e => Nat.eqb (snd e) b
                      && negb (existsb (Nat.eqb (fst e)) order)) E).

Definition between (E : list (nat * nat)) (u b : nat) : nat :=
  List.length (filter (fun e => Nat.eqb (fst e) u && Nat.eqb (snd e) b) E).

Definition targets_of (E : list (nat * nat)) (u : nat) : list nat :=
  map snd (filter (fun e => Nat.eqb (fst e) u) E).

(** What holds of the queue loop of Kahn's algorithm at the head of each
    iteration, for [n] nodes and the pairs [E]: the in-degree of a node
    counts the pairs into it from nodes not yet ordered; queued nodes have
    in-degree zero; no node is ordered or queued twice; all are below [n];
    the source of a pair into an ordered node is ordered before it; and a
    node of in-degree zero is ordered or queued. *)
Record kahn_invariant (n : nat) (E : list (nat * nat))
    (in_degree : nat -> Z) (q order : list nat) : Prop := {
  inv_degree : forall b, in_degree b = Z.of_nat (pending E order b);
  inv_queue : forall v, In v q -> in_degree v = 0;
  inv_nodup : NoDup (order ++ q);
  inv_range : forall v, In v (order ++ q) -> (v < n)%nat;
  inv_order : forall a b, In (a, b) E -> In b order -> before a b order;
  inv_ready : forall v, (v < n)%nat -> in_degree v = 0 -> In v (order ++ q)
}.

(** Chips used to exercise the wiring.  The resolver knows [Not]. *)
Definition not_def : HDL.HDLChipDef :=
  HDL.mkDef "Not" [HDL.mkPort "in" 1] [HDL.mkPort "out" 1] [] true.

Definition test_resolver : HDL.ChipResolver :=
  fun chip => if String.eqb chip "Not" then Some not_def else None.

Definition connect (pin wire : string) : HDL.HDLConnection :=
  HDL.mkConn (HDL.mkPin pin (-1) (-1)) (HDL.mkPin wire (-1) (-1)).

(** Two inverters in a row, the second written first:
    [Not(in=w, out=y); Not(in=x, out=w)]. *)
Definition chain_def : HDL.HDLChipDef :=
  HDL.mkDef "Chain" [HDL.mkPort "x" 1] [HDL.mkPort "y" 1]
    [HDL.mkPart "Not" [connect "in" "w"; connect "out" "y"] 4;
     HDL.mkPart "Not" [connect "in" "x"; connect "out" "w"] 5]
    false.

(** Two inverters in a ring:
    [Not(in=w2, out=w1); Not(in=w1, out=w2)]. *)
Definition ring_def : HDL.HDLChipDef :=
  HDL.mkDef "Ring" [HDL.mkPort "x" 1] [HDL.mkPort "y" 1]
    [HDL.mkPart "Not" [connect "in" "w2"; connect "out" "w1"] 4;
     HDL.mkPart "Not" [connect "in" "w1"; connect "out" "w2"] 5]
    false.

(** An inverter fed from the chip's own output:
    [Not(in=y, out=w); Not(in=x, out=y)]. *)
Definition feedback_def : HDL.HDLChipDef :=
  HDL.mkDef "Feedback" [HDL.mkPort "x" 1] [HDL.mkPort "y" 1]
    [HDL.mkPart "Not" [connect "in" "y"; connect "out" "w"] 4;
     HDL.mkPart "Not" [connect "in" "x"; connect "out" "y"] 5]
    false.

End Vocabulary.

(* ===================================================================== *)
(** ** Instruction validation (instruction.cpp)                           *)
(* ===================================================================== *)

Module Validation.
Import Instruction.

(** The entries that [make_valid_comp_table] sets, in its order; every
    other entry of the 128 is [false]. *)
Definition valid_comp_entries : list Z :=
  [ 42   (* 0b0101010  0   *);  63  (* 0b0111111  1   *);
    58   (* 0b0111010  -1  *);  12  (* 0b0001100  D   *);
    48   (* 0b0110000  A   *);  13  (* 0b0001101  !D  *);
    49   (* 0b0110001  !A  *);  15  (* 0b0001111  -D  *);
    51   (* 0b0110011  -A  *);  31  (* 0b0011111  D+1 *);
    55   (* 0b0110111  A+1 *);  14  (* 0b0001110  D-1 *);
    50   (* 0b0110010  A-1 *);  2   (* 0b0000010  D+A *);
    19   (* 0b0010011  D-A *);  7   (* 0b0000111  A-D *);
    0    (* 0b0000000  D&A *);  21  (* 0b0010101  D|A *);
    112  (* 0b1110000  M   *);  113 (* 0b1110001  !M  *);
    115  (* 0b1110011  -M  *);  119 (* 0b1110111  M+1 *);
    114  (* 0b1110010  M-1 *);  66  (* 0b1000010  D+M *);
    83   (* 0b1010011  D-M *);  71  (* 0b1000111  M-D *);
    64   (* 0b1000000  D&M *);  85  (* 0b1010101  D|M *) ].

Definition VALID_COMP (i : Z) : bool := existsb (Z.eqb i) valid_comp_entries.

Definition is_valid_computation (comp_bits : Z) : bool :=
  if comp_bits >=? 128 then false else VALID_COMP comp_bits.

(** [decode_instruction_checked] returns the decoded instruction or throws
    [ParseError("<rom>", 0, ...)], whose text is built from the
    computation code and the instruction word. *)
Inductive checked :=
  | Decoded (d : DecodedInstruction)
  | InvalidComputation (file : string) (line : Z) (comp_bits instruction : Z).

Definition decode_instruction_checked (instruction : Z) : checked :=
  let decoded := decode_instruction instruction in
  match type decoded with
  | C_INSTRUCTION =>
      let comp_bits := to_u8 (comp decoded) in
      if negb (is_valid_computation comp_bits) then
        InvalidComputation "<rom>" 0 comp_bits instruction
      else Decoded decoded
  | A_INSTRUCTION => Decoded decoded
  end.

End Validation.

(* ===================================================================== *)
(** ** VM memory: debugging views (vm_memory.cpp)                         *)
(* ===================================================================== *)

Module VMDebug.
Import VMMem.
Local Open Scope outcome_scope.

(** [for (Address addr = from; addr < sp; addr++) push_back(ram_[addr])],
    with [count] the number of addresses from [from] up to [sp]. *)
Fixpoint words_from (count : nat) (r : Z -> Z) (addr : Z)
  : outcome (list Z) :=
  match count with
  | O => Ok []
  | S count =>
      v <- ram_get r addr ;;
      rest <- words_from count r (to_word (addr + 1)) ;;
      Ok (v :: rest)
  end.

Definition get_stack_contents (m : VMMemory) : outcome (list Z) :=
  let sp := ram m SP in
  words_from (Z.to_nat (sp - STACK_BASE)) (ram m) STACK_BASE.

End VMDebug.

(* ===================================================================== *)
(** ** HDL chip runtime: pin storage (hdl_chip)                           *)
(* ===================================================================== *)

Module Pins.
Import HDL.

(** The pin fields of an [HDLChip]: its definition and the two
    [std::unordered_map]s, as association lists with one entry per key. *)
Record PinStore := mkStore {
  owner : HDLChipDef;
  pins : list (string * Z);         (* name -> int64_t value *)
  pin_widths : list (string * Z)    (* name -> uint8_t width *)
}.

(** A pin access returns, throws [RuntimeError("Unknown pin: '<pin>' on
    chip <chip>")], or shifts an [int64_t] by a count or to a value that
    the type does not hold ([Overflow]). *)
Inductive access (A : Type) :=
  | Done (a : A)
  | UnknownPin (pin chip : string)
  | Overflow.
Arguments Done {A} a.
Arguments UnknownPin {A} pin chip.
Arguments Overflow {A}.

Fixpoint find (key : string) (l : list (string * Z)) : option Z :=
  match l with
  | [] => None
  | (k, v) :: rest => if String.eqb k key then Some v else find key rest
  end.

(** [it->second = value] at the entry that [find] meets. *)
Fixpoint overwrite (key : string) (value : Z) (l : list (string * Z))
  : list (string * Z) :=
  match l with
  | [] => []
  | (k, v) :: rest =>
      if String.eqb k key then (k, value) :: rest
      else (k, v) :: overwrite key value rest
  end.




Definition get_pin (c : PinStore) (name : string) : access Z :=
  match find name (pins c) with
  | None => UnknownPin name (def_name (owner c))
  | Some v => Done v
  end.

Definition set_pin (c : PinStore) (name : string) (value : Z)
  : access PinStore :=
  match find name (pins c) with
  | None => UnknownPin name (def_name (owner c))
  | Some _ => Done (mkStore (owner c) (overwrite name value (pins c))
                            (pin_widths c))
  end.

Definition INT64_MAX : Z := 9223372036854775807.

(** [(int64_t(1) << width) - 1] *)
Definition bit_mask (width : Z) : access Z :=
  if (width <? 0) || (width >? 62) then Overflow
  else Done (Z.shiftl 1 width - 1).

Definition get_pin_bits (c : PinStore) (name : string) (lo hi : Z)
  : access Z :=
  match get_pin c name with
  | Done val =>
      if lo <? 0 then Done val
      else
        match bit_mask (hi - lo + 1) with
        | Done mask =>
            if lo >? 63 then Overflow
            else Done (Z.land (Z.shiftr val lo) mask)
        | UnknownPin p ch => UnknownPin p ch
        | Overflow => Overflow
        end
  | UnknownPin p ch => UnknownPin p ch
  | Overflow => Overflow
  end.

Definition set_pin_bits (c : PinStore) (name : string) (lo hi value : Z)
  : access PinStore :=
  if lo <? 0 then set_pin c name value
  else
    match get_pin c name with
    | Done current =>
        let width := hi - lo + 1 in
        match bit_mask width with
        | Done mask =>
            let value := Z.land value mask in
            if (lo >? 63) || (Z.shiftl mask lo >? INT64_MAX) then Overflow
            else
              let current := Z.land current (Z.lnot (Z.shiftl mask lo)) in
              let current := Z.lor current (Z.shiftl value lo) in
              set_pin c name current
        | UnknownPin p ch => UnknownPin p ch
        | Overflow => Overflow
        end
    | UnknownPin p ch => UnknownPin p ch
    | Overflow => Overflow
    end.

Definition get_pin_width (c : PinStore) (name : string) : Z :=
  match find name (pin_widths c) with
  | None => 0
  | Some w => w
  end.

End Pins.

(* ===================================================================== *)
(** ** Further notions used in the statements                             *)
(* ===================================================================== *)

Module Notions.

(** The [n] low bits of [w] as text, most significant first. *)
Fixpoint bits_msb (n : nat) (w : Z) : string :=
  match n with
  | O => EmptyString
  | S n =>
      String (if Z.testbit w (Z.of_nat n) then "1"%char else "0"%char)
             (bits_msb n w)
  end.

(** The line of a .hack file that holds the word [w]. *)
Definition binary16 (w : Z) : string := bits_msb 16 w.

(** The counters of the CPU engine agree: every instruction counted is an
    A- or a C-instruction, and only C-instructions jump. *)
Definition counters_agree (t : CPU.CPUStats) : Prop :=
  CPU.instructions_executed t
  = CPU.a_instruction_count t + CPU.c_instruction_count t
  /\ 0 <= CPU.a_instruction_count t
  /\ 0 <= CPU.jump_count t <= CPU.c_instruction_count t.

(** What the [try] block of [execute_instruction] does to the counters,
    the state and the fields it never writes. *)
Definition counted (s : CPU.CPUEngine) (t : CPU.tried) : Prop :=
  let executed x := CPU.instructions_executed (CPU.stats x) in
  let a_count x := CPU.a_instruction_count (CPU.stats x) in
  let c_count x := CPU.c_instruction_count (CPU.stats x) in
  let jumps x := CPU.jump_count (CPU.stats x) in
  match t with
  | CPU.Completed continue s' =>
      executed s' = to_u64 (executed s + 1)
      /\ ((a_count s' = to_u64 (a_count s + 1)
           /\ c_count s' = c_count s
           /\ jumps s' = jumps s)
          \/ (a_count s' = a_count s
              /\ c_count s' = to_u64 (c_count s + 1)
              /\ (jumps s' = jumps s \/ jumps s' = to_u64 (jumps s + 1))))
      /\ CPU.state s' = (if continue then CPU.state s else CPU.HALTED)
      /\ CPU.breakpoints s' = CPU.breakpoints s
      /\ CPU.pause_requested s' = CPU.pause_requested s
      /\ CPUMem.rom (CPU.memory s') = CPUMem.rom (CPU.memory s)
      /\ CPUMem.program_size (CPU.memory s')
         = CPUMem.program_size (CPU.memory s)
  | CPU.Caught e s' =>
      executed s' = executed s
      /\ a_count s' = a_count s
      /\ c_count s' = c_count s
      /\ jumps s' = jumps s
      /\ CPU.state s' = CPU.state s
      /\ CPU.breakpoints s' = CPU.breakpoints s
      /\ CPU.pause_requested s' = CPU.pause_requested s
      /\ CPUMem.rom (CPU.memory s') = CPUMem.rom (CPU.memory s)
      /\ CPUMem.program_size (CPU.memory s')
         = CPUMem.program_size (CPU.memory s)
  end.

(** The number of words an arithmetic command takes from the stack. *)
Definition operands (op : VM.ArithmeticOp) : Z :=
  match op with
  | VM.NEG | VM.NOT => 1
  | _ => 2
  end.

(** The word an arithmetic command leaves for the operands [x] (below) and
    [y] (on top), as arithmetic on 16-bit words; a unary command uses [y]
    only. *)
Definition arithmetic_result (op : VM.ArithmeticOp) (x y : Z) : Z :=
  match op with
  | VM.ADD => (x + y) mod 65536
  | VM.SUB => (x - y) mod 65536
  | VM.NEG => (- y) mod 65536
  | VM.EQ => VM.truth (x =? y)
  | VM.GT => VM.truth (to_int16 y <? to_int16 x)
  | VM.LT => VM.truth (to_int16 x <? to_int16 y)
  | VM.AND => Z.land x y
  | VM.OR => Z.lor x y
  | VM.NOT => 65535 - y
  end.

(** The engine after its memory popped one word with SP at [sp]. *)
Definition popped (s : VM.VMEngine) (sp : Z) : VM.VMEngine :=
  VM.set_memory s
    (VMMem.set_ram (VM.memory s)
       (upd (VMMem.ram (VM.memory s)) VMMem.SP (sp - 1))).

(** [execute_command] gets as far as the command at the PC: the PC is
    inside the program, no pause is requested and no breakpoint trips. *)
Definition vm_fetches (s : VM.VMEngine) : bool :=
  negb (VM.pc s >=? Z.of_nat (List.length (VM.commands (VM.program s))))
  && negb (VM.pause_requested s)
  && negb ((VM.instructions_executed (VM.stats s) >? 0)
           && existsb (Z.eqb (VM.pc s)) (VM.breakpoints s)).

End Notions.

(* ===================================================================== *)
(** * Properties                                                          *)
(* ===================================================================== *)

(** ** The engines on the programs of the test suite *)

Section Scenarios.
Import Vocabulary.

(** [@5; D=A] from text: A = 5, D = 5, halted, one A- and one
    C-instruction. *)
Example cpu_load_constant :
  exists s,
    CPU.run 10 (fst (CPU.load_string CPU.initial
                       ("0000000000000101" ++ String CPUMem.newline
                          "1110110000010000")))
    = Some (CPU.HALTED, s)
    /\ CPU.a_register s = 5 /\ CPU.d_register s = 5
    /\ CPU.stats s = CPU.mkStats 2 1 1 0 0 0.
Proof. eexists. split; [vm_compute; reflexivity|]. repeat split. Qed.

(** [@10; D=A; @100; M=D]: RAM[100] = 10 and one memory write. *)
Example cpu_write_to_ram :
  exists s,
    CPU.run 10 (fst (CPU.load CPU.initial [10; 60432; 100; 58120]))
    = Some (CPU.HALTED, s)
    /\ CPUMem.ram (CPU.memory s) 100 = 10
    /\ CPU.memory_writes (CPU.stats s) = 1.
Proof. eexists. split; [vm_compute; reflexivity|]. repeat split. Qed.

(** [@1; D=A; D=-D; @10; D;JLT]: the jump is taken, PC = 10. *)
Example cpu_signed_jump :
  exists s,
    CPU.run 10 (fst (CPU.load CPU.initial [1; 60432; 58320; 10; 58116]))
    = Some (CPU.HALTED, s)
    /\ CPU.pc s = 10 /\ CPU.d_register s = 65535
    /\ CPU.jump_count (CPU.stats s) = 1.
Proof. eexists. split; [vm_compute; reflexivity|]. repeat split. Qed.

(** Math.add through the bootstrap frame: halted, 15 on top of the
    stack. *)
Example vm_math_add :
  exists s,
    VM.run plain_basename 20 (VM.loaded vm_add_program)
    = VM.Returned VM.HALTED s
    /\ VMMem.ram (VM.memory s) (VMMem.ram (VM.memory s) VMMem.SP - 1) = 15
    /\ VMMem.call_stack (VM.memory s) = [].
Proof. eexists. split; [vm_compute; reflexivity|]. repeat split. Qed.

End Scenarios.

(** ** Bit fields and words *)

Lemma upd_same f i v : upd f i v i = v.
Proof. unfold upd. now rewrite Z.eqb_refl. Qed.

Lemma upd_other f i v j : j <> i -> upd f i v j = f j.
Proof. unfold upd. intros H. apply Z.eqb_neq in H. now rewrite H. Qed.

Lemma geb_false a b : a < b -> (a >=? b) = false.
Proof. intros H. rewrite Z.geb_leb. apply Z.leb_gt. lia. Qed.

Lemma geb_true a b : b <= a -> (a >=? b) = true.
Proof. intros H. rewrite Z.geb_leb. apply Z.leb_le. lia. Qed.

Lemma gtb_false a b : a <= b -> (a >? b) = false.
Proof. intros H. rewrite Z.gtb_ltb. apply Z.ltb_ge. lia. Qed.

Lemma gtb_true a b : b < a -> (a >? b) = true.
Proof. intros H. rewrite Z.gtb_ltb. apply Z.ltb_lt. lia. Qed.

Lemma testbit_ones m i : 0 <= m -> 0 <= i ->
  Z.testbit (Z.ones m) i = (i <? m).
Proof.
  intros Hm Hi. destruct (Z.ltb_spec i m).
  - apply Z.ones_spec_low; lia.
  - apply Z.ones_spec_high; lia.
Qed.

(** A field of [m] bits at offset [k] that lies inside the low [n] bits
    only depends on those. *)
Lemma field_of_low_bits n w k m :
  0 <= k -> 0 <= m -> k + m <= n ->
  Z.land (Z.shiftr w k) (Z.ones m)
  = Z.land (Z.shiftr (Z.land w (Z.ones n)) k) (Z.ones m).
Proof.
  intros Hk Hm Hn. apply Z.bits_inj'. intros i Hi.
  rewrite !Z.land_spec, !Z.shiftr_spec, Z.land_spec by lia.
  rewrite !testbit_ones by lia.
  destruct (Z.ltb_spec i m) as [Hlt|Hge].
  - replace (i + k <? n) with true by (symmetry; apply Z.ltb_lt; lia).
    now rewrite !andb_true_r.
  - now rewrite !andb_false_r.
Qed.

Section Decoder.
Import Instruction.

Lemma fields_agree w w' :
  Z.land w' 8191 = Z.land w 8191 ->
  Z.land (Z.shiftr w' 6) 127 = Z.land (Z.shiftr w 6) 127
  /\ Z.land (Z.shiftr w' 3) 7 = Z.land (Z.shiftr w 3) 7
  /\ Z.land w' 7 = Z.land w 7.
Proof.
  intros H.
  change 8191 with (Z.ones 13) in H.
  change 7 with (Z.ones 3). change 127 with (Z.ones 7).
  repeat split.
  - rewrite (field_of_low_bits 13 w' 6 7), (field_of_low_bits 13 w 6 7), H
      by lia. reflexivity.
  - rewrite (field_of_low_bits 13 w' 3 3), (field_of_low_bits 13 w 3 3), H
      by lia. reflexivity.
  - rewrite <- (Z.shiftr_0_r w'), <- (Z.shiftr_0_r w).
    rewrite (field_of_low_bits 13 w' 0 3), (field_of_low_bits 13 w 0 3), H
      by lia. reflexivity.
Qed.

(** C9. [decode_instruction] has no failing branch (it is a total function
    of the word).  Every word whose bit 15 is set decodes to a
    C-instruction, whatever its bits 14 and 13: two such words that agree
    on bits 0..12 decode to the same instruction, so comp, dest, jump and
    reads_memory do not depend on bits 14 and 13. *)
Theorem decode_instruction_ignores_bits_14_13 (w : Z) :
  Z.land w 32768 <> 0 ->
  type (decode_instruction w) = C_INSTRUCTION
  /\ forall w', Z.land w' 32768 <> 0 -> Z.land w' 8191 = Z.land w 8191 ->
       decode_instruction w' = decode_instruction w.
Proof.
  intros Hw. unfold decode_instruction, nonzero.
  apply Z.eqb_neq in Hw. rewrite Hw. cbn [negb]. split; [reflexivity|].
  intros w' Hw' Hlow. apply Z.eqb_neq in Hw'. rewrite Hw'. cbn [negb].
  destruct (fields_agree w w' Hlow) as (-> & -> & ->). reflexivity.
Qed.

Lemma decode_instruction_ignores_bits_14_13_witness :
  type (decode_instruction 35856) = C_INSTRUCTION
  /\ decode_instruction 60432 = decode_instruction 35856.
Proof.
  destruct (decode_instruction_ignores_bits_14_13 35856) as [Ht Heq].
  - vm_compute. discriminate.
  - split; [exact Ht|]. apply Heq.
    + vm_compute. discriminate.
    + reflexivity.
Defined.

End Decoder.

(** ** CPU memory: loading a program *)

Section Loading.
Import CPUMem Vocabulary.

Lemma load_lines_ok lines : forall line_number m m',
  load_lines lines line_number m = (m', None) ->
  program_size m'
  = program_size m
    + Z.of_nat (List.length
        (filter (fun l => negb (is_empty (trim_trailing l))) lines))
  /\ screen_dirty m' = screen_dirty m
  /\ ram m' = ram m.
Proof.
  induction lines as [|raw more IH]; intros ln m m' H; cbn [load_lines] in H.
  - inversion H; subst. cbn. repeat split; lia.
  - cbn [filter]. destruct (is_empty (trim_trailing raw)) eqn:E; cbn [negb].
    + apply IH in H. exact H.
    + destruct (program_size m >=? ROM_SIZE); [discriminate|].
      destruct (parse_binary_line (trim_trailing raw) (ln + 1)) as [w|e];
        [|discriminate].
      apply IH in H. cbn in H. destruct H as (Hs & Hd & Hr).
      cbn [List.length]. repeat split; [lia|exact Hd|exact Hr].
Qed.

(** C5, as the code has it.  A ROM load that succeeds sets [program_size]
    to the number of loaded instructions (the words given to [load_rom];
    the lines of the text that are not blank for [load_rom_string]) and
    leaves the screen dirty flag as it was.  [load_rom] succeeds whenever
    the program fits the ROM. *)
Theorem load_sets_program_size_and_keeps_dirty_flag (m : CPUMemory) :
  (forall instructions,
      Z.of_nat (List.length instructions) <= ROM_SIZE ->
      exists m', load_rom m instructions = (m', None)
        /\ program_size m' = Z.of_nat (List.length instructions)
        /\ screen_dirty m' = screen_dirty m)
  /\ (forall hack_text m',
      load_rom_string m hack_text = (m', None) ->
      program_size m' = Z.of_nat (List.length (instruction_lines hack_text))
      /\ screen_dirty m' = screen_dirty m).
Proof.
  split.
  - intros instructions Hfit. unfold load_rom.
    rewrite gtb_false by lia.
    eexists. split; [reflexivity|]. cbn. split; reflexivity.
  - intros hack_text m' H. unfold load_rom_string in H.
    apply load_lines_ok in H. cbn in H. destruct H as (Hs & Hd & _).
    unfold instruction_lines. split; [lia|exact Hd].
Qed.

Lemma load_sets_program_size_and_keeps_dirty_flag_witness :
  let m := mkMem zeros zeros 0 true in
  (exists m', load_rom m [5; 60432] = (m', None)
     /\ program_size m' = 2 /\ screen_dirty m' = true)
  /\ program_size
       (fst (load_rom_string m
               "0000000000000101
1110110000010000
")) = 2.
Proof.
  intro m.
  destruct (load_sets_program_size_and_keeps_dirty_flag m) as [Hw Ht].
  split.
  - apply (Hw [5; 60432]). vm_compute. discriminate.
  - match goal with
    | |- program_size (fst (load_rom_string m ?t)) = _ =>
        destruct (Ht t (fst (load_rom_string m t))) as [Hs _];
          [vm_compute; reflexivity | rewrite Hs; reflexivity]
    end.
Defined.

(** C5 as stated fails: a load that succeeds on a memory whose screen is
    dirty leaves the flag set, for both loaders. *)
Lemma load_does_not_reset_dirty_flag :
  let m := mkMem zeros zeros 0 true in
  snd (load_rom m [5; 60432]) = None
  /\ screen_dirty (fst (load_rom m [5; 60432])) = true
  /\ snd (load_rom_string m "0000000000000101") = None
  /\ screen_dirty (fst (load_rom_string m "0000000000000101")) = true.
Proof. vm_compute. repeat split. Qed.

End Loading.

(** ** CPU memory: the lines of a .hack text *)

Section HackText.
Import CPUMem Vocabulary.

Lemma trim_trailing_blank ws :
  all_chars is_trailing_blank ws = true -> trim_trailing ws = EmptyString.
Proof.
  induction ws as [|c ws IH]; cbn; [reflexivity|].
  intros H. apply andb_prop in H as [Hc Hws].
  rewrite (IH Hws), Hc. reflexivity.
Qed.

Lemma trim_trailing_app raw ws :
  all_chars is_trailing_blank ws = true ->
  trim_trailing (raw ++ ws) = trim_trailing raw.
Proof.
  intros H. induction raw as [|c raw IH]; cbn.
  - now apply trim_trailing_blank.
  - now rewrite IH.
Qed.

Lemma parse_bits_binary cs : forall i result line_number,
  all_chars is_binary_digit cs = true ->
  exists w, parse_bits cs i result line_number = Return w.
Proof.
  induction cs as [|c cs IH]; intros i r ln H; cbn.
  - now exists r.
  - cbn in H. apply andb_prop in H as [Hc Hcs].
    destruct (Ascii.eqb c "1") eqn:E1; [now apply IH|].
    unfold is_binary_digit in Hc. rewrite E1, orb_false_r in Hc.
    rewrite Hc. cbn. now apply IH.
Qed.

Lemma parse_bits_offending pre : forall c post i result line_number,
  all_chars is_binary_digit pre = true ->
  is_binary_digit c = false ->
  parse_bits (pre ++ String c post) i result line_number
  = Raise (ParseError "<rom>" line_number
             (MsgInvalidChar c (i + Z.of_nat (String.length pre) + 1))).
Proof.
  induction pre as [|p pre IH]; intros c post i r ln Hpre Hc.
  - cbn. apply orb_false_elim in Hc as [H0 H1]. rewrite H1, H0. cbn.
    do 3 f_equal. lia.
  - cbn [append parse_bits]. cbn in Hpre.
    apply andb_prop in Hpre as [Hp Hpre].
    replace (i + Z.of_nat (String.length (String p pre)) + 1)
      with ((i + 1) + Z.of_nat (String.length pre) + 1)
      by (cbn [String.length]; lia).
    destruct (Ascii.eqb p "1") eqn:E1; [now apply IH|].
    unfold is_binary_digit in Hp. rewrite E1, orb_false_r in Hp.
    rewrite Hp. cbn. now apply IH.
Qed.

Lemma load_lines_acceptable before : forall line_number m,
  forallb acceptable_line before = true ->
  program_size m + Z.of_nat (List.length before) <= ROM_SIZE ->
  exists m1,
    (forall rest, load_lines (before ++ rest) line_number m
                  = load_lines rest
                      (line_number + Z.of_nat (List.length before)) m1)
    /\ program_size m <= program_size m1
       <= program_size m + Z.of_nat (List.length before)
    /\ screen_dirty m1 = screen_dirty m.
Proof.
  induction before as [|raw before IH]; intros ln m Hacc Hfit.
  - exists m. cbn. split; [|split; [lia|reflexivity]].
    intros rest. f_equal. lia.
  - cbn in Hacc. apply andb_prop in Hacc as [Hraw Hacc].
    cbn [List.length] in Hfit |- *.
    unfold acceptable_line in Hraw.
    destruct (is_empty (trim_trailing raw)) eqn:E.
    + destruct (IH (ln + 1) m Hacc) as (m1 & Hrun & Hsz & Hd); [lia|].
      exists m1. split; [|split; [lia|exact Hd]].
      intros rest. cbn [app load_lines]. rewrite E, Hrun. f_equal. lia.
    + cbn in Hraw. apply andb_prop in Hraw as [Hlen Hbin].
      destruct (parse_bits_binary _ 0 0 (ln + 1) Hbin) as [w Hw].
      pose (m' := set_program_size
                    (set_rom m (upd (rom m) (program_size m) w))
                    (program_size m + 1)).
      destruct (IH (ln + 1) m' Hacc) as (m1 & Hrun & Hsz & Hd);
        [cbn; lia|].
      exists m1. cbn in Hsz, Hd. split; [|split; [lia|exact Hd]].
      intros rest. cbn [app load_lines]. rewrite E.
      rewrite geb_false by lia.
      unfold parse_binary_line. rewrite Hlen. cbn [negb]. rewrite Hw.
      fold m'. rewrite Hrun. f_equal. lia.
Qed.

End HackText.

Section HackTextErrors.
Import CPUMem Vocabulary.

(** C6, as the code has it.  (1) Trailing carriage returns, spaces and
    tabs of a line are ignored.  (2) A line that is blank after that trim
    is skipped: nothing is stored and only the line counter moves.
    (3) When the lines before it are acceptable and the ROM is not full, a
    non-blank line that is not sixteen characters long fails with a parse
    error that gives its line number, its length and its text; a line of
    sixteen characters fails at its first character other than '0' and '1'
    with a parse error that gives the line number, that character and its
    position.  Leading whitespace is not removed: it counts as
    characters of the line. *)
Theorem load_rom_string_line_handling :
  (forall raw ws,
      all_chars is_trailing_blank ws = true ->
      trim_trailing (raw ++ ws) = trim_trailing raw)
  /\ (forall raw more line_number m,
      is_empty (trim_trailing raw) = true ->
      load_lines (raw :: more) line_number m
      = load_lines more (line_number + 1) m)
  /\ (forall m hack_text before raw after,
      getlines hack_text = before ++ raw :: after ->
      forallb acceptable_line before = true ->
      Z.of_nat (List.length before) < ROM_SIZE ->
      is_empty (trim_trailing raw) = false ->
      let line := trim_trailing raw in
      let line_number := Z.of_nat (List.length before) + 1 in
      exists m1,
        (Z.of_nat (String.length line) <> 16 ->
         load_rom_string m hack_text
         = (m1, Some (ParseError "<rom>" line_number
                        (MsgExpected16 (Z.of_nat (String.length line))
                                       line))))
        /\ (forall pre c post,
              line = (pre ++ String c post)%string ->
              Z.of_nat (String.length line) = 16 ->
              all_chars is_binary_digit pre = true ->
              is_binary_digit c = false ->
              load_rom_string m hack_text
              = (m1, Some (ParseError "<rom>" line_number
                             (MsgInvalidChar c
                                (Z.of_nat (String.length pre) + 1)))))).
Proof.
  split; [exact trim_trailing_app|]. split.
  - intros raw more ln m E. cbn [load_lines]. now rewrite E.
  - intros m text before raw after Hlines Hacc Hfit E line line_number.
    unfold load_rom_string. rewrite Hlines.
    destruct (load_lines_acceptable before 0
                (set_program_size (set_rom m zeros) 0) Hacc)
      as (m1 & Hrun & Hsz & _); [cbn; lia|].
    cbn in Hsz. exists m1. rewrite Hrun. cbn [load_lines].
    subst line. rewrite E.
    rewrite geb_false by lia.
    replace (0 + Z.of_nat (List.length before) + 1) with line_number
      by (unfold line_number; lia).
    unfold parse_binary_line. split.
    + intros Hlen. apply Z.eqb_neq in Hlen. rewrite Hlen. reflexivity.
    + intros pre c post Hsplit Hlen Hpre Hc.
      apply Z.eqb_eq in Hlen. rewrite Hlen. cbn [negb].
      rewrite Hsplit, parse_bits_offending by assumption. reflexivity.
Qed.

Lemma load_rom_string_line_handling_witness :
  let m := mkMem zeros zeros 0 false in
  let tail := String carriage_return (String tab " ") in
  trim_trailing ("0000000000000101" ++ tail)%string = "0000000000000101"%string
  /\ snd (load_rom_string m
            ("0000000000000101" ++ String newline "00000000x0000101")%string)
     = Some (ParseError "<rom>" 2 (MsgInvalidChar "x" 9))
  /\ snd (load_rom_string m
            ("0000000000000101" ++ String newline "0101")%string)
     = Some (ParseError "<rom>" 2 (MsgExpected16 4 "0101")).
Proof.
  intros m tail.
  destruct load_rom_string_line_handling as (Htrim & _ & Herr).
  split; [|split].
  - rewrite (Htrim "0000000000000101"%string tail) by reflexivity.
    reflexivity.
  - destruct (Herr m
                ("0000000000000101" ++ String newline "00000000x0000101")%string
                ["0000000000000101"%string] "00000000x0000101"%string [])
      as (m1 & _ & Hchar);
      [reflexivity | reflexivity | reflexivity | reflexivity |].
    rewrite (Hchar "00000000"%string "x"%char "0000101"%string)
      by reflexivity.
    reflexivity.
  - destruct (Herr m ("0000000000000101" ++ String newline "0101")%string
                ["0000000000000101"%string] "0101"%string [])
      as (m1 & Hlen & _);
      [reflexivity | reflexivity | reflexivity | reflexivity |].
    rewrite Hlen by (vm_compute; discriminate). reflexivity.
Defined.

(** C6 as stated fails.  A leading space is not ignored: the same
    instruction that loads alone is refused, for its length, when a space
    precedes it.  And a line with a foreign character that is not sixteen
    characters long is refused for its length, without the character. *)
Lemma leading_whitespace_is_not_ignored :
  let m := mkMem zeros zeros 0 false in
  snd (load_rom_string m "0000000000000101") = None
  /\ snd (load_rom_string m " 0000000000000101")
     = Some (ParseError "<rom>" 1
               (MsgExpected16 17 " 0000000000000101"))
  /\ snd (load_rom_string m "01x")
     = Some (ParseError "<rom>" 1 (MsgExpected16 3 "01x")).
Proof. vm_compute. repeat split. Qed.

End HackTextErrors.

(** ** Screen pixels *)

Section Pixels.
Import Instruction Vocabulary.

Lemma nonzero_b2z b : nonzero (Z.b2z b) = b.
Proof. now destruct b. Qed.

Lemma pixel_bit w b :
  0 <= b -> nonzero (Z.land (Z.shiftr w b) 1) = Z.testbit w b.
Proof.
  intros Hb. change 1 with (Z.ones 1). rewrite Z.land_ones by lia.
  change (2 ^ 1) with 2. rewrite <- Z.bit0_mod, nonzero_b2z.
  rewrite Z.shiftr_spec by lia. reflexivity.
Qed.

Lemma testbit_to_word z i :
  0 <= i < 16 -> Z.testbit (to_word z) i = Z.testbit z i.
Proof.
  intros Hi. unfold to_word. change 65536 with (2 ^ 16).
  apply Z.mod_pow2_bits_low. lia.
Qed.

Lemma testbit_one_shifted b i :
  0 <= b -> 0 <= i -> Z.testbit (Z.shiftl 1 b) i = (i =? b).
Proof.
  intros Hb Hi. rewrite Z.shiftl_1_l, Z.pow2_bits_eqb by lia.
  apply Z.eqb_sym.
Qed.

Lemma set_bit_spec w b i :
  0 <= b < 16 -> 0 <= i < 16 ->
  Z.testbit (to_word (Z.lor w (to_word (Z.shiftl 1 b)))) i
  = Z.testbit w i || (i =? b).
Proof.
  intros Hb Hi.
  now rewrite testbit_to_word, Z.lor_spec, testbit_to_word,
    testbit_one_shifted by lia.
Qed.

Lemma set_bit_spec_unmasked w b i :
  0 <= b < 16 -> 0 <= i < 16 ->
  Z.testbit (to_word (Z.lor w (Z.shiftl 1 b))) i
  = Z.testbit w i || (i =? b).
Proof.
  intros Hb Hi.
  now rewrite testbit_to_word, Z.lor_spec, testbit_one_shifted by lia.
Qed.

Lemma clear_bit_spec w b i :
  0 <= b < 16 -> 0 <= i < 16 ->
  Z.testbit (to_word (Z.land w (to_word (Z.lnot (Z.shiftl 1 b))))) i
  = Z.testbit w i && negb (i =? b).
Proof.
  intros Hb Hi.
  now rewrite testbit_to_word, Z.land_spec, testbit_to_word, Z.lnot_spec,
    testbit_one_shifted by lia.
Qed.

Lemma on_screen_iff x y :
  on_screen x y <->
  ((x <? 0) || (x >=? 512) || (y <? 0) || (y >=? 256)) = false.
Proof.
  unfold on_screen.
  rewrite !orb_false_iff, !Z.ltb_ge, !Z.geb_leb, !Z.leb_gt. lia.
Qed.

Lemma pixel_place x y :
  0 <= x < 512 -> 0 <= y < 256 ->
  0 <= bit_of x < 16 /\ to_word (word_of x y) = word_of x y.
Proof.
  intros Hx Hy. unfold bit_of, word_of, to_word.
  rewrite Z.rem_mod_nonneg, Z.quot_div_nonneg by lia.
  split.
  - apply Z.mod_pos_bound. lia.
  - apply Z.mod_small.
    assert (0 <= x / 16 < 32)
      by (split; [apply Z.div_pos; lia | apply Z.div_lt_upper_bound; lia]).
    lia.
Qed.

Lemma pixel_place_injective x y x' y' :
  0 <= x < 512 -> 0 <= y < 256 -> 0 <= x' < 512 -> 0 <= y' < 256 ->
  word_of x' y' = word_of x y -> bit_of x' = bit_of x -> (x', y') = (x, y).
Proof.
  intros Hx Hy Hx' Hy'. unfold word_of, bit_of.
  rewrite !Z.rem_mod_nonneg, !Z.quot_div_nonneg by lia.
  intros Hw Hb.
  assert (0 <= x / 16 < 32)
    by (split; [apply Z.div_pos; lia | apply Z.div_lt_upper_bound; lia]).
  assert (0 <= x' / 16 < 32)
    by (split; [apply Z.div_pos; lia | apply Z.div_lt_upper_bound; lia]).
  assert (y' = y) by lia. subst y'.
  assert (x' / 16 = x / 16) by lia.
  rewrite (Z.div_mod x 16), (Z.div_mod x' 16) by lia.
  congruence.
Qed.

Lemma off_screen x y :
  ~ on_screen x y ->
  ((x <? 0) || (x >=? 512) || (y <? 0) || (y >=? 256)) = true.
Proof.
  intros H. apply not_false_is_true. intros E. apply H, on_screen_iff, E.
Qed.

Lemma cpu_get_pixel_bit m x y :
  on_screen x y ->
  CPUMem.get_pixel m x y = Z.testbit (CPUMem.ram m (word_of x y)) (bit_of x).
Proof.
  intros H. pose proof H as [Hx Hy]. apply on_screen_iff in H.
  unfold CPUMem.get_pixel, CPUMem.out_of_screen. rewrite H.
  apply pixel_bit. apply (pixel_place x y Hx Hy).
Qed.

Lemma vm_get_pixel_bit m x y :
  on_screen x y ->
  VMMem.get_pixel m x y = Z.testbit (VMMem.ram m (word_of x y)) (bit_of x).
Proof.
  intros H. pose proof H as [Hx Hy]. apply on_screen_iff in H.
  unfold VMMem.get_pixel, VMMem.out_of_screen. rewrite H.
  apply pixel_bit. apply (pixel_place x y Hx Hy).
Qed.

Lemma cpu_set_pixel_ram m x y on :
  on_screen x y ->
  CPUMem.ram (CPUMem.set_pixel m x y on)
  = upd (CPUMem.ram m) (word_of x y)
      (if on
       then to_word (Z.lor (CPUMem.ram m (word_of x y))
                           (to_word (Z.shiftl 1 (bit_of x))))
       else to_word (Z.land (CPUMem.ram m (word_of x y))
                            (to_word (Z.lnot (Z.shiftl 1 (bit_of x)))))).
Proof.
  intros H. pose proof H as [Hx Hy]. apply on_screen_iff in H.
  unfold CPUMem.set_pixel, CPUMem.out_of_screen. rewrite H.
  destruct (pixel_place x y Hx Hy) as [_ Hw].
  change (CPUMem.SCREEN_BASE + (y * 32 + Z.quot x 16)) with (word_of x y).
  change (Z.rem x 16) with (bit_of x).
  rewrite Hw. now destruct on.
Qed.

Lemma vm_set_pixel_ram m x y on :
  on_screen x y ->
  VMMem.ram (VMMem.set_pixel m x y on)
  = upd (VMMem.ram m) (word_of x y)
      (if on
       then to_word (Z.lor (VMMem.ram m (word_of x y))
                           (Z.shiftl 1 (bit_of x)))
       else to_word (Z.land (VMMem.ram m (word_of x y))
                            (to_word (Z.lnot (Z.shiftl 1 (bit_of x)))))).
Proof.
  intros H. pose proof H as [Hx Hy]. apply on_screen_iff in H.
  unfold VMMem.set_pixel, VMMem.out_of_screen. rewrite H.
  destruct (pixel_place x y Hx Hy) as [_ Hw].
  change (VMMem.SCREEN_BASE + (y * 32 + Z.quot x 16)) with (word_of x y).
  change (Z.rem x 16) with (bit_of x).
  rewrite Hw. now destruct on.
Qed.

(** What a pixel reads after one bit of one word was set or cleared. *)
Lemma pixel_after_write (r : Z -> Z) (masked : bool) x y (on : bool) x' y' :
  on_screen x y -> on_screen x' y' ->
  let w := r (word_of x y) in
  let one := if masked then to_word (Z.shiftl 1 (bit_of x))
             else Z.shiftl 1 (bit_of x) in
  let v := if on then to_word (Z.lor w one)
           else to_word (Z.land w (to_word (Z.lnot (Z.shiftl 1 (bit_of x)))))
  in
  Z.testbit (upd r (word_of x y) v (word_of x' y')) (bit_of x')
  = if (word_of x' y' =? word_of x y) && (bit_of x' =? bit_of x)
    then on else Z.testbit (r (word_of x' y')) (bit_of x').
Proof.
  intros [Hx Hy] [Hx' Hy'] w one v.
  destruct (pixel_place x y Hx Hy) as [Hb _].
  destruct (pixel_place x' y' Hx' Hy') as [Hb' _].
  destruct (Z.eqb_spec (word_of x' y') (word_of x y)) as [E|E].
  - rewrite E, upd_same. subst v one w. cbn [andb].
    destruct on, masked;
      rewrite ?set_bit_spec, ?set_bit_spec_unmasked, ?clear_bit_spec by lia;
      destruct (bit_of x' =? bit_of x); cbn;
      rewrite ?orb_true_r, ?orb_false_r, ?andb_true_r, ?andb_false_r;
      reflexivity.
  - rewrite upd_other by exact E. reflexivity.
Qed.

(** C10. For a pixel on the screen, [get_pixel] after [set_pixel] gives
    the value set and every other pixel reads as before; for coordinates
    off the screen, [set_pixel] changes nothing and [get_pixel] is false.
    Both for the CPU memory and for the VM memory. *)
Theorem set_pixel_then_get_pixel (x y : Z) (on : bool) :
  (on_screen x y ->
     (forall m,
        CPUMem.get_pixel (CPUMem.set_pixel m x y on) x y = on
        /\ forall x' y', (x', y') <> (x, y) ->
             CPUMem.get_pixel (CPUMem.set_pixel m x y on) x' y'
             = CPUMem.get_pixel m x' y')
     /\ (forall m,
        VMMem.get_pixel (VMMem.set_pixel m x y on) x y = on
        /\ forall x' y', (x', y') <> (x, y) ->
             VMMem.get_pixel (VMMem.set_pixel m x y on) x' y'
             = VMMem.get_pixel m x' y'))
  /\ (~ on_screen x y ->
     (forall m, CPUMem.set_pixel m x y on = m
                /\ CPUMem.get_pixel m x y = false)
     /\ (forall m, VMMem.set_pixel m x y on = m
                   /\ VMMem.get_pixel m x y = false)).
Proof.
  split.
  - intros Hon. split; intros m; split.
    + rewrite cpu_get_pixel_bit, cpu_set_pixel_ram by exact Hon.
      rewrite (pixel_after_write _ true) by exact Hon.
      now rewrite !Z.eqb_refl.
    + intros x' y' Hne.
      destruct (on_screen_iff x' y') as [Hin _].
      destruct (CPUMem.out_of_screen x' y') eqn:E.
      * unfold CPUMem.get_pixel. now rewrite E.
      * assert (Hon' : on_screen x' y') by (apply on_screen_iff; exact E).
        rewrite !cpu_get_pixel_bit, cpu_set_pixel_ram by assumption.
        rewrite (pixel_after_write _ true) by assumption.
        destruct (Z.eqb_spec (word_of x' y') (word_of x y)) as [Ew|];
          [|reflexivity].
        destruct (Z.eqb_spec (bit_of x') (bit_of x)) as [Eb|];
          [|reflexivity].
        destruct Hon, Hon'. exfalso. apply Hne.
        now apply pixel_place_injective.
    + rewrite vm_get_pixel_bit, vm_set_pixel_ram by exact Hon.
      rewrite (pixel_after_write _ false) by exact Hon.
      now rewrite !Z.eqb_refl.
    + intros x' y' Hne.
      destruct (VMMem.out_of_screen x' y') eqn:E.
      * unfold VMMem.get_pixel. now rewrite E.
      * assert (Hon' : on_screen x' y') by (apply on_screen_iff; exact E).
        rewrite !vm_get_pixel_bit, vm_set_pixel_ram by assumption.
        rewrite (pixel_after_write _ false) by assumption.
        destruct (Z.eqb_spec (word_of x' y') (word_of x y)) as [Ew|];
          [|reflexivity].
        destruct (Z.eqb_spec (bit_of x') (bit_of x)) as [Eb|];
          [|reflexivity].
        destruct Hon, Hon'. exfalso. apply Hne.
        now apply pixel_place_injective.
  - intros Hoff. apply off_screen in Hoff.
    split; intros m.
    + unfold CPUMem.set_pixel, CPUMem.get_pixel, CPUMem.out_of_screen.
      now rewrite Hoff.
    + unfold VMMem.set_pixel, VMMem.get_pixel, VMMem.out_of_screen.
      now rewrite Hoff.
Qed.

Lemma set_pixel_then_get_pixel_witness :
  let cpu := CPUMem.mkMem CPUMem.zeros CPUMem.zeros 0 false in
  let vm := VMMem.reset (VMMem.mkVMMem (fun _ => 0) [] [] 16) in
  (CPUMem.get_pixel (CPUMem.set_pixel cpu 37 5 true) 37 5 = true
   /\ CPUMem.get_pixel (CPUMem.set_pixel cpu 37 5 true) 36 5
      = CPUMem.get_pixel cpu 36 5)
  /\ (VMMem.get_pixel (VMMem.set_pixel vm 37 5 true) 37 5 = true
      /\ VMMem.get_pixel (VMMem.set_pixel vm 37 5 true) 36 5
         = VMMem.get_pixel vm 36 5)
  /\ CPUMem.set_pixel cpu 512 5 true = cpu
  /\ VMMem.get_pixel vm 3 256 = false.
Proof.
  intros cpu vm.
  destruct (set_pixel_then_get_pixel 37 5 true) as [Hin _].
  destruct (set_pixel_then_get_pixel 512 5 true) as [_ Hout1].
  destruct (set_pixel_then_get_pixel 3 256 true) as [_ Hout2].
  assert (H37 : on_screen 37 5) by (unfold on_screen; lia).
  assert (H512 : ~ on_screen 512 5) by (unfold on_screen; lia).
  assert (H256 : ~ on_screen 3 256) by (unfold on_screen; lia).
  destruct (Hin H37) as [Hc Hv].
  destruct (Hc cpu) as [Hc1 Hc2]. destruct (Hv vm) as [Hv1 Hv2].
  split; [split | split; [split | split]].
  - exact Hc1.
  - apply Hc2. intros E. inversion E.
  - exact Hv1.
  - apply Hv2. intros E. inversion E.
  - apply (Hout1 H512).
  - apply (Hout2 H256).
Defined.

End Pixels.

(** ** CPU engine: one C-instruction *)

Section CInstruction.
Import Instruction CPUMem CPU Vocabulary.

Lemma should_jump_condition jump alu_output :
  0 <= jump < 8 ->
  should_jump jump alu_output = jump_condition jump (to_int16 alu_output).
Proof.
  intros Hj. unfold should_jump, jump_condition.
  assert (Hcases : jump = 0 \/ jump = 1 \/ jump = 2 \/ jump = 3 \/ jump = 4
                   \/ jump = 5 \/ jump = 6 \/ jump = 7) by lia.
  destruct (Z.ltb_spec (to_int16 alu_output) 0),
           (Z.eqb_spec (to_int16 alu_output) 0),
           (Z.gtb_spec (to_int16 alu_output) 0); try lia;
    repeat (destruct Hcases as [->|Hcases]); subst; reflexivity.
Qed.

Lemma finish_instruction_keeps s :
  exists continue s', finish_instruction s = Completed continue s'
    /\ a_register s' = a_register s /\ d_register s' = d_register s
    /\ pc s' = pc s /\ memory s' = memory s
    /\ (state s' = state s \/ state s' = HALTED).
Proof.
  unfold finish_instruction. cbn.
  destruct (pc s >=? rom_size (memory s)); eexists; eexists;
    (split; [reflexivity|]); cbn; auto 10.
Qed.

Lemma execute_c_jump_keeps s jump_bits alu_output :
  exists continue s',
    execute_c_jump s jump_bits alu_output = Completed continue s'
    /\ a_register s' = a_register s /\ d_register s' = d_register s
    /\ memory s' = memory s
    /\ pc s' = (if should_jump jump_bits alu_output then a_register s
                else to_word (pc s + 1))
    /\ (state s' = state s \/ state s' = HALTED).
Proof.
  unfold execute_c_jump.
  match goal with
  | |- context [finish_instruction ?t] =>
      destruct (finish_instruction_keeps t)
        as (c & s' & -> & Ha & Hd & Hpc & Hm & Hst)
  end.
  exists c, s'. split; [reflexivity|].
  rewrite Ha, Hd, Hm, Hpc.
  destruct (should_jump jump_bits alu_output); cbn in *; auto 10.
Qed.

Lemma decoded_type raw :
  type (decode_instruction raw) = C_INSTRUCTION ->
  negb (nonzero (Z.land raw 32768)) = false.
Proof.
  unfold decode_instruction.
  destruct (negb (nonzero (Z.land raw 32768))); [discriminate|reflexivity].
Qed.

Lemma decoded_fields raw :
  type (decode_instruction raw) = C_INSTRUCTION ->
  let i := decode_instruction raw in
  comp i = to_u8 (Z.land (Z.shiftr raw 6) 127)
  /\ dest_a (dest i)
     = nonzero (Z.land (to_u8 (Z.land (Z.shiftr raw 3) 7)) 4)
  /\ dest_d (dest i)
     = nonzero (Z.land (to_u8 (Z.land (Z.shiftr raw 3) 7)) 2)
  /\ dest_m (dest i)
     = nonzero (Z.land (to_u8 (Z.land (Z.shiftr raw 3) 7)) 1)
  /\ jump i = to_u8 (Z.land raw 7)
  /\ reads_memory i
     = nonzero (Z.land (to_u8 (Z.land (Z.shiftr raw 6) 127)) 64).
Proof.
  intros H. apply decoded_type in H. unfold decode_instruction.
  rewrite H. cbn. repeat split.
Qed.

Lemma jump_bits_range raw : 0 <= to_u8 (Z.land raw 7) < 8.
Proof.
  unfold to_u8. change 7 with (Z.ones 3). rewrite Z.land_ones by lia.
  pose proof (Z.mod_pos_bound raw (2 ^ 3) ltac:(lia)).
  rewrite Z.mod_small; lia.
Qed.

Lemma execute_c_store_completed s dest_bits jump_bits alu continue s' :
  execute_c_store s dest_bits jump_bits alu = Completed continue s' ->
  a_register s'
  = (if nonzero (Z.land dest_bits 4) then alu else a_register s)
  /\ d_register s'
     = (if nonzero (Z.land dest_bits 2) then alu else d_register s)
  /\ ram (memory s')
     = (if nonzero (Z.land dest_bits 1)
        then upd (ram (memory s)) (a_register s) alu else ram (memory s))
  /\ pc s' = (if should_jump jump_bits alu then a_register s'
              else to_word (pc s + 1)).
Proof.
  unfold execute_c_store.
  set (s1 := if nonzero (Z.land dest_bits 4) then set_a s alu else s).
  set (s2 := if nonzero (Z.land dest_bits 2) then set_d s1 alu else s1).
  assert (H2 : a_register s2
               = (if nonzero (Z.land dest_bits 4) then alu else a_register s)
               /\ d_register s2
                  = (if nonzero (Z.land dest_bits 2) then alu
                     else d_register s)
               /\ memory s2 = memory s /\ pc s2 = pc s).
  { subst s2 s1.
    destruct (nonzero (Z.land dest_bits 4)), (nonzero (Z.land dest_bits 2));
      cbn; auto. }
  destruct H2 as (Ha & Hd & Hm & Hpc).
  destruct (nonzero (Z.land dest_bits 1)).
  - unfold write_ram. rewrite Hm.
    destruct (a_register s >=? RAM_SIZE); [discriminate|].
    destruct ((a_register s >=? SCREEN_BASE)
              && (a_register s <? SCREEN_BASE + SCREEN_SIZE));
      match goal with
      | |- context [execute_c_jump ?t _ _] =>
          destruct (execute_c_jump_keeps t jump_bits alu)
            as (c & t' & -> & Ha' & Hd' & Hm' & Hpc' & _)
      end;
      intros H; inversion H; subst t'; clear H;
      rewrite Ha', Hd', Hm', Hpc'; cbn; rewrite Ha, Hd, Hpc; auto.
  - destruct (execute_c_jump_keeps s2 jump_bits alu)
      as (c & t' & -> & Ha' & Hd' & Hm' & Hpc' & _).
    intros H. inversion H; subst t'. clear H.
    rewrite Ha', Hd', Hm', Hpc', Ha, Hd, Hm, Hpc. auto.
Qed.

Lemma execute_c_completed s raw continue s' :
  execute_c s raw = Completed continue s' ->
  let comp_bits := to_u8 (Z.land (Z.shiftr raw 6) 127) in
  let dest_bits := to_u8 (Z.land (Z.shiftr raw 3) 7) in
  let jump_bits := to_u8 (Z.land raw 7) in
  let am := if nonzero (Z.land comp_bits 64)
            then ram (memory s) (a_register s) else a_register s in
  exists alu,
    compute_alu (pc s) comp_bits (d_register s) am = Return alu
    /\ a_register s'
       = (if nonzero (Z.land dest_bits 4) then alu else a_register s)
    /\ d_register s'
       = (if nonzero (Z.land dest_bits 2) then alu else d_register s)
    /\ ram (memory s')
       = (if nonzero (Z.land dest_bits 1)
          then upd (ram (memory s)) (a_register s) alu else ram (memory s))
    /\ pc s' = (if should_jump jump_bits alu then a_register s'
                else to_word (pc s + 1)).
Proof.
  unfold execute_c. cbv zeta.
  destruct (nonzero (Z.land (to_u8 (Z.land (Z.shiftr raw 6) 127)) 64)).
  - unfold read_ram.
    destruct (a_register s >=? RAM_SIZE); [discriminate|].
    cbn [pc d_register set_stats].
    destruct (compute_alu (pc s) _ (d_register s) _) as [alu|e];
      [|discriminate].
    intros H. apply execute_c_store_completed in H. cbn in H.
    exists alu. split; [reflexivity|exact H].
  - destruct (compute_alu (pc s) _ (d_register s) _) as [alu|e];
      [|discriminate].
    intros H. apply execute_c_store_completed in H.
    exists alu. split; [reflexivity|exact H].
Qed.

(** C4. A C-instruction that is fetched and executes without error: the
    ALU operand is RAM[A] when the a-bit is set and A otherwise; each
    destination is written on its own bit, the M write going to
    RAM[A_before], A_before being A as the instruction found it; and PC
    becomes A as the destination writes left it when the jump condition
    holds on the signed ALU output, PC + 1 otherwise. *)
Theorem c_instruction_step (s : CPUEngine) (continue : bool)
    (s' : CPUEngine) :
  let i := decode_instruction (rom (memory s) (pc s)) in
  let am := if reads_memory i then ram (memory s) (a_register s)
            else a_register s in
  cpu_fetches s = true ->
  type i = C_INSTRUCTION ->
  state s = RUNNING ->
  execute_instruction s = (continue, s') ->
  state s' <> ERROR ->
  exists alu,
    compute_alu (pc s) (comp i) (d_register s) am = Return alu
    /\ a_register s' = (if dest_a (dest i) then alu else a_register s)
    /\ d_register s' = (if dest_d (dest i) then alu else d_register s)
    /\ ram (memory s')
       = (if dest_m (dest i) then upd (ram (memory s)) (a_register s) alu
          else ram (memory s))
    /\ pc s' = (if jump_condition (jump i) (to_int16 alu)
                then a_register s' else to_word (pc s + 1)).
Proof.
  intros i am Hfetch Htype Hrun Hexec Hok.
  destruct (decoded_fields _ Htype) as (Hc & Hda & Hdd & Hdm & Hj & Hr).
  fold i in Hc, Hda, Hdd, Hdm, Hj, Hr.
  unfold cpu_fetches in Hfetch.
  apply andb_prop in Hfetch as [Hfetch Hbp].
  apply andb_prop in Hfetch as [Hhalt Hpause].
  apply negb_true_iff in Hhalt, Hpause, Hbp.
  unfold execute_instruction in Hexec.
  rewrite Hhalt, Hpause, Hbp, (decoded_type _ Htype) in Hexec.
  destruct (execute_c s (rom (memory s) (pc s))) as [c t|e t] eqn:E.
  - inversion Hexec; subst c t. clear Hexec.
    apply execute_c_completed in E. cbv zeta in E.
    rewrite <- Hr, <- Hda, <- Hdd, <- Hdm, <- Hc, <- Hj in E.
    destruct E as (alu & Halu & Ha & Hd & Hm & Hpc).
    exists alu. rewrite should_jump_condition in Hpc
      by (rewrite Hj; apply jump_bits_range).
    auto 10.
  - inversion Hexec; subst. cbn in Hok. congruence.
Qed.

(** D=A at ROM address 1 with A = 1. *)
Lemma c_instruction_step_witness :
  let s0 := fst (load initial [1; 60432; 2; 60432]) in
  let s := set_state (set_pc (set_a s0 1) 1) RUNNING in
  let s' := snd (execute_instruction s) in
  exists alu,
    compute_alu 1 A 0 1 = Return alu
    /\ a_register s' = 1 /\ d_register s' = alu /\ pc s' = 2.
Proof.
  intros s0 s s'.
  destruct (c_instruction_step s (fst (execute_instruction s)) s')
    as (alu & Halu & Ha & Hd & _ & Hpc).
  - reflexivity.
  - reflexivity.
  - reflexivity.
  - reflexivity.
  - vm_compute. discriminate.
  - exists alu. split; [exact Halu|]. split; [exact Ha|].
    split; [exact Hd|exact Hpc].
Defined.

End CInstruction.

(** ** Engines: the ERROR state *)

Section ErrorState.
Import Vocabulary.

Lemma cpu_error_call (s : CPU.CPUEngine) :
  CPU.state s = CPU.ERROR ->
  (forall fuel, CPU.run fuel s = Some (CPU.ERROR, s))
  /\ CPU.step s = (CPU.ERROR, s).
Proof.
  intros H. unfold CPU.run, CPU.step. rewrite H. cbn. split; reflexivity.
Qed.

Lemma vm_error_call basename (s : VM.VMEngine) :
  VM.state s = VM.ERROR ->
  (forall fuel, VM.run basename fuel s = VM.Returned VM.ERROR s)
  /\ VM.step basename s = VM.Returned VM.ERROR s.
Proof.
  intros H. unfold VM.run, VM.step, VM.prepare. rewrite H. cbn.
  rewrite H. split; reflexivity.
Qed.

(** C8. Once an engine is in the ERROR state, every [run] and every
    [step] returns ERROR and leaves the whole engine as it is, so no
    instruction executes (registers, memory, PC and statistics are those
    of the failure), and this for any series of such calls; [reset] is
    what leaves the state: it gives READY.  Both for the CPU engine and
    for the VM engine. *)
Theorem error_state_absorbs_run_and_step :
  (forall (s : CPU.CPUEngine) (calls : list engine_call),
      CPU.state s = CPU.ERROR ->
      cpu_calls calls s = Some (map (fun _ => CPU.ERROR) calls, s)
      /\ CPU.state (CPU.reset s) = CPU.READY)
  /\ (forall basename (s : VM.VMEngine) (calls : list engine_call),
      VM.state s = VM.ERROR ->
      vm_calls basename calls s = Some (map (fun _ => VM.ERROR) calls, s)
      /\ VM.state (VM.reset s) = VM.READY).
Proof.
  split.
  - intros s calls H. split; [|reflexivity].
    destruct (cpu_error_call s H) as [Hrun Hstep].
    induction calls as [|c calls IH]; [reflexivity|].
    cbn [cpu_calls map]. destruct c as [fuel|].
    + now rewrite Hrun, IH.
    + now rewrite Hstep, IH.
  - intros basename s calls H. split; [|reflexivity].
    destruct (vm_error_call basename s H) as [Hrun Hstep].
    induction calls as [|c calls IH]; [reflexivity|].
    cbn [vm_calls map]. destruct c as [fuel|].
    + now rewrite Hrun, IH.
    + now rewrite Hstep, IH.
Qed.

(** M=D with A = 40000 fails on the RAM write; the VM fails on [add] with
    an empty stack. *)
Lemma error_state_absorbs_run_and_step_witness :
  let cpu0 := CPU.set_a (fst (CPU.load CPU.initial [58120])) 40000 in
  let cpu := snd (CPU.step cpu0) in
  let vm0 := VM.loaded (VM.mkProgram [VM.ArithmeticCommand VM.ADD] [] [] []) in
  let vm := match VM.step plain_basename vm0 with
            | VM.Returned _ s => s
            | _ => vm0
            end in
  cpu_calls [CallRun 5; CallStep; CallRun 0] cpu
  = Some ([CPU.ERROR; CPU.ERROR; CPU.ERROR], cpu)
  /\ vm_calls plain_basename [CallStep; CallRun 7] vm
     = Some ([VM.ERROR; VM.ERROR], vm).
Proof.
  intros cpu0 cpu vm0 vm.
  destruct error_state_absorbs_run_and_step as [Hcpu Hvm].
  split.
  - apply (Hcpu cpu [CallRun 5; CallStep; CallRun 0]). reflexivity.
  - apply (Hvm plain_basename vm [CallStep; CallRun 7]). reflexivity.
Defined.

End ErrorState.

(** ** Engines: breakpoints on resume *)

Section Breakpoints.
Import Vocabulary.

(** A paused CPU engine that sits on a breakpoint it tripped on (so some
    instruction was executed since the last load or reset) trips on it
    again at once when [run] resumes it: the check looks at the count of
    all instructions executed, not at those of the present run. *)
Lemma cpu_resume_trips_again (s : CPU.CPUEngine) (fuel : nat) :
  CPU.state s = CPU.PAUSED ->
  CPU.instructions_executed (CPU.stats s) > 0 ->
  existsb (Z.eqb (CPU.pc s)) (CPU.breakpoints s) = true ->
  CPU.pc s < CPUMem.rom_size (CPU.memory s) ->
  exists s',
    CPU.run (S fuel) s = Some (CPU.PAUSED, s')
    /\ CPU.pause_reason s' = CPU.BREAKPOINT
    /\ CPU.pc s' = CPU.pc s
    /\ CPU.stats s' = CPU.stats s
    /\ CPU.memory s' = CPU.memory s
    /\ CPU.a_register s' = CPU.a_register s
    /\ CPU.d_register s' = CPU.d_register s.
Proof.
  intros Hst Hcount Hbp Hpc. unfold CPU.run. rewrite Hst. cbn -[Z.gtb].
  unfold CPU.execute_instruction. cbn -[Z.gtb].
  rewrite geb_false by exact Hpc. rewrite gtb_true by lia. rewrite Hbp.
  cbn. eexists. split; [reflexivity|]. cbn. auto 10.
Qed.

(** C2 fails on the code.  CPU: with a breakpoint at ROM address 2, [run]
    pauses there before the instruction executes; [run] again pauses at
    the same address and nothing has executed.  VM: the same with a
    breakpoint at command 2, for [run] and for [step]. *)
Theorem breakpoint_trips_again_on_resume :
  let cpu0 := CPU.add_breakpoint (fst (CPU.load CPU.initial cpu_test_program))
                                 2 in
  let vm0 := VM.add_breakpoint (VM.loaded vm_test_program) 2 in
  (exists cpu1 cpu2,
      CPU.run 10 cpu0 = Some (CPU.PAUSED, cpu1)
      /\ CPU.pause_reason cpu1 = CPU.BREAKPOINT
      /\ CPU.pc cpu1 = 2
      /\ CPU.instructions_executed (CPU.stats cpu1) = 2
      /\ CPU.run 10 cpu1 = Some (CPU.PAUSED, cpu2)
      /\ CPU.pause_reason cpu2 = CPU.BREAKPOINT
      /\ CPU.pc cpu2 = 2
      /\ CPU.instructions_executed (CPU.stats cpu2) = 2)
  /\ (exists vm1 vm2 vm3,
      VM.run plain_basename 10 vm0 = VM.Returned VM.PAUSED vm1
      /\ VM.pause_reason vm1 = VM.BREAKPOINT
      /\ VM.pc vm1 = 2
      /\ VM.instructions_executed (VM.stats vm1) = 2
      /\ VM.run plain_basename 10 vm1 = VM.Returned VM.PAUSED vm2
      /\ VM.pause_reason vm2 = VM.BREAKPOINT
      /\ VM.pc vm2 = 2
      /\ VM.instructions_executed (VM.stats vm2) = 2
      /\ VM.step plain_basename vm1 = VM.Returned VM.PAUSED vm3
      /\ VM.pause_reason vm3 = VM.BREAKPOINT
      /\ VM.pc vm3 = 2
      /\ VM.instructions_executed (VM.stats vm3) = 2).
Proof.
  intros cpu0 vm0. split.
  - destruct (CPU.run 10 cpu0) as [[st1 cpu1]|] eqn:E1;
      [|vm_compute in E1; discriminate].
    destruct (CPU.run 10 cpu1) as [[st2 cpu2]|] eqn:E2;
      [|vm_compute in E1; inversion E1; subst;
        vm_compute in E2; discriminate].
    exists cpu1, cpu2.
    vm_compute in E1. inversion E1; subst st1 cpu1. clear E1.
    vm_compute in E2. inversion E2; subst st2 cpu2. clear E2.
    vm_compute. repeat split.
  - destruct (VM.run plain_basename 10 vm0) as [st1 vm1| | |] eqn:E1;
      try (vm_compute in E1; discriminate).
    vm_compute in E1. inversion E1; subst st1 vm1. clear E1.
    do 3 eexists.
    split; [reflexivity|]. split; [reflexivity|].
    split; [reflexivity|]. split; [reflexivity|].
    split; [vm_compute; reflexivity|]. split; [reflexivity|].
    split; [reflexivity|]. split; [reflexivity|].
    split; [vm_compute; reflexivity|]. split; [reflexivity|].
    split; reflexivity.
Qed.

End Breakpoints.

(** ** VM memory: the stack pointer *)

Section StackPointer.
Import Vocabulary VMMem.

(** [push] and [pop] do guard the stack: a push with SP above STACK_MAX
    and a pop with SP at or below STACK_BASE throw and change nothing. *)
Lemma push_pop_guard (m : VMMemory) (value : Z) :
  (ram m SP > STACK_MAX ->
   push m value = Throw (RuntimeError (MsgStackOverflow (ram m SP))))
  /\ (ram m SP <= STACK_BASE ->
      pop m = Throw (RuntimeError MsgStackUnderflow)).
Proof.
  split; intros H.
  - unfold push. now rewrite gtb_true by lia.
  - unfold pop. replace (ram m SP <=? STACK_BASE) with true
      by (symmetry; apply Z.leb_le; lia). reflexivity.
Qed.

(** [push_frame] has no such guard: whenever the five saved words and the
    locals still fit the RAM array, it succeeds and moves SP by
    5 + num_locals, whatever STACK_MAX is. *)
Lemma push_frame_unguarded :
  let m0 := set_ram (reset (mkVMMem (fun _ => 0) [] [] STATIC_BASE))
                    (upd (fun _ => 0) SP 2047) in
  exists m1,
    push_frame m0 7 "f" 0 2 = Ok m1 /\ ram m1 SP = 2054.
Proof. eexists. split; [vm_compute; reflexivity|reflexivity]. Qed.

(** C3 fails on the code.  The program [function Sys.init 0; call Sys.init 0]
    is run for 800 commands: the engine is then paused with no error, and
    SP is 2261, above STACK_MAX + 1 = 2048. *)
Theorem call_moves_sp_past_stack_max :
  exists s,
    VM.run_for plain_basename 800 (VM.loaded vm_runaway_program)
    = VM.Returned VM.PAUSED s
    /\ VM.pause_reason s = VM.USER_REQUEST
    /\ VM.error_message s = None
    /\ VM.instructions_executed (VM.stats s) = 800
    /\ ram (VM.memory s) SP = 2261
    /\ 2261 > STACK_MAX + 1.
Proof.
  destruct (VM.run_for plain_basename 800 (VM.loaded vm_runaway_program))
    as [st s| | |] eqn:E; try (vm_compute in E; discriminate).
  exists s.
  assert (Hst : st = VM.PAUSED /\ VM.pause_reason s = VM.USER_REQUEST
                /\ VM.error_message s = None
                /\ VM.instructions_executed (VM.stats s) = 800
                /\ ram (VM.memory s) SP = 2261).
  { assert (Hs : VM.Returned st s
                 = VM.run_for plain_basename 800
                     (VM.loaded vm_runaway_program))
      by (symmetry; exact E).
    clear E.
    change (match VM.Returned st s with
            | VM.Returned st s =>
                st = VM.PAUSED /\ VM.pause_reason s = VM.USER_REQUEST
                /\ VM.error_message s = None
                /\ VM.instructions_executed (VM.stats s) = 800
                /\ ram (VM.memory s) SP = 2261
            | _ => False
            end).
    rewrite Hs. vm_compute. repeat split. }
  destruct Hst as (-> & Hr & He & Hi & Hsp).
  split; [reflexivity|]. repeat split; assumption.
Qed.

End StackPointer.

(** ** VM memory: call frames *)

Section Frames.
Import Vocabulary VMMem.

Ltac unfold_addresses :=
  unfold SP, LCL, ARG, THIS, THAT, STACK_BASE, STACK_MAX, RAM_SIZE in *.

Lemma upd_at f i v j : j = i -> upd f i v j = v.
Proof. intros ->. apply upd_same. Qed.

Ltac upd_simpl :=
  repeat first [ rewrite upd_at by (unfold_addresses; lia)
               | rewrite upd_other by (unfold_addresses; lia) ].

Lemma to_word_small z : 0 <= z < 65536 -> to_word z = z.
Proof. intros H. unfold to_word. now apply Z.mod_small. Qed.

Lemma in_ram_true i : 0 <= i < RAM_SIZE -> in_ram i = true.
Proof.
  intros H. unfold in_ram. apply andb_true_intro.
  split; [apply Z.leb_le|apply Z.ltb_lt]; lia.
Qed.

Lemma ram_get_in r i : 0 <= i < RAM_SIZE -> ram_get r i = Ok (r i).
Proof. intros H. unfold ram_get. now rewrite in_ram_true. Qed.

Lemma ram_put_in r i v : 0 <= i < RAM_SIZE -> ram_put r i v = Ok (upd r i v).
Proof. intros H. unfold ram_put. now rewrite in_ram_true. Qed.

Lemma push_zeros_spec count : forall r sp,
  0 <= sp -> sp + Z.of_nat count <= RAM_SIZE ->
  exists r',
    push_zeros count r sp = Ok (r', sp + Z.of_nat count)
    /\ (forall a, a < sp -> r' a = r a).
Proof.
  induction count as [|count IH]; intros r sp Hsp Hfit.
  - exists r. cbn. rewrite Z.add_0_r. auto.
  - cbn [push_zeros]. rewrite ram_put_in by lia. cbn [bind].
    rewrite to_word_small by (unfold_addresses; lia).
    destruct (IH (upd r sp 0) (sp + 1)) as (r' & Hrun & Hlow); [lia|lia|].
    exists r'. rewrite Hrun. split; [f_equal; f_equal; lia|].
    intros a Ha. rewrite Hlow by lia. now rewrite upd_other by lia.
Qed.

(** What [push_frame] does when the frame fits the RAM. *)
Lemma push_frame_spec m ra f na nl sp :
  ram m SP = sp ->
  STACK_BASE <= sp - na -> 0 <= na -> 0 <= nl -> sp + 5 + nl <= RAM_SIZE ->
  exists m1,
    push_frame m ra f na nl = Ok m1
    /\ ram m1 SP = sp + 5 + nl
    /\ ram m1 LCL = sp + 5
    /\ ram m1 ARG = sp - na
    /\ ram m1 sp = to_word ra
    /\ ram m1 (sp + 1) = ram m LCL
    /\ ram m1 (sp + 2) = ram m ARG
    /\ ram m1 (sp + 3) = ram m THIS
    /\ ram m1 (sp + 4) = ram m THAT
    /\ (forall a, 2 < a < sp -> ram m1 a = ram m a)
    /\ call_stack m1
       = mkFrame ra (ram m LCL) (ram m ARG) (ram m THIS) (ram m THAT) f na nl
         :: call_stack m
    /\ static_bases m1 = static_bases m
    /\ next_static_address m1 = next_static_address m.
Proof.
  intros Hsp0 Hbase Hna Hnl Hfit. unfold push_frame. rewrite Hsp0.
  cbn [saved_lcl saved_arg saved_this saved_that].
  assert (Hsp : STACK_BASE <= sp) by lia.
  rewrite ram_put_in by (unfold_addresses; lia). cbn [bind].
  rewrite (to_word_small (sp + 1)) by (unfold_addresses; lia).
  rewrite ram_put_in by (unfold_addresses; lia). cbn [bind].
  rewrite (to_word_small (sp + 1 + 1)) by (unfold_addresses; lia).
  rewrite ram_put_in by (unfold_addresses; lia). cbn [bind].
  rewrite (to_word_small (sp + 1 + 1 + 1)) by (unfold_addresses; lia).
  rewrite ram_put_in by (unfold_addresses; lia). cbn [bind].
  rewrite (to_word_small (sp + 1 + 1 + 1 + 1)) by (unfold_addresses; lia).
  rewrite ram_put_in by (unfold_addresses; lia). cbn [bind].
  rewrite (to_word_small (sp + 1 + 1 + 1 + 1 + 1))
    by (unfold_addresses; lia).
  rewrite (to_word_small (sp + 1 + 1 + 1 + 1 + 1 - na - 5))
    by (unfold_addresses; lia).
  match goal with
  | |- context [push_zeros ?c ?r ?s] =>
      destruct (push_zeros_spec c r s) as (r' & Hz & Hlow);
        [unfold_addresses; lia | rewrite Z2Nat.id by lia; lia |]
  end.
  rewrite Hz. cbn [bind]. rewrite Z2Nat.id by lia.
  eexists. split; [reflexivity|]. cbn [ram call_stack static_bases
                                       next_static_address].
  repeat split.
  - upd_simpl. lia.
  - upd_simpl. rewrite Hlow by (unfold_addresses; lia). upd_simpl. lia.
  - upd_simpl. rewrite Hlow by (unfold_addresses; lia). upd_simpl. lia.
  - upd_simpl. rewrite Hlow by (unfold_addresses; lia). upd_simpl.
    reflexivity.
  - upd_simpl. rewrite Hlow by (unfold_addresses; lia). upd_simpl.
    reflexivity.
  - upd_simpl. rewrite Hlow by (unfold_addresses; lia). upd_simpl.
    reflexivity.
  - upd_simpl. rewrite Hlow by (unfold_addresses; lia). upd_simpl.
    reflexivity.
  - upd_simpl. rewrite Hlow by (unfold_addresses; lia). upd_simpl.
    reflexivity.
  - intros a Ha. upd_simpl. rewrite Hlow by (unfold_addresses; lia).
    upd_simpl. reflexivity.
Qed.

Lemma push_spec m v sp :
  ram m SP = sp -> 0 < sp <= STACK_MAX ->
  exists m1,
    push m v = Ok m1
    /\ ram m1 = upd (upd (ram m) sp v) SP (sp + 1)
    /\ call_stack m1 = call_stack m
    /\ static_bases m1 = static_bases m
    /\ next_static_address m1 = next_static_address m.
Proof.
  intros Hsp Hrange. unfold push. rewrite Hsp.
  rewrite gtb_false by lia.
  rewrite ram_put_in by (unfold_addresses; lia). cbn [bind].
  rewrite to_word_small by (unfold_addresses; lia).
  eexists. split; [reflexivity|]. cbn. auto.
Qed.

Lemma pop_spec m sp :
  ram m SP = sp -> STACK_BASE < sp <= RAM_SIZE ->
  exists m1,
    pop m = Ok (ram m (sp - 1), m1)
    /\ ram m1 = upd (ram m) SP (sp - 1)
    /\ call_stack m1 = call_stack m
    /\ static_bases m1 = static_bases m
    /\ next_static_address m1 = next_static_address m.
Proof.
  intros Hsp Hrange. unfold pop. rewrite Hsp.
  replace (sp <=? STACK_BASE) with false
    by (symmetry; apply Z.leb_gt; lia).
  rewrite ram_get_in by (unfold_addresses; lia). cbn [bind].
  rewrite to_word_small by (unfold_addresses; lia).
  rewrite upd_other by (unfold_addresses; lia).
  eexists. split; [reflexivity|]. cbn. auto.
Qed.








End Frames.

(** ** HDL: the evaluation order *)

Section Counting.
Import Vocabulary.
Open Scope nat_scope.

Variable E : list (nat * nat).

Lemma count_occ_targets u b :
  count_occ Nat.eq_dec (targets_of E u) b = between E u b.
Proof.
  unfold targets_of, between.
  induction E as [|[a c] rest IH]; [reflexivity|].
  cbn [filter fst snd]. destruct (Nat.eqb_spec a u); cbn [andb map].
  - cbn [count_occ snd]. destruct (Nat.eq_dec c b) as [->|Hne].
    + rewrite Nat.eqb_refl. cbn [List.length]. now rewrite IH.
    + apply Nat.eqb_neq in Hne. now rewrite Hne.
  - exact IH.
Qed.

Lemma pending_snoc order u b :
  ~ In u order ->
  pending E (order ++ [u]) b + between E u b = pending E order b.
Proof.
  intros Hu. unfold pending, between.
  induction E as [|[a c] rest IH]; [reflexivity|].
  cbn [filter fst snd]. rewrite existsb_app. cbn [existsb].
  rewrite orb_false_r.
  destruct (Nat.eqb_spec c b) as [_|_]; cbn [andb];
    [|rewrite andb_false_r; exact IH].
  rewrite andb_true_r.
  destruct (Nat.eqb_spec a u) as [->|Hau].
  - rewrite orb_true_r. cbn [negb List.length].
    replace (existsb (Nat.eqb u) order) with false.
    + cbn [negb List.length]. lia.
    + symmetry. apply not_true_is_false. intros Hex.
      apply existsb_exists in Hex as (x & Hx & Heq).
      apply Nat.eqb_eq in Heq. subst x. exact (Hu Hx).
  - rewrite orb_false_r.
    destruct (existsb (Nat.eqb a) order); cbn [negb List.length]; lia.
Qed.

Lemma pending_zero order b :
  pending E order b = 0 -> forall a, In (a, b) E -> In a order.
Proof.
  unfold pending. intros Hz a Hin.
  apply length_zero_iff_nil in Hz.
  destruct (existsb (Nat.eqb a) order) eqn:Hex.
  - apply existsb_exists in Hex as (x & Hx & Heq).
    apply Nat.eqb_eq in Heq. now subst x.
  - exfalso.
    assert (Hf : In (a, b)
                   (filter (fun e => Nat.eqb (snd e) b
                              && negb (existsb (Nat.eqb (fst e)) order)) E)).
    { apply filter_In. split; [exact Hin|]. cbn [fst snd].
      now rewrite Nat.eqb_refl, Hex. }
    rewrite Hz in Hf. exact Hf.
Qed.

Lemma pending_bound order b : pending E order b <= List.length E.
Proof. unfold pending. apply filter_length_le. Qed.

Lemma pending_positive order b :
  0 < pending E order b -> exists a, In (a, b) E /\ ~ In a order.
Proof.
  unfold pending. intros Hpos.
  destruct (filter (fun e => Nat.eqb (snd e) b
                      && negb (existsb (Nat.eqb (fst e)) order)) E)
    as [|[a c] rest] eqn:F; [cbn in Hpos; lia|].
  assert (Hin : In (a, c)
                  (filter (fun e => Nat.eqb (snd e) b
                             && negb (existsb (Nat.eqb (fst e)) order)) E))
    by (rewrite F; now left).
  apply filter_In in Hin as [Hin Hp]. cbn [fst snd] in Hp.
  apply andb_prop in Hp as [Hc Hex].
  apply Nat.eqb_eq in Hc. subst c.
  exists a. split; [exact Hin|]. intros Ho.
  apply negb_true_iff in Hex.
  assert (existsb (Nat.eqb a) order = true); [|congruence].
  apply existsb_exists. exists a. split; [exact Ho|apply Nat.eqb_refl].
Qed.

Lemma in_targets u v : In v (targets_of E u) <-> In (u, v) E.
Proof.
  unfold targets_of. rewrite in_map_iff. split.
  - intros ([a c] & Hc & Hin). apply filter_In in Hin as [Hin Ha].
    cbn in Hc, Ha. apply Nat.eqb_eq in Ha. now subst.
  - intros Hin. exists (u, v). split; [reflexivity|].
    apply filter_In. split; [exact Hin|]. cbn. apply Nat.eqb_refl.
Qed.

End Counting.

Section Graph.
Import Vocabulary HDL.

Lemma to_u64_small z : 0 <= z < 2 ^ 64 -> to_u64 z = z.
Proof. intros H. unfold to_u64. apply Z.mod_small. exact H. Qed.

Lemma to_u64_succ z : to_u64 (to_u64 z + 1) = to_u64 (z + 1).
Proof. unfold to_u64. apply Zplus_mod_idemp_l. Qed.

Lemma fold_add_edge E : forall adj0 deg0,
  (forall a, fst (fold_left add_edge E (adj0, deg0)) a
             = adj0 a ++ targets_of E a)
  /\ (forall b d0, deg0 b = to_u64 d0 ->
        snd (fold_left add_edge E (adj0, deg0)) b
        = to_u64 (d0 + Z.of_nat (pending E [] b))).
Proof.
  induction E as [|[a' b'] rest IH]; intros adj0 deg0.
  - cbn. split.
    + intros a. now rewrite app_nil_r.
    + intros b d0 H. now rewrite Z.add_0_r.
  - cbn [fold_left add_edge].
    destruct (IH (vset adj0 a' (adj0 a' ++ [b']))
                 (vset deg0 b' (to_u64 (deg0 b' + 1)))) as [Hadj Hdeg].
    split.
    + intros a. rewrite Hadj. unfold vset, targets_of.
      cbn [filter fst]. rewrite (Nat.eqb_sym a a').
      destruct (Nat.eqb_spec a' a) as [->|_]; cbn [map snd].
      * now rewrite <- app_assoc.
      * reflexivity.
    + intros b d0 H. unfold pending. cbn [filter fst snd existsb negb].
      rewrite andb_true_r. destruct (Nat.eqb_spec b' b) as [->|Hne].
      * rewrite (Hdeg b (d0 + 1)).
        -- cbn [List.length]. unfold pending. cbn [existsb negb].
           f_equal. lia.
        -- unfold vset. rewrite Nat.eqb_refl, H. apply to_u64_succ.
      * rewrite (Hdeg b d0); [reflexivity|].
        unfold vset. apply Nat.eqb_neq in Hne.
        rewrite (Nat.eqb_sym b b'), Hne. exact H.
Qed.

Lemma build_graph_spec E :
  Z.of_nat (List.length E) < 2 ^ 64 ->
  (forall a, fst (build_graph E) a = targets_of E a)
  /\ (forall b, snd (build_graph E) b = Z.of_nat (pending E [] b)).
Proof.
  intros Hsmall. unfold build_graph.
  destruct (fold_add_edge E (fun _ => []) (fun _ => 0)) as [Hadj Hdeg].
  split.
  - intros a. now rewrite Hadj.
  - intros b. rewrite (Hdeg b 0) by reflexivity.
    pose proof (pending_bound E [] b). apply to_u64_small. lia.
Qed.

(** The inner loop: every target loses one per occurrence, and the nodes
    that reach zero join the queue once. *)
Lemma relax_spec targets : forall in_degree q,
  (forall v, Z.of_nat (count_occ Nat.eq_dec targets v) <= in_degree v
             < 2 ^ 64) ->
  exists fresh,
    snd (relax targets in_degree q) = q ++ fresh
    /\ NoDup fresh
    /\ (forall v, fst (relax targets in_degree q) v
                  = in_degree v - Z.of_nat (count_occ Nat.eq_dec targets v))
    /\ (forall v, In v fresh ->
          In v targets /\ fst (relax targets in_degree q) v = 0)
    /\ (forall v, In v targets -> fst (relax targets in_degree q) v = 0 ->
          In v fresh).
Proof.
  induction targets as [|t more IH]; intros deg q Hpre.
  - exists []. cbn. rewrite app_nil_r.
    split; [reflexivity|]. split; [constructor|].
    split; [intros v; lia|]. split; [contradiction|]. intros v [].
  - cbn [relax].
    assert (Ht : 1 <= deg t < 2 ^ 64).
    { specialize (Hpre t). cbn [count_occ] in Hpre.
      destruct (Nat.eq_dec t t); [lia|congruence]. }
    rewrite (to_u64_small (deg t - 1)) by lia.
    set (deg1 := vset deg t (deg t - 1)).
    assert (Hpre1 : forall v,
               Z.of_nat (count_occ Nat.eq_dec more v) <= deg1 v < 2 ^ 64).
    { intros v. specialize (Hpre v). cbn [count_occ] in Hpre.
      unfold deg1, vset. destruct (Nat.eq_dec t v) as [->|Hne].
      - rewrite Nat.eqb_refl. lia.
      - apply Nat.eqb_neq in Hne. rewrite (Nat.eqb_sym v t), Hne. lia. }
    destruct (IH deg1 (if deg t - 1 =? 0 then q ++ [t] else q) Hpre1)
      as (fresh & Hq & Hnd & Hdeg & Hfresh & Hall).
    assert (Hdeg' : forall v,
               fst (relax more deg1
                      (if deg t - 1 =? 0 then q ++ [t] else q)) v
               = deg v - Z.of_nat (count_occ Nat.eq_dec (t :: more) v)).
    { intros v. rewrite Hdeg. cbn [count_occ]. unfold deg1, vset.
      destruct (Nat.eq_dec t v) as [->|Hne].
      - rewrite Nat.eqb_refl. lia.
      - apply Nat.eqb_neq in Hne. rewrite (Nat.eqb_sym v t), Hne. lia. }
    destruct (Z.eqb_spec (deg t - 1) 0) as [Hz|Hnz].
    + exists (t :: fresh). rewrite Hq, <- app_assoc. cbn [app].
      assert (Hcount : count_occ Nat.eq_dec more t = 0%nat).
      { specialize (Hpre1 t). unfold deg1, vset in Hpre1.
        rewrite Nat.eqb_refl in Hpre1. lia. }
      split; [reflexivity|]. split; [|split; [exact Hdeg'|split]].
      * constructor; [|exact Hnd]. intros Hin.
        apply Hfresh in Hin as [Hin _].
        apply (count_occ_In Nat.eq_dec) in Hin. lia.
      * intros v [<-|Hin].
        -- split; [now left|]. rewrite Hdeg. unfold deg1, vset.
           rewrite Nat.eqb_refl, Hcount. lia.
        -- split; [right|]; now apply Hfresh.
      * intros v [<-|Hin] Hzero; [now left|]. right. now apply Hall.
    + exists fresh. rewrite Hq.
      split; [reflexivity|]. split; [exact Hnd|]. split; [exact Hdeg'|].
      split.
      * intros v Hin. split; [right|]; now apply Hfresh.
      * intros v Hin Hzero.
        destruct (in_dec Nat.eq_dec v more) as [Hmore|Hmore];
          [now apply Hall|].
        destruct Hin as [<-|Hin]; [|contradiction].
        exfalso. rewrite Hdeg in Hzero.
        apply (count_occ_not_In Nat.eq_dec) in Hmore.
        unfold deg1, vset in Hzero. rewrite Nat.eqb_refl, Hmore in Hzero.
        lia.
Qed.

End Graph.

Section Kahn.
Import Vocabulary HDL.

Variable n : nat.
Variable E : list (nat * nat).
Variable adj : nat -> list nat.

Hypothesis E_range : forall a b, In (a, b) E -> (b < n)%nat.
Hypothesis E_small : Z.of_nat (List.length E) < 2 ^ 64.
Hypothesis adj_targets : forall a, adj a = targets_of E a.

Lemma before_snoc a b l u : before a b l -> before a b (l ++ [u]).
Proof.
  intros (l1 & l2 & -> & Hin). exists l1, (l2 ++ [u]).
  split; [|exact Hin]. now rewrite <- app_assoc.
Qed.

Lemma kahn_step in_degree u q order :
  kahn_invariant n E in_degree (u :: q) order ->
  kahn_invariant n E (fst (relax (adj u) in_degree q))
                 (snd (relax (adj u) in_degree q)) (order ++ [u]).
Proof.
  intros [Hdeg Hq Hnd Hrange Hord Hready].
  assert (Hu : ~ In u order).
  { apply NoDup_remove_2 in Hnd. intros Hin. apply Hnd.
    apply in_or_app. now left. }
  assert (Hcount : forall v,
             count_occ Nat.eq_dec (adj u) v = between E u v).
  { intros v. rewrite adj_targets. apply count_occ_targets. }
  assert (Hpre : forall v,
             Z.of_nat (count_occ Nat.eq_dec (adj u) v) <= in_degree v
             < 2 ^ 64).
  { intros v. rewrite Hcount, Hdeg.
    pose proof (pending_snoc E order u v Hu).
    pose proof (pending_bound E order v). lia. }
  destruct (relax_spec (adj u) in_degree q Hpre)
    as (fresh & Hq' & Hfnd & Hdeg' & Hfresh & Hall).
  rewrite Hq'.
  assert (Hfresh_new : forall v, In v fresh ->
             v <> u /\ ~ In v q /\ ~ In v order /\ (v < n)%nat).
  { intros v Hv. apply Hfresh in Hv as [Hin _].
    assert (Hedge : In (u, v) E) by (apply in_targets; now rewrite <- adj_targets).
    assert (Hpos : 1 <= in_degree v).
    { specialize (Hpre v). apply (count_occ_In Nat.eq_dec) in Hin. lia. }
    repeat split.
    - intros ->. specialize (Hq u (or_introl eq_refl)). lia.
    - intros Hvq. specialize (Hq v (or_intror Hvq)). lia.
    - intros Hvo. destruct (Hord u v Hedge Hvo) as (l1 & l2 & -> & Hul1).
      apply Hu. apply in_or_app. now left.
    - exact (E_range u v Hedge). }
  constructor.
  - intros b. rewrite Hdeg', Hcount, Hdeg.
    pose proof (pending_snoc E order u b Hu). lia.
  - intros v Hv. apply in_app_or in Hv as [Hv|Hv].
    + rewrite Hdeg'. specialize (Hq v (or_intror Hv)).
      specialize (Hpre v). lia.
    + now apply Hfresh.
  - rewrite <- app_assoc. cbn [app].
    assert (Hnd' : NoDup (order ++ u :: q)) by exact Hnd.
    apply NoDup_app_remove_l in Hnd as Hnduq.
    apply NoDup_app_remove_r in Hnd' as Hndo.
    apply NoDup_app; [exact Hndo| |].
    + apply NoDup_cons_iff in Hnduq as [Huq Hndq].
      constructor.
      * intros Hin. apply in_app_or in Hin as [Hin|Hin]; [now apply Huq|].
        now apply Hfresh_new in Hin.
      * apply NoDup_app; [exact Hndq|exact Hfnd|].
        intros v Hvq Hvf. now apply Hfresh_new in Hvf.
    + intros v Hvo Hv. destruct Hv as [<-|Hv]; [now apply Hu|].
      apply in_app_or in Hv as [Hv|Hv].
      * clear - Hnd' Hvo Hv.
        induction order as [|x order IH]; [contradiction|].
        cbn [app] in Hnd'. apply NoDup_cons_iff in Hnd' as [Hx Hnd'].
        destruct Hvo as [->|Hvo].
        -- apply Hx. apply in_or_app. right. now right.
        -- now apply IH.
      * now apply Hfresh_new in Hv.
  - intros v Hv. apply in_app_or in Hv as [Hv|Hv].
    + apply in_app_or in Hv as [Hv|[<-|[]]].
      * apply Hrange. apply in_or_app. now left.
      * apply Hrange. apply in_or_app. right. now left.
    + apply in_app_or in Hv as [Hv|Hv].
      * apply Hrange. apply in_or_app. right. now right.
      * now apply Hfresh_new in Hv.
  - intros a b Hedge Hb. apply in_app_or in Hb as [Hb|[<-|[]]].
    + apply before_snoc. now apply Hord.
    + exists order, []. split; [reflexivity|].
      apply (pending_zero E order u); [|exact Hedge].
      specialize (Hq u (or_introl eq_refl)). rewrite Hdeg in Hq. lia.
  - intros v Hv Hzero. rewrite <- app_assoc. cbn [app].
    destruct (in_dec Nat.eq_dec v (adj u)) as [Hin|Hnin].
    + apply in_or_app. right. right. apply in_or_app. right.
      now apply Hall.
    + apply (count_occ_not_In Nat.eq_dec) in Hnin.
      rewrite Hdeg', Hnin in Hzero.
      assert (Hold : In v (order ++ u :: q)) by (apply Hready; [exact Hv|lia]).
      apply in_app_or in Hold as [Hold|[<-|Hold]].
      * apply in_or_app. now left.
      * apply in_or_app. right. now left.
      * apply in_or_app. right. right. apply in_or_app. now left.
Qed.

Lemma kahn_total fuel : forall in_degree q order,
  kahn_invariant n E in_degree q order ->
  (n <= List.length order + fuel)%nat ->
  exists result,
    kahn fuel adj in_degree q order = Some result
    /\ NoDup result
    /\ (forall v, In v result -> (v < n)%nat)
    /\ (forall a b, In (a, b) E -> In b result -> before a b result)
    /\ (forall b, (b < n)%nat -> ~ In b result ->
          exists a, In (a, b) E /\ ~ In a result).
Proof.
  assert (Hdone : forall in_degree order,
             kahn_invariant n E in_degree [] order ->
             NoDup order
             /\ (forall v, In v order -> (v < n)%nat)
             /\ (forall a b, In (a, b) E -> In b order -> before a b order)
             /\ (forall b, (b < n)%nat -> ~ In b order ->
                   exists a, In (a, b) E /\ ~ In a order)).
  { intros deg order [Hdeg _ Hnd Hrange Hord Hready].
    rewrite app_nil_r in Hnd, Hrange.
    repeat split; try assumption.
    intros b Hb Hout. apply pending_positive.
    assert (in_degree_b : deg b <> 0).
    { intros Hz. apply Hout. specialize (Hready b Hb Hz).
      now rewrite app_nil_r in Hready. }
    rewrite Hdeg in in_degree_b. lia. }
  induction fuel as [|fuel IH]; intros deg q order Hinv Hfuel.
  - destruct q as [|u q].
    + exists order. split; [reflexivity|]. now apply (Hdone deg).
    + exfalso. destruct Hinv as [_ _ Hnd Hrange _ _].
      assert (Hlen : (List.length (order ++ u :: q) <= List.length (seq 0 n))%nat).
      { apply NoDup_incl_length; [exact Hnd|].
        intros v Hv. apply in_seq. specialize (Hrange v Hv). lia. }
      rewrite length_app, length_seq in Hlen. cbn [List.length] in Hlen. lia.
  - destruct q as [|u q].
    + exists order. split; [reflexivity|]. now apply (Hdone deg).
    + cbn [kahn]. pose proof (kahn_step deg u q order Hinv) as Hstep.
      destruct (relax (adj u) deg q) as [deg' q'].
      cbn [fst snd] in Hstep.
      apply IH; [exact Hstep|].
      rewrite length_app. cbn [List.length]. lia.
Qed.

End Kahn.

Section Wiring.
Import Vocabulary HDL.

Lemma set_insert_in x s w : In w (set_insert x s) <-> w = x \/ In w s.
Proof.
  induction s as [|y rest IH]; cbn [set_insert].
  - cbn. intuition.
  - destruct (String.compare x y) eqn:C.
    + apply String.compare_eq_iff in C. subst y. cbn. intuition.
    + cbn. intuition.
    + cbn [In]. rewrite IH. intuition.
Qed.

Lemma set_count_in w s : set_count w s = true <-> In w s.
Proof.
  unfold set_count. rewrite existsb_exists. split.
  - intros (x & Hx & Heq). apply String.eqb_eq in Heq. now subst.
  - intros H. exists w. split; [exact H|apply String.eqb_refl].
Qed.

Lemma collect_outputs_in outs : forall acc a w,
  In w (acc a)
  \/ (exists m, In m outs /\ part_index m = a /\ chip_pin m = w) ->
  In w (fold_left
          (fun po m => vset po (part_index m)
                            (set_insert (chip_pin m) (po (part_index m))))
          outs acc a).
Proof.
  induction outs as [|m0 outs IH]; intros acc a w H; cbn [fold_left].
  - destruct H as [H|(m & [] & _)]. exact H.
  - apply IH. unfold vset.
    destruct H as [H|(m & [<-|Hin] & Hidx & Hpin)].
    + left. destruct (Nat.eqb_spec a (part_index m0)) as [->|_];
        [apply set_insert_in; now right | exact H].
    + left. subst a w. rewrite Nat.eqb_refl. apply set_insert_in. now left.
    + right. now exists m.
Qed.

Lemma collect_inputs_in d ins : forall acc b w,
  In w (acc b)
  \/ (exists m, In m ins /\ part_index m = b /\ chip_pin m = w
                /\ is_constant w = false
                /\ is_chip_input d w = false
                /\ is_chip_output d w = false) ->
  In w (fold_left
          (fun pi m =>
             if is_constant (chip_pin m) then pi
             else if negb (is_chip_input d (chip_pin m))
                     && negb (is_chip_output d (chip_pin m))
             then vset pi (part_index m)
                       (set_insert (chip_pin m) (pi (part_index m)))
             else pi)
          ins acc b).
Proof.
  induction ins as [|m0 ins IH]; intros acc b w H; cbn [fold_left].
  - destruct H as [H|(m & [] & _)]. exact H.
  - apply IH.
    destruct H as [H|(m & [<-|Hin] & Hidx & Hpin & Hc & Hi & Ho)].
    + left. destruct (is_constant (chip_pin m0)); [exact H|].
      destruct (negb (is_chip_input d (chip_pin m0))
                && negb (is_chip_output d (chip_pin m0))); [|exact H].
      unfold vset. destruct (Nat.eqb_spec b (part_index m0)) as [->|_];
        [apply set_insert_in; now right | exact H].
    + left. subst b w. rewrite Hc, Hi, Ho. cbn [negb andb].
      unfold vset. rewrite Nat.eqb_refl. apply set_insert_in. now left.
    + right. exists m. auto 10.
Qed.

Lemma collect_outputs_from outs : forall acc a w,
  In w (fold_left
          (fun po m => vset po (part_index m)
                            (set_insert (chip_pin m) (po (part_index m))))
          outs acc a) ->
  In w (acc a)
  \/ (exists m, In m outs /\ part_index m = a /\ chip_pin m = w).
Proof.
  induction outs as [|m0 outs IH]; intros acc a w H; cbn [fold_left] in H.
  - now left.
  - apply IH in H as [H|(m & Hin & Hidx & Hpin)].
    + unfold vset in H.
      destruct (Nat.eqb_spec a (part_index m0)) as [->|_]; [|now left].
      apply set_insert_in in H as [->|H]; [|now left].
      right. exists m0. split; [now left|]. now split.
    + right. exists m. split; [now right|]. now split.
Qed.

Lemma collect_inputs_from d ins : forall acc b w,
  In w (fold_left
          (fun pi m =>
             if is_constant (chip_pin m) then pi
             else if negb (is_chip_input d (chip_pin m))
                     && negb (is_chip_output d (chip_pin m))
             then vset pi (part_index m)
                       (set_insert (chip_pin m) (pi (part_index m)))
             else pi)
          ins acc b) ->
  In w (acc b)
  \/ (exists m, In m ins /\ part_index m = b /\ chip_pin m = w
                /\ is_constant w = false
                /\ is_chip_input d w = false
                /\ is_chip_output d w = false).
Proof.
  induction ins as [|m0 ins IH]; intros acc b w H; cbn [fold_left] in H.
  - now left.
  - apply IH in H as [H|(m & Hin & Hrest)].
    + destruct (is_constant (chip_pin m0)) eqn:Hc; [now left|].
      destruct (is_chip_input d (chip_pin m0)) eqn:Hi; [now left|].
      destruct (is_chip_output d (chip_pin m0)) eqn:Ho; [now left|].
      cbn [negb andb] in H. unfold vset in H.
      destruct (Nat.eqb_spec b (part_index m0)) as [->|_]; [|now left].
      apply set_insert_in in H as [->|H]; [|now left].
      right. exists m0. split; [now left|]. auto 10.
    + right. exists m. split; [now right|]. exact Hrest.
Qed.

Lemma dependency_pairs_in n part_inputs part_outputs a b :
  In (a, b) (dependency_pairs n part_inputs part_outputs) <->
  (a < n)%nat /\ (b < n)%nat /\ a <> b
  /\ exists w, In w (part_inputs b) /\ In w (part_outputs a).
Proof.
  unfold dependency_pairs. rewrite in_flat_map. split.
  - intros (b' & Hb' & H). apply in_flat_map in H as (w & Hw & H).
    apply in_flat_map in H as (a' & Ha' & H).
    destruct (negb (Nat.eqb a' b') && set_count w (part_outputs a')) eqn:C;
      [|contradiction].
    destruct H as [H|[]]. inversion H; subst a' b'.
    apply andb_prop in C as [Hne Hcount].
    apply negb_true_iff, Nat.eqb_neq in Hne.
    apply set_count_in in Hcount. apply in_seq in Ha', Hb'.
    repeat split; try lia. now exists w.
  - intros (Ha & Hb & Hne & w & Hin & Hout).
    exists b. split; [apply in_seq; lia|].
    apply in_flat_map. exists w. split; [exact Hin|].
    apply in_flat_map. exists a. split; [apply in_seq; lia|].
    apply Nat.eqb_neq in Hne. rewrite Hne. cbn [negb andb].
    apply set_count_in in Hout. rewrite Hout. now left.
Qed.

Lemma wire_connections_range pi sub_def conns : forall ins outs ins' outs',
  wire_connections pi sub_def conns ins outs = (ins', outs') ->
  (forall m, In m (ins ++ outs) -> (part_index m <= pi)%nat) ->
  forall m, In m (ins' ++ outs') -> (part_index m <= pi)%nat.
Proof.
  induction conns as [|conn more IH]; intros ins outs ins' outs' H Hold.
  - cbn in H. inversion H; subst. exact Hold.
  - cbn [wire_connections] in H.
    destruct (is_constant (name (external conn)));
      [|destruct (has_port (inputs sub_def) (name (internal conn)))];
      (eapply IH; [exact H|]); intros m Hm;
      repeat (apply in_app_or in Hm as [Hm|Hm]);
      try (apply Hold; apply in_or_app; auto; fail);
      destruct Hm as [<-|[]]; cbn; lia.
Qed.

Lemma build_parts_range resolver ps : forall pi subs ins outs subs' ins' outs',
  build_parts resolver ps pi subs ins outs = Return (subs', ins', outs') ->
  List.length subs = pi ->
  (forall m, In m (ins ++ outs) -> (part_index m < pi)%nat) ->
  forall m, In m (ins' ++ outs') -> (part_index m < List.length subs')%nat.
Proof.
  induction ps as [|part more IH];
    intros pi subs ins outs subs' ins' outs' H Hlen Hold.
  - cbn in H. inversion H; subst. exact Hold.
  - cbn [build_parts] in H.
    destruct (resolver (chip_name part)) as [sub_def|]; [|discriminate].
    destruct (wire_connections pi sub_def (connections part) ins outs)
      as [ins1 outs1] eqn:W.
    eapply IH; [exact H| |].
    + rewrite length_app. cbn. lia.
    + intros m Hm.
      pose proof (wire_connections_range _ _ _ _ _ _ _ W) as Hr.
      assert (part_index m <= pi)%nat; [|lia].
      apply Hr; [|exact Hm]. intros m' Hm'. specialize (Hold m' Hm'). lia.
Qed.

End Wiring.

Section EvalOrder.
Import Vocabulary HDL.

Lemma initial_invariant n E :
  Z.of_nat (List.length E) < 2 ^ 64 ->
  kahn_invariant n E (snd (build_graph E))
    (filter (fun i => snd (build_graph E) i =? 0) (seq 0 n)) [].
Proof.
  intros Hsmall. destruct (build_graph_spec E Hsmall) as [_ Hdeg].
  constructor.
  - exact Hdeg.
  - intros v Hv. apply filter_In in Hv as [_ Hz]. now apply Z.eqb_eq.
  - cbn [app]. apply NoDup_filter, seq_NoDup.
  - cbn [app]. intros v Hv. apply filter_In in Hv as [Hv _].
    apply in_seq in Hv. lia.
  - intros a b _ [].
  - cbn [app]. intros v Hv Hz. apply filter_In. split.
    + apply in_seq. lia.
    + now apply Z.eqb_eq.
Qed.

(** C7, as the code has it.  For a chip whose parts all resolve (and with
    fewer than 2^64 dependency pairs, so that the in-degree counters hold
    their counts), the construction succeeds with no error in every case
    and the queue loop of Kahn's algorithm ends.  If it has ordered all
    the parts, the evaluation order is its order, and every part that
    reads an internal wire comes after every other part that writes that
    wire.  If it has not, the evaluation order is the source order
    0 .. n-1, and every part it left out reads an internal wire written by
    another part it left out: the parts depend on each other in a
    circle. *)
Theorem eval_order_follows_internal_wires
    (d : HDLChipDef) (resolver : ChipResolver)
    (subs : list HDLChipDef) (ins outs : list WireMapping) :
  build_wiring d resolver = Return (subs, ins, outs) ->
  Z.of_nat (List.length (dependencies d (List.length subs) ins outs))
  < 2 ^ 64 ->
  let n := List.length subs in
  exists order chip,
    kahn_order d n ins outs = Some order
    /\ construct d resolver = Built chip
    /\ chip = mkChip d subs ins outs
                (if Nat.eqb (List.length order) n then order else seq 0 n)
    /\ (List.length order = n ->
        forall a b w,
          a <> b -> part_writes chip a w -> part_reads chip b w ->
          internal_wire chip w ->
          before a b (eval_order chip))
    /\ (List.length order <> n ->
        eval_order chip = seq 0 n
        /\ forall b, (b < n)%nat -> ~ In b order ->
             exists a w,
               a <> b /\ ~ In a order
               /\ part_writes chip a w /\ part_reads chip b w
               /\ internal_wire chip w).
Proof.
  intros Hbuild Hsmall n.
  set (E := dependencies d n ins outs) in *.
  assert (Hrange : forall m, In m (ins ++ outs) -> (part_index m < n)%nat).
  { unfold build_wiring in Hbuild.
    apply (build_parts_range _ _ _ _ _ _ _ _ _ Hbuild); [reflexivity|].
    intros m []. }
  assert (Hedges : forall a b, In (a, b) E -> (b < n)%nat).
  { intros a b H. apply dependency_pairs_in in H. tauto. }
  destruct (build_graph_spec E Hsmall) as [Hadj _].
  destruct (kahn_total n E (fst (build_graph E)) Hedges Hsmall Hadj n
              (snd (build_graph E))
              (filter (fun i => snd (build_graph E) i =? 0) (seq 0 n)) []
              (initial_invariant n E Hsmall))
    as (order & Hkahn & Hnd & Hlt & Hord & Hleft); [cbn; lia|].
  assert (Hko : kahn_order d n ins outs = Some order).
  { unfold kahn_order. fold E.
    destruct (build_graph E) as [adj deg]. exact Hkahn. }
  exists order.
  exists (mkChip d subs ins outs
            (if Nat.eqb (List.length order) n then order else seq 0 n)).
  split; [exact Hko|]. split; [|split; [reflexivity|split]].
  - unfold construct. rewrite Hbuild. unfold compute_eval_order.
    fold n. rewrite Hko.
    destruct n as [|n'] eqn:En.
    + destruct order as [|v order]; [reflexivity|].
      exfalso. specialize (Hlt v (or_introl eq_refl)). lia.
    + destruct (Nat.eqb (List.length order) (S n')); reflexivity.
  - intros Hlen a b w Hne (mo & Hmo & Hmoa & Hmow)
           (mi & Hmi & Hmib & Hmiw & Hconst) [Hin Hout].
    cbn [output_mappings input_mappings def eval_order] in *.
    rewrite Hlen, Nat.eqb_refl.
    assert (Ha : (a < n)%nat)
      by (subst a; apply Hrange, in_or_app; now right).
    assert (Hb : (b < n)%nat)
      by (subst b; apply Hrange, in_or_app; now left).
    assert (Hedge : In (a, b) E).
    { apply dependency_pairs_in. repeat split; try assumption.
      exists w. split.
      - apply collect_inputs_in. right. exists mi. auto 10.
      - apply collect_outputs_in. right. now exists mo. }
    apply (Hord a b Hedge).
    assert (Hall : incl (seq 0 n) order).
    { apply NoDup_length_incl; [exact Hnd|rewrite length_seq; lia|].
      intros v Hv. apply in_seq. specialize (Hlt v Hv). lia. }
    apply Hall, in_seq. lia.
  - intros Hlen. cbn [eval_order].
    apply Nat.eqb_neq in Hlen. rewrite Hlen. split; [reflexivity|].
    intros b Hb Hout. destruct (Hleft b Hb Hout) as (a & Hedge & Haout).
    apply dependency_pairs_in in Hedge as (Ha & _ & Hne & w & Hwin & Hwout).
    apply collect_inputs_from in Hwin
      as [[]|(mi & Hmi & Hmib & Hmiw & Hc & Hi & Ho)].
    apply collect_outputs_from in Hwout as [[]|(mo & Hmo & Hmoa & Hmow)].
    exists a, w. split; [exact Hne|]. split; [exact Haout|].
    split; [|split].
    + exists mo. cbn. auto.
    + exists mi. cbn. auto.
    + split; assumption.
Qed.

Lemma eval_order_follows_internal_wires_witness :
  (exists chip,
      construct chain_def test_resolver = Built chip
      /\ eval_order chip = [1; 0]%nat
      /\ before 1 0 (eval_order chip))
  /\ (exists chip,
      construct ring_def test_resolver = Built chip
      /\ eval_order chip = [0; 1]%nat).
Proof.
  split.
  - destruct (eval_order_follows_internal_wires chain_def test_resolver
                [not_def; not_def]
                [mkMapping 0 "in" (-1) (-1) "w" (-1) (-1) true;
                 mkMapping 1 "in" (-1) (-1) "x" (-1) (-1) true]
                [mkMapping 0 "out" (-1) (-1) "y" (-1) (-1) false;
                 mkMapping 1 "out" (-1) (-1) "w" (-1) (-1) false])
      as (order & chip & Hko & Hc & Hchip & Hdep & _).
    + reflexivity.
    + vm_compute. reflexivity.
    + vm_compute in Hko. inversion Hko; subst order. clear Hko.
      exists chip. split; [exact Hc|]. split; [now subst chip|].
      apply (Hdep eq_refl 1%nat 0%nat "w"%string).
      * discriminate.
      * subst chip. eexists. split; [right; left; reflexivity|]. now split.
      * subst chip. eexists. split; [left; reflexivity|]. now repeat split.
      * subst chip. split; reflexivity.
  - destruct (eval_order_follows_internal_wires ring_def test_resolver
                [not_def; not_def]
                [mkMapping 0 "in" (-1) (-1) "w2" (-1) (-1) true;
                 mkMapping 1 "in" (-1) (-1) "w1" (-1) (-1) true]
                [mkMapping 0 "out" (-1) (-1) "w1" (-1) (-1) false;
                 mkMapping 1 "out" (-1) (-1) "w2" (-1) (-1) false])
      as (order & chip & Hko & Hc & Hchip & _ & Hfall).
    + reflexivity.
    + vm_compute. reflexivity.
    + vm_compute in Hko. inversion Hko; subst order. clear Hko.
      exists chip. split; [exact Hc|].
      destruct Hfall as [Horder _]; [discriminate|exact Horder].
Defined.

(** C7 as stated fails.  In the ring of two inverters, part 0 reads the
    internal wire w2 that part 1 writes; the chip is built with no error,
    and its evaluation order is the source order, where part 1 does not
    come before part 0.  And a wire that is an output of the chip does not
    count: in [Not(in=y, out=w); Not(in=x, out=y)], where y is the chip's
    output, part 0 reads y, part 1 writes it, and part 0 is evaluated
    first. *)
Lemma cycle_is_not_reported :
  (exists chip,
      construct ring_def test_resolver = Built chip
      /\ eval_order chip = [0; 1]%nat
      /\ part_writes chip 1 "w2" /\ part_reads chip 0 "w2"
      /\ internal_wire chip "w2"
      /\ ~ before 1 0 (eval_order chip))
  /\ (exists chip,
      construct feedback_def test_resolver = Built chip
      /\ eval_order chip = [0; 1]%nat
      /\ part_writes chip 1 "y" /\ part_reads chip 0 "y"
      /\ ~ before 1 0 (eval_order chip)).
Proof.
  assert (Hnot : ~ before 1 0 [0; 1]%nat).
  { intros (l1 & l2 & Heq & Hin).
    destruct l1 as [|x [|y l1]]; cbn in Heq.
    - contradiction.
    - inversion Heq.
    - inversion Heq as [[Hx Hy Hrest]]. destruct l1; discriminate. }
  split.
  - eexists. split; [vm_compute; reflexivity|]. cbn [eval_order].
    split; [reflexivity|]. split; [|split; [|split]].
    + eexists. split; [right; left; reflexivity|]. now split.
    + eexists. split; [left; reflexivity|]. now repeat split.
    + split; reflexivity.
    + exact Hnot.
  - eexists. split; [vm_compute; reflexivity|]. cbn [eval_order].
    split; [reflexivity|]. split; [|split].
    + eexists. split; [right; left; reflexivity|]. now split.
    + eexists. split; [left; reflexivity|]. now repeat split.
    + exact Hnot.
Qed.

End EvalOrder.

(** ** The decoder's validation and the ALU *)

Section Checked.
Import Instruction Validation.

Lemma comp_field_range w :
  0 <= to_u8 (Z.land (Z.shiftr w 6) 127) < 128.
Proof.
  assert (H : 0 <= Z.land (Z.shiftr w 6) 127 < 128).
  { change 127 with (Z.ones 7). rewrite Z.land_ones by lia.
    change (2 ^ 7) with 128. apply Z.mod_pos_bound. lia. }
  unfold to_u8. rewrite Z.mod_small by lia. exact H.
Qed.

Lemma alu_defined_iff_valid pc c d am :
  (is_valid_computation c = true
   /\ exists r, CPU.compute_alu pc c d am = Return r)
  \/ (is_valid_computation c = false
      /\ CPU.compute_alu pc c d am = Raise (RuntimeError (MsgInvalidALU pc))).
Proof.
  unfold CPU.compute_alu, CPU.is_one_of. cbn [existsb].
  repeat match goal with
  | |- context [if (c =? ?k) then _ else _] =>
      destruct (Z.eqb_spec c k) as [->|?];
        [left; split; [reflexivity | eexists; reflexivity]|]
  | |- context [if (c =? ?k) || ((c =? ?k') || false) then _ else _] =>
      destruct (Z.eqb_spec c k) as [->|?];
        [left; split; [reflexivity | eexists; reflexivity]|];
      destruct (Z.eqb_spec c k') as [->|?];
        [left; split; [reflexivity | eexists; reflexivity]|];
      cbn [orb]
  end.
  right. split; [|reflexivity].
  unfold is_valid_computation. destruct (c >=? 128); [reflexivity|].
  unfold VALID_COMP, valid_comp_entries. cbn [existsb].
  unfold ZERO, ONE, NEG_ONE, D, A, NOT_D, NOT_A, NEG_D, NEG_A, D_PLUS_1,
    A_PLUS_1, D_MINUS_1, A_MINUS_1, D_PLUS_A, D_MINUS_A, A_MINUS_D, D_AND_A,
    D_OR_A, M, NOT_M, NEG_M, M_PLUS_1, M_MINUS_1, D_PLUS_M, D_MINUS_M,
    M_MINUS_D, D_AND_M, D_OR_M in *.
  repeat match goal with
  | |- context [c =? ?k] =>
      replace (c =? k) with false by (symmetry; apply Z.eqb_neq; lia)
  end.
  reflexivity.
Qed.

(** X1.  The validating decoder and the ALU agree on what a computation
    is.  An instruction word that [decode_instruction_checked] accepts as a
    C-instruction never makes [compute_alu] throw, whatever the operands;
    one it rejects always does, and the rejection reports the 7-bit
    computation field of the word.  A-instructions are always accepted. *)
Theorem checked_decoder_agrees_with_alu (w pc d am : Z) :
  match decode_instruction_checked w with
  | Decoded i =>
      i = decode_instruction w
      /\ (type i = C_INSTRUCTION ->
          exists r, CPU.compute_alu pc (comp i) d am = Return r)
  | InvalidComputation f l c w' =>
      f = "<rom>"%string /\ l = 0 /\ w' = w
      /\ type (decode_instruction w) = C_INSTRUCTION
      /\ c = Z.land (Z.shiftr w 6) 127
      /\ CPU.compute_alu pc c d am = Raise (RuntimeError (MsgInvalidALU pc))
  end.
Proof.
  unfold decode_instruction_checked, decode_instruction.
  destruct (negb (nonzero (Z.land w 32768))); cbv beta zeta; cbn [type comp].
  - split; [reflexivity|discriminate].
  - pose proof (comp_field_range w) as Hr.
    assert (E : to_u8 (to_u8 (Z.land (Z.shiftr w 6) 127))
                = to_u8 (Z.land (Z.shiftr w 6) 127)).
    { unfold to_u8 at 1. apply Z.mod_small. lia. }
    rewrite E.
    assert (E' : to_u8 (Z.land (Z.shiftr w 6) 127)
                 = Z.land (Z.shiftr w 6) 127).
    { unfold to_u8. apply Z.mod_small.
      change 127 with (Z.ones 7). rewrite Z.land_ones by lia.
      change (2 ^ 7) with 128.
      pose proof (Z.mod_pos_bound (Z.shiftr w 6) 128). lia. }
    destruct (alu_defined_iff_valid pc
                (to_u8 (Z.land (Z.shiftr w 6) 127)) d am)
      as [[Hv Hex]|[Hv Hr']]; rewrite Hv; cbn [negb type comp].
    + split; [reflexivity|]. intros _. exact Hex.
    + split; [reflexivity|]. split; [reflexivity|]. split; [reflexivity|].
      split; [reflexivity|]. split; [exact E'|exact Hr'].
Qed.

End Checked.

(** ** The ALU and the jump condition on 16-bit words *)

Section ALU.
Import Instruction.

Lemma to_int16_mod z : to_int16 z mod 65536 = z mod 65536.
Proof.
  unfold to_int16. destruct (z mod 65536 <? 32768).
  - apply Z.mod_mod. lia.
  - rewrite Zminus_mod, Z_mod_same_full, Z.sub_0_r, !Z.mod_mod by lia.
    reflexivity.
Qed.

Lemma word_of_int16 x y :
  x mod 65536 = y mod 65536 -> to_word (to_int16 x) = y mod 65536.
Proof. intros H. unfold to_word. now rewrite to_int16_mod. Qed.

Lemma testbit_to_int16 z i :
  0 <= i < 16 -> Z.testbit (to_int16 z) i = Z.testbit z i.
Proof.
  intros Hi.
  rewrite <- (Z.mod_pow2_bits_low (to_int16 z) 16 i) by lia.
  rewrite <- (Z.mod_pow2_bits_low z 16 i) by lia.
  change (2 ^ 16) with 65536. now rewrite to_int16_mod.
Qed.

Lemma testbit_word_high w i :
  0 <= w < 65536 -> 16 <= i -> Z.testbit w i = false.
Proof.
  intros Hw Hi.
  rewrite <- (Z.mod_small w (2 ^ 16))
    by (change (2 ^ 16) with 65536; lia).
  apply Z.mod_pow2_bits_high. lia.
Qed.

Lemma bitwise_on_words (op : Z -> Z -> Z) (f : bool -> bool -> bool) d a :
  (forall x y i, 0 <= i ->
     Z.testbit (op x y) i = f (Z.testbit x i) (Z.testbit y i)) ->
  f false false = false ->
  0 <= d < 65536 -> 0 <= a < 65536 ->
  to_word (to_int16 (op (to_int16 d) (to_int16 a))) = op d a.
Proof.
  intros Hop Hf Hd Ha. unfold to_word. rewrite to_int16_mod.
  apply Z.bits_inj'. intros i Hi. change 65536 with (2 ^ 16).
  destruct (Z.ltb_spec i 16).
  - rewrite Z.mod_pow2_bits_low by lia.
    rewrite !Hop, !testbit_to_int16 by lia. reflexivity.
  - rewrite Z.mod_pow2_bits_high by lia.
    rewrite Hop, !testbit_word_high by lia. now rewrite Hf.
Qed.

(** X2.  On 16-bit words the ALU is arithmetic modulo 2^16: the casts to
    [int16_t] and back do not show.  Each of the eighteen computations on
    A gives the value below, and each computation on M is the computation
    on A whose code is 64 less, applied to the memory operand. *)
Theorem alu_is_arithmetic_modulo_65536 (pc d a : Z) :
  0 <= d < 65536 -> 0 <= a < 65536 ->
  CPU.compute_alu pc ZERO d a = Return 0
  /\ CPU.compute_alu pc ONE d a = Return 1
  /\ CPU.compute_alu pc NEG_ONE d a = Return 65535
  /\ CPU.compute_alu pc D d a = Return d
  /\ CPU.compute_alu pc A d a = Return a
  /\ CPU.compute_alu pc NOT_D d a = Return (65535 - d)
  /\ CPU.compute_alu pc NOT_A d a = Return (65535 - a)
  /\ CPU.compute_alu pc NEG_D d a = Return ((- d) mod 65536)
  /\ CPU.compute_alu pc NEG_A d a = Return ((- a) mod 65536)
  /\ CPU.compute_alu pc D_PLUS_1 d a = Return ((d + 1) mod 65536)
  /\ CPU.compute_alu pc A_PLUS_1 d a = Return ((a + 1) mod 65536)
  /\ CPU.compute_alu pc D_MINUS_1 d a = Return ((d - 1) mod 65536)
  /\ CPU.compute_alu pc A_MINUS_1 d a = Return ((a - 1) mod 65536)
  /\ CPU.compute_alu pc D_PLUS_A d a = Return ((d + a) mod 65536)
  /\ CPU.compute_alu pc D_MINUS_A d a = Return ((d - a) mod 65536)
  /\ CPU.compute_alu pc A_MINUS_D d a = Return ((a - d) mod 65536)
  /\ CPU.compute_alu pc D_AND_A d a = Return (Z.land d a)
  /\ CPU.compute_alu pc D_OR_A d a = Return (Z.lor d a)
  /\ (forall c,
        In c [A; NOT_A; NEG_A; A_PLUS_1; A_MINUS_1; D_PLUS_A; D_MINUS_A;
              A_MINUS_D; D_AND_A; D_OR_A] ->
        CPU.compute_alu pc (c + 64) d a = CPU.compute_alu pc c d a).
Proof.
  intros Hd Ha.
  assert (Hid : forall x, 0 <= x < 65536 ->
            to_word (to_int16 (to_int16 x)) = x).
  { intros x Hx. rewrite (word_of_int16 _ x) by apply to_int16_mod.
    apply Z.mod_small. lia. }
  assert (Hnot : forall x, 0 <= x < 65536 ->
            to_word (to_int16 (Z.lnot (to_int16 x))) = 65535 - x).
  { intros x Hx. rewrite (word_of_int16 _ (65535 - x)).
    - apply Z.mod_small. lia.
    - unfold Z.lnot. replace (Z.pred (- to_int16 x))
        with (65535 - to_int16 x + (-1) * 65536) by lia.
      rewrite Z.mod_add by lia. rewrite Zminus_mod, to_int16_mod, <- Zminus_mod.
      reflexivity. }
  assert (Hneg : forall x, to_word (to_int16 (- to_int16 x)) = (- x) mod 65536).
  { intros x. apply word_of_int16.
    rewrite <- (Z.sub_0_l (to_int16 x)), <- (Z.sub_0_l x).
    rewrite Zminus_mod, to_int16_mod, <- Zminus_mod. reflexivity. }
  assert (Hadd : forall x y,
            to_word (to_int16 (to_int16 x + to_int16 y))
            = (x + y) mod 65536).
  { intros x y. apply word_of_int16.
    rewrite Zplus_mod, !to_int16_mod, <- Zplus_mod. reflexivity. }
  assert (Hsub : forall x y,
            to_word (to_int16 (to_int16 x - to_int16 y))
            = (x - y) mod 65536).
  { intros x y. apply word_of_int16.
    rewrite Zminus_mod, !to_int16_mod, <- Zminus_mod. reflexivity. }
  assert (Hinc : forall x,
            to_word (to_int16 (to_int16 x + 1)) = (x + 1) mod 65536).
  { intros x. apply word_of_int16.
    rewrite Zplus_mod, to_int16_mod, <- Zplus_mod. reflexivity. }
  assert (Hdec : forall x,
            to_word (to_int16 (to_int16 x - 1)) = (x - 1) mod 65536).
  { intros x. apply word_of_int16.
    rewrite Zminus_mod, to_int16_mod, <- Zminus_mod. reflexivity. }
  assert (Hand : to_word (to_int16 (Z.land (to_int16 d) (to_int16 a)))
                 = Z.land d a).
  { apply (bitwise_on_words Z.land andb); try assumption; [|reflexivity].
    intros; apply Z.land_spec. }
  assert (Hor : to_word (to_int16 (Z.lor (to_int16 d) (to_int16 a)))
                = Z.lor d a).
  { apply (bitwise_on_words Z.lor orb); try assumption; [|reflexivity].
    intros; apply Z.lor_spec. }
  unfold CPU.compute_alu; cbn.
  rewrite ?Hid, ?Hnot, ?Hneg, ?Hadd, ?Hsub, ?Hinc, ?Hdec, ?Hand, ?Hor
    by assumption.
  repeat (split; [reflexivity|]).
  intros c Hc. cbn in Hc.
  repeat (destruct Hc as [<-|Hc]; [reflexivity|]). destruct Hc.
Qed.

Lemma alu_is_arithmetic_modulo_65536_witness :
  CPU.compute_alu 0 D_PLUS_A 65535 1 = Return 0
  /\ CPU.compute_alu 0 D_MINUS_1 0 7 = Return 65535
  /\ CPU.compute_alu 0 M_MINUS_D 3 2 = Return 65535.
Proof.
  assert (H : 0 <= 65535 < 65536 /\ 0 <= 1 < 65536) by lia.
  destruct H as [Hd Ha].
  destruct (alu_is_arithmetic_modulo_65536 0 65535 1 Hd Ha)
    as (_ & _ & _ & _ & _ & _ & _ & _ & _ & _ & _ & _ & _ & Hadd & _).
  split; [exact Hadd|]. split; reflexivity.
Defined.

(** X3.  The three jump bits select the sign conditions of the Hack
    mnemonics on the ALU output read as a signed 16-bit value, and that
    value is negative exactly for the words from 32768 on. *)
Theorem jump_mnemonics (out : Z) :
  let v := to_int16 out in
  CPU.should_jump NO_JUMP out = false
  /\ CPU.should_jump JGT out = (0 <? v)
  /\ CPU.should_jump JEQ out = (v =? 0)
  /\ CPU.should_jump JGE out = (0 <=? v)
  /\ CPU.should_jump JLT out = (v <? 0)
  /\ CPU.should_jump JNE out = negb (v =? 0)
  /\ CPU.should_jump JLE out = (v <=? 0)
  /\ CPU.should_jump JMP out = true
  /\ (v <? 0) = (32768 <=? out mod 65536).
Proof.
  intro v. unfold CPU.should_jump; cbn. fold v.
  rewrite !andb_true_r, !andb_false_r, !orb_false_r. cbn [orb].
  rewrite Z.gtb_ltb.
  assert (Hs : (v <? 0) = (32768 <=? out mod 65536)).
  { unfold v, to_int16. pose proof (Z.mod_pos_bound out 65536).
    destruct (Z.ltb_spec (out mod 65536) 32768);
      destruct (Z.leb_spec 32768 (out mod 65536));
      destruct (Z.ltb_spec (out mod 65536) 0);
      destruct (Z.ltb_spec (out mod 65536 - 65536) 0); try reflexivity; lia. }
  repeat split; try reflexivity; try exact Hs;
    destruct (Z.ltb_spec v 0); destruct (Z.eqb_spec v 0);
    destruct (Z.ltb_spec 0 v); destruct (Z.leb_spec 0 v);
    destruct (Z.leb_spec v 0); try reflexivity; lia.
Qed.

End ALU.

(** ** Layout of an instruction word *)

Section Layout.
Import Instruction Validation.

Lemma nonzero_land_bit x k :
  0 <= k -> nonzero (Z.land x (2 ^ k)) = Z.testbit x k.
Proof.
  intros Hk.
  assert (E : Z.land x (2 ^ k) = Z.b2z (Z.testbit x k) * 2 ^ k).
  { apply Z.bits_inj'. intros i Hi.
    rewrite Z.land_spec, Z.pow2_bits_eqb by lia.
    destruct (Z.eqb_spec k i) as [->|Hne].
    - rewrite andb_true_r. destruct (Z.testbit x i); cbn [Z.b2z].
      + rewrite Z.mul_1_l, Z.pow2_bits_true by lia. reflexivity.
      + rewrite Z.mul_0_l, Z.bits_0. reflexivity.
    - rewrite andb_false_r. destruct (Z.testbit x k); cbn [Z.b2z].
      + rewrite Z.mul_1_l, Z.pow2_bits_false by lia. reflexivity.
      + rewrite Z.mul_0_l, Z.bits_0. reflexivity. }
  rewrite E. unfold nonzero.
  pose proof (Z.pow_pos_nonneg 2 k). destruct (Z.testbit x k); cbn [Z.b2z].
  - rewrite Z.mul_1_l. destruct (Z.eqb_spec (2 ^ k) 0); [lia|reflexivity].
  - reflexivity.
Qed.

Lemma field_value w k m :
  0 <= k -> 0 <= m <= 8 ->
  to_u8 (Z.land (Z.shiftr w k) (Z.ones m)) = (w / 2 ^ k) mod 2 ^ m.
Proof.
  intros Hk Hm. rewrite Z.land_ones, Z.shiftr_div_pow2 by lia.
  unfold to_u8. apply Z.mod_small.
  pose proof (Z.mod_pos_bound (w / 2 ^ k) (2 ^ m)).
  assert (2 ^ m <= 2 ^ 8) by (apply Z.pow_le_mono_r; lia).
  change (2 ^ 8) with 256 in *.
  assert (0 < 2 ^ m) by (apply Z.pow_pos_nonneg; lia). lia.
Qed.

Lemma field_bit w k m i :
  0 <= k -> 0 <= m <= 8 -> 0 <= i < m ->
  nonzero (Z.land (to_u8 (Z.land (Z.shiftr w k) (Z.ones m))) (2 ^ i))
  = Z.testbit w (k + i).
Proof.
  intros Hk Hm Hi. rewrite nonzero_land_bit by lia.
  rewrite field_value by lia.
  rewrite Z.mod_pow2_bits_low by lia.
  rewrite <- Z.shiftr_div_pow2, Z.shiftr_spec by lia.
  f_equal. lia.
Qed.

(** X4.  The layout of an instruction word.  A word below 32768 is an
    A-instruction whose value is the word itself, so decoding the word of
    [@k] gives [k] back; the validating decoder accepts it.  A word from
    32768 on is a C-instruction: the computation is bits 12..6, the
    destination flags A, D, M are bits 5, 4, 3, the jump is bits 2..0, and
    the a-bit (bit 12) says whether M is read. *)
Theorem instruction_word_layout (w : Z) :
  0 <= w < 65536 ->
  (w < 32768 ->
     decode_instruction w
     = mkDecoded A_INSTRUCTION w 0 (mkDest false false false) 0 false
     /\ decode_instruction_checked w = Decoded (decode_instruction w))
  /\ (32768 <= w ->
     decode_instruction w
     = mkDecoded C_INSTRUCTION 0 ((w / 64) mod 128)
         (mkDest (Z.testbit w 5) (Z.testbit w 4) (Z.testbit w 3))
         (w mod 8) (Z.testbit w 12)).
Proof.
  intros Hw.
  assert (Hbit : nonzero (Z.land w 32768) = (32768 <=? w)).
  { change 32768 with (2 ^ 15) at 1. rewrite nonzero_land_bit by lia.
    destruct (Z.leb_spec 32768 w).
    - apply Z.testbit_true; [lia|]. change (2 ^ 15) with 32768.
      assert (E : w / 32768 = 1) by (Z.div_mod_to_equations; lia).
      now rewrite E.
    - apply Z.testbit_false; [lia|]. change (2 ^ 15) with 32768.
      now rewrite Z.div_small by lia. }
  split; intros Hlt.
  - assert (E : decode_instruction w
       = mkDecoded A_INSTRUCTION w 0 (mkDest false false false) 0 false).
    { unfold decode_instruction. rewrite Hbit.
      replace (32768 <=? w) with false by (symmetry; apply Z.leb_gt; lia).
      cbn [negb]. change 32767 with (Z.ones 15). rewrite Z.land_ones by lia.
      change (2 ^ 15) with 32768. now rewrite Z.mod_small by lia. }
    split; [exact E|].
    unfold decode_instruction_checked. rewrite E. reflexivity.
  - unfold decode_instruction. rewrite Hbit.
    replace (32768 <=? w) with true by (symmetry; apply Z.leb_le; lia).
    cbn [negb]. cbv zeta.
    assert (Hc : to_u8 (Z.land (Z.shiftr w 6) 127) = (w / 64) mod 128)
      by (apply (field_value w 6 7); lia).
    assert (Hj : to_u8 (Z.land w 7) = w mod 8).
    { pose proof (field_value w 0 3) as H. rewrite Z.shiftr_0_r in H.
      change (2 ^ 0) with 1 in H. rewrite Z.div_1_r in H. apply H; lia. }
    assert (Hda : nonzero (Z.land (to_u8 (Z.land (Z.shiftr w 3) 7)) 4)
                  = Z.testbit w 5) by (apply (field_bit w 3 3 2); lia).
    assert (Hdd : nonzero (Z.land (to_u8 (Z.land (Z.shiftr w 3) 7)) 2)
                  = Z.testbit w 4) by (apply (field_bit w 3 3 1); lia).
    assert (Hdm : nonzero (Z.land (to_u8 (Z.land (Z.shiftr w 3) 7)) 1)
                  = Z.testbit w 3) by (apply (field_bit w 3 3 0); lia).
    assert (Hm : nonzero (Z.land (to_u8 (Z.land (Z.shiftr w 6) 127)) 64)
                 = Z.testbit w 12) by (apply (field_bit w 6 7 6); lia).
    rewrite Hda, Hdd, Hdm, Hm, Hj, Hc. reflexivity.
Qed.

Lemma instruction_word_layout_witness :
  decode_instruction 5
  = mkDecoded A_INSTRUCTION 5 0 (mkDest false false false) 0 false
  /\ decode_instruction 64528
     = mkDecoded C_INSTRUCTION 0 112 (mkDest false true false) 0 true.
Proof.
  split.
  - apply (instruction_word_layout 5); lia.
  - apply (instruction_word_layout 64528); lia.
Defined.

End Layout.

(** ** CPU memory: RAM, ROM and the text of a word *)

Section RamAndRom.
Import CPUMem Notions.

(** X5.  RAM of the CPU: a write inside the 32K words is read back, leaves
    every other word, the ROM and the program size alone, and raises the
    screen dirty flag exactly when the address is one of the 8192 screen
    words; it never clears the flag. *)
Theorem ram_write_then_read (m : CPUMemory) (a v : Z) :
  0 <= a < RAM_SIZE ->
  exists m',
    write_ram m a v = Return m'
    /\ read_ram m' a = Return v
    /\ (forall b, b <> a -> read_ram m' b = read_ram m b)
    /\ rom m' = rom m
    /\ program_size m' = program_size m
    /\ screen_dirty m'
       = screen_dirty m || ((SCREEN_BASE <=? a) && (a <? KEYBOARD)).
Proof.
  intros Ha. unfold RAM_SIZE in Ha. unfold write_ram, read_ram.
  rewrite (geb_false a) by (unfold RAM_SIZE; lia).
  rewrite Z.geb_leb. change (SCREEN_BASE + SCREEN_SIZE) with KEYBOARD.
  destruct ((SCREEN_BASE <=? a) && (a <? KEYBOARD)); eexists;
    (split; [reflexivity|]); cbn [ram rom program_size screen_dirty
                                  set_ram set_screen_dirty];
    rewrite upd_same;
    (split; [reflexivity|]);
    (split; [intros b Hb; rewrite upd_other by exact Hb; reflexivity|]);
    (split; [reflexivity|]); (split; [reflexivity|]).
  - now rewrite orb_true_r.
  - now rewrite orb_false_r.
Qed.

Lemma ram_write_then_read_witness :
  exists m',
    write_ram (mkMem zeros zeros 0 false) 16384 65535 = Return m'
    /\ read_ram m' 16384 = Return 65535
    /\ screen_dirty m' = true.
Proof.
  destruct (ram_write_then_read (mkMem zeros zeros 0 false) 16384 65535)
    as (m' & Hw & Hr & _ & _ & _ & Hd); [unfold RAM_SIZE; lia|].
  exists m'. split; [exact Hw|]. split; [exact Hr|]. rewrite Hd. reflexivity.
Defined.

Lemma parse_bits_range cs : forall i result line_number w,
  0 <= result < 65536 ->
  parse_bits cs i result line_number = Return w -> 0 <= w < 65536.
Proof.
  induction cs as [|c cs IH]; intros i r ln w Hr H; cbn in H.
  - inversion H; subst. exact Hr.
  - destruct (Ascii.eqb c "1").
    + eapply IH; [|exact H]. unfold to_word. apply Z.mod_pos_bound. lia.
    + destruct (negb (Ascii.eqb c "0")); [discriminate|].
      eapply IH; eassumption.
Qed.

Lemma parse_binary_line_range line line_number w :
  parse_binary_line line line_number = Return w -> 0 <= w < 65536.
Proof.
  unfold parse_binary_line.
  destruct (negb (Z.of_nat (String.length line) =? 16)); [discriminate|].
  apply parse_bits_range. lia.
Qed.

Lemma bits_msb_length n w : String.length (bits_msb n w) = n.
Proof. induction n; cbn; congruence. Qed.

Lemma to_word_lor a b :
  0 <= a < 65536 -> 0 <= b < 65536 -> to_word (Z.lor a b) = Z.lor a b.
Proof.
  intros Ha Hb. unfold to_word. change 65536 with (2 ^ 16).
  apply Z.bits_inj'. intros i Hi. destruct (Z.ltb_spec i 16).
  - now rewrite Z.mod_pow2_bits_low by lia.
  - rewrite Z.mod_pow2_bits_high, Z.lor_spec, !testbit_word_high by lia.
    reflexivity.
Qed.

Lemma parse_bits_msb n : forall w result line_number,
  (n <= 16)%nat ->
  0 <= result < 65536 ->
  parse_bits (bits_msb n w) (16 - Z.of_nat n) result line_number
  = Return (Z.lor result (w mod 2 ^ Z.of_nat n)).
Proof.
  induction n as [|n IH]; intros w r ln Hn Hr.
  - cbn. rewrite Z.mod_1_r, Z.lor_0_r. reflexivity.
  - cbn [bits_msb parse_bits].
    replace (16 - Z.of_nat (S n) + 1) with (16 - Z.of_nat n) by lia.
    replace (15 - (16 - Z.of_nat (S n))) with (Z.of_nat n) by lia.
    assert (Hp : 0 <= 2 ^ Z.of_nat n < 65536).
    { split; [apply Z.pow_nonneg; lia|]. change 65536 with (2 ^ 16).
      apply Z.pow_lt_mono_r; lia. }
    assert (Hbits : forall b,
              Z.testbit w (Z.of_nat n) = b ->
              Z.lor (Z.lor r (Z.b2z b * 2 ^ Z.of_nat n))
                    (w mod 2 ^ Z.of_nat n)
              = Z.lor r (w mod 2 ^ Z.of_nat (S n))).
    { intros b Hb. rewrite <- Z.lor_assoc. f_equal.
      apply Z.bits_inj'. intros i Hi. rewrite Z.lor_spec.
      rewrite Nat2Z.inj_succ.
      destruct (Z.ltb_spec i (Z.of_nat n)) as [Hlt|Hge].
      - rewrite !Z.mod_pow2_bits_low by lia.
        destruct b; cbn [Z.b2z].
        + rewrite Z.mul_1_l, Z.pow2_bits_false by lia. reflexivity.
        + rewrite Z.mul_0_l, Z.bits_0. reflexivity.
      - rewrite (Z.mod_pow2_bits_high w (Z.of_nat n)), orb_false_r by lia.
        destruct (Z.eq_dec i (Z.of_nat n)) as [->|Hne].
        + rewrite Z.mod_pow2_bits_low, Hb by lia.
          destruct b; cbn [Z.b2z].
          * rewrite Z.mul_1_l. apply Z.pow2_bits_true. lia.
          * rewrite Z.mul_0_l. apply Z.bits_0.
        + rewrite Z.mod_pow2_bits_high by lia.
          destruct b; cbn [Z.b2z].
          * rewrite Z.mul_1_l. apply Z.pow2_bits_false. lia.
          * rewrite Z.mul_0_l. apply Z.bits_0. }
    destruct (Z.testbit w (Z.of_nat n)) eqn:Hb.
    + change (Ascii.eqb "1" "1") with true. cbv iota.
      rewrite Z.shiftl_1_l.
      unfold to_word at 2. rewrite Z.mod_small by lia.
      rewrite to_word_lor by lia.
      rewrite IH.
      * rewrite <- (Hbits true eq_refl). cbn [Z.b2z]. now rewrite Z.mul_1_l.
      * lia.
      * rewrite <- to_word_lor by lia. apply Z.mod_pos_bound. lia.
    + change (Ascii.eqb "0" "1") with false.
      change (Ascii.eqb "0" "0") with true. cbv iota. cbn [negb].
      rewrite IH by lia.
      rewrite <- (Hbits false eq_refl). cbn [Z.b2z].
      now rewrite Z.mul_0_l, Z.lor_0_r.
Qed.

Lemma parse_bits_digits cs : forall i result line_number w,
  parse_bits cs i result line_number = Return w ->
  Vocabulary.all_chars Vocabulary.is_binary_digit cs = true.
Proof.
  induction cs as [|c cs IH]; intros i r ln w H; cbn in H |- *.
  - reflexivity.
  - unfold Vocabulary.is_binary_digit at 1.
    destruct (Ascii.eqb c "1"); cbn [orb andb negb] in *.
    + rewrite orb_true_r. cbn [andb]. eapply IH; exact H.
    + destruct (Ascii.eqb c "0"); cbn [negb orb andb] in *; [|discriminate].
      eapply IH; exact H.
Qed.

Lemma bits_msb_low n : forall w w',
  w mod 2 ^ Z.of_nat n = w' mod 2 ^ Z.of_nat n -> bits_msb n w = bits_msb n w'.
Proof.
  induction n as [|n IH]; intros w w' H; cbn [bits_msb]; [reflexivity|].
  rewrite Nat2Z.inj_succ in H.
  assert (Hb : Z.testbit w (Z.of_nat n) = Z.testbit w' (Z.of_nat n)).
  { rewrite <- (Z.mod_pow2_bits_low w (Z.succ (Z.of_nat n))) by lia.
    rewrite H. apply Z.mod_pow2_bits_low. lia. }
  rewrite Hb. f_equal. apply IH.
  apply Z.bits_inj'. intros i Hi. destruct (Z.ltb_spec i (Z.of_nat n)).
  - rewrite !Z.mod_pow2_bits_low by lia.
    rewrite <- (Z.mod_pow2_bits_low w (Z.succ (Z.of_nat n))) by lia.
    rewrite H. apply Z.mod_pow2_bits_low. lia.
  - now rewrite !Z.mod_pow2_bits_high by lia.
Qed.

Lemma binary_digits_are_bits cs :
  Vocabulary.all_chars Vocabulary.is_binary_digit cs = true ->
  exists v, 0 <= v < 2 ^ Z.of_nat (String.length cs)
            /\ cs = bits_msb (String.length cs) v.
Proof.
  induction cs as [|c cs IH]; cbn [Vocabulary.all_chars String.length].
  - intros _. exists 0. cbn. split; [lia|reflexivity].
  - intros H. apply andb_prop in H as [Hc Hcs].
    destruct (IH Hcs) as (v & Hv & Hs).
    set (n := String.length cs) in *.
    assert (Hp : 0 < 2 ^ Z.of_nat n) by (apply Z.pow_pos_nonneg; lia).
    assert (Hlow : forall b, (Z.b2z b * 2 ^ Z.of_nat n + v) mod 2 ^ Z.of_nat n
                             = v mod 2 ^ Z.of_nat n).
    { intros b. rewrite Z.add_comm, Z.mod_add by lia. reflexivity. }
    assert (Hhigh : forall b,
              Z.testbit (Z.b2z b * 2 ^ Z.of_nat n + v) (Z.of_nat n) = b).
    { intros b.
      assert (E : (Z.b2z b * 2 ^ Z.of_nat n + v) / 2 ^ Z.of_nat n = Z.b2z b).
      { rewrite Z.add_comm, Z.div_add, Z.div_small by lia. lia. }
      destruct b; [apply Z.testbit_true | apply Z.testbit_false];
        try lia; rewrite E; reflexivity. }
    unfold Vocabulary.is_binary_digit in Hc.
    apply orb_prop in Hc as [Hc|Hc]; apply Ascii.eqb_eq in Hc; subst c.
    + exists (Z.b2z false * 2 ^ Z.of_nat n + v). split.
      * rewrite Nat2Z.inj_succ, Z.pow_succ_r by lia. cbn [Z.b2z]. lia.
      * cbn [bits_msb]. rewrite Hhigh. f_equal.
        rewrite Hs at 1. apply bits_msb_low. now rewrite Hlow.
    + exists (Z.b2z true * 2 ^ Z.of_nat n + v). split.
      * rewrite Nat2Z.inj_succ, Z.pow_succ_r by lia. cbn [Z.b2z]. lia.
      * cbn [bits_msb]. rewrite Hhigh. f_equal.
        rewrite Hs at 1. apply bits_msb_low. now rewrite Hlow.
Qed.

(** X6.  A word and its line in a .hack file.  The sixteen binary digits
    of a word, most significant first, parse back to that word, at any
    line number; and no other line parses to it. *)
Theorem parse_binary_line_round_trip (w line_number : Z) :
  0 <= w < 65536 ->
  parse_binary_line (binary16 w) line_number = Return w
  /\ (forall line,
        parse_binary_line line line_number = Return w -> line = binary16 w).
Proof.
  intros Hw.
  assert (Hfwd : forall v, 0 <= v < 65536 ->
            parse_binary_line (binary16 v) line_number = Return v).
  { intros v Hv. unfold parse_binary_line, binary16. rewrite bits_msb_length.
    cbn [Z.of_nat Pos.of_succ_nat Pos.succ Z.eqb Pos.eqb negb].
    pose proof (parse_bits_msb 16 v 0 line_number) as H.
    change (16 - Z.of_nat 16) with 0 in H. rewrite H by lia.
    rewrite Z.lor_0_l. change (2 ^ Z.of_nat 16) with 65536.
    now rewrite Z.mod_small by lia. }
  split; [now apply Hfwd|].
  intros line H. pose proof H as H0. unfold parse_binary_line in H.
  destruct (Z.eqb_spec (Z.of_nat (String.length line)) 16) as [Hlen|];
    [|discriminate].
  cbn [negb] in H. apply parse_bits_digits in H.
  destruct (binary_digits_are_bits line H) as (v & Hv & Hs).
  assert (Hn : String.length line = 16%nat) by lia.
  rewrite Hn in Hv, Hs. change (2 ^ Z.of_nat 16) with 65536 in Hv.
  fold (binary16 v) in Hs. rewrite Hs in H0. rewrite Hfwd in H0 by exact Hv.
  inversion H0; subst. reflexivity.
Qed.

Lemma parse_binary_line_round_trip_witness :
  binary16 60432 = "1110110000010000"%string
  /\ parse_binary_line (binary16 60432) 1 = Return 60432.
Proof.
  split; [reflexivity|].
  apply (parse_binary_line_round_trip 60432 1). lia.
Defined.

Lemma copy_rom_spec instructions : forall i r j,
  copy_rom instructions i r j
  = if (i <=? j) && (j <? i + Z.of_nat (List.length instructions))
    then nth (Z.to_nat (j - i)) instructions 0
    else r j.
Proof.
  induction instructions as [|w more IH]; intros i r j.
  - cbn. replace (i + 0) with i by lia.
    destruct (Z.leb_spec i j); destruct (Z.ltb_spec j i); try reflexivity; lia.
  - cbn [copy_rom List.length]. rewrite IH, Nat2Z.inj_succ.
    destruct (Z.leb_spec (i + 1) j); destruct (Z.leb_spec i j);
      destruct (Z.ltb_spec j (i + 1 + Z.of_nat (List.length more)));
      destruct (Z.ltb_spec j (i + Z.succ (Z.of_nat (List.length more))));
      cbn [andb]; try lia.
    + replace (Z.to_nat (j - i)) with (S (Z.to_nat (j - (i + 1)))) by lia.
      reflexivity.
    + apply upd_other. lia.
    + assert (j = i) by lia. subst j. rewrite upd_same.
      now replace (i - i) with 0 by lia.
    + apply upd_other. lia.
Qed.

(** X7.  [load_rom] replaces the whole ROM: after a load that fits, cell
    [i] holds the [i]-th word given and every other cell is zero, whatever
    the ROM held before; RAM is not touched. *)
Theorem load_rom_replaces_rom (m : CPUMemory) (instructions : list Z) :
  Z.of_nat (List.length instructions) <= ROM_SIZE ->
  exists m',
    load_rom m instructions = (m', None)
    /\ (forall i, rom m' i
          = if (0 <=? i) && (i <? Z.of_nat (List.length instructions))
            then nth (Z.to_nat i) instructions 0 else 0)
    /\ ram m' = ram m.
Proof.
  intros Hfit. unfold load_rom. rewrite gtb_false by lia.
  eexists. split; [reflexivity|]. cbn [rom ram set_rom set_program_size].
  split; [|reflexivity].
  intros i. rewrite copy_rom_spec. rewrite Z.sub_0_r, Z.add_0_l.
  reflexivity.
Qed.

Lemma load_rom_replaces_rom_witness :
  exists m',
    load_rom (mkMem (fun _ => 7) zeros 9 false) [5; 60432] = (m', None)
    /\ rom m' 1 = 60432 /\ rom m' 2 = 0.
Proof.
  destruct (load_rom_replaces_rom (mkMem (fun _ => 7) zeros 9 false)
              [5; 60432]) as (m' & Hl & Hr & _); [vm_compute; discriminate|].
  exists m'. split; [exact Hl|]. rewrite !Hr. split; reflexivity.
Defined.

(** X8.  A program that does not fit is refused only after the ROM has
    been cleared: [load_rom] throws, every ROM cell is zero, and the
    program size is still the one of the program loaded before.  The
    engine's [load] then keeps its registers, PC, state and counters, with
    that memory. *)
Theorem refused_load_clears_rom (s : CPU.CPUEngine) (instructions : list Z) :
  ROM_SIZE < Z.of_nat (List.length instructions) ->
  exists m',
    load_rom (CPU.memory s) instructions
    = (m', Some (RuntimeError MsgProgramTooLarge))
    /\ (forall i, rom m' i = 0)
    /\ program_size m' = program_size (CPU.memory s)
    /\ ram m' = ram (CPU.memory s)
    /\ CPU.load s instructions
       = (CPU.set_memory s m', Some (RuntimeError MsgProgramTooLarge)).
Proof.
  intros Hbig. unfold CPU.load, load_rom. rewrite gtb_true by lia.
  eexists. split; [reflexivity|]. cbn. repeat split.
Qed.

Lemma refused_load_clears_rom_witness :
  let s := fst (CPU.load CPU.initial [5; 60432]) in
  exists m',
    load_rom (CPU.memory s) (repeat 0 (Z.to_nat 32769))
    = (m', Some (RuntimeError MsgProgramTooLarge))
    /\ rom m' 0 = 0 /\ program_size m' = 2.
Proof.
  intro s.
  destruct (refused_load_clears_rom s (repeat 0 (Z.to_nat 32769)))
    as (m' & Hl & Hr & Hs & _); [vm_compute; reflexivity|].
  exists m'. split; [exact Hl|]. split; [apply Hr|]. rewrite Hs. reflexivity.
Defined.

Lemma load_lines_invariant lines : forall line_number m,
  0 <= program_size m <= ROM_SIZE ->
  (forall i, i < 0 \/ program_size m <= i -> rom m i = 0) ->
  (forall i, 0 <= rom m i < 65536) ->
  let m' := fst (load_lines lines line_number m) in
  program_size m <= program_size m' <= ROM_SIZE
  /\ (forall i, i < 0 \/ program_size m' <= i -> rom m' i = 0)
  /\ (forall i, 0 <= rom m' i < 65536)
  /\ ram m' = ram m.
Proof.
  induction lines as [|raw more IH]; intros ln m Hs Hz Hw;
    cbn [load_lines]; cbv zeta.
  - cbn. repeat split; try lia; try apply Hw. exact Hz.
  - destruct (is_empty (trim_trailing raw)); [now apply IH|].
    destruct (Z.geb_spec (program_size m) ROM_SIZE) as [Hfull|Hroom].
    + cbn. repeat split; try lia; try apply Hw. exact Hz.
    + destruct (parse_binary_line (trim_trailing raw) (ln + 1)) as [w|e] eqn:E.
      * apply parse_binary_line_range in E.
        specialize (IH (ln + 1)
          (set_program_size (set_rom m (upd (rom m) (program_size m) w))
                            (program_size m + 1))).
        cbn [program_size rom ram set_rom set_program_size] in IH.
        destruct IH as (H1 & H2 & H3 & H4).
        -- lia.
        -- intros i Hi. rewrite upd_other by lia. apply Hz. lia.
        -- intros i. unfold upd. destruct (i =? program_size m); [lia|apply Hw].
        -- repeat split; try lia; try assumption. apply H3. apply H3.
      * cbn. repeat split; try lia; try apply Hw. exact Hz.
Qed.

(** X9.  What [load_rom_string] leaves behind, whether it succeeds or
    throws: the program size is between 0 and the ROM size, every ROM cell
    outside the loaded program is zero, every cell holds a 16-bit word,
    and RAM is as before. *)
Theorem load_rom_string_leaves_a_well_formed_rom
    (m : CPUMemory) (text : string) :
  let m' := fst (load_rom_string m text) in
  0 <= program_size m' <= ROM_SIZE
  /\ (forall i, i < 0 \/ program_size m' <= i -> rom m' i = 0)
  /\ (forall i, 0 <= rom m' i < 65536)
  /\ ram m' = ram m.
Proof.
  unfold load_rom_string.
  pose proof (load_lines_invariant (getlines text) 0
                (set_program_size (set_rom m zeros) 0)) as H.
  cbn [program_size rom ram set_rom set_program_size] in H.
  destruct H as (H1 & H2 & H3 & H4).
  - unfold ROM_SIZE. lia.
  - reflexivity.
  - intros i. unfold zeros. lia.
  - cbv zeta. repeat split; try lia; try assumption; apply H3.
Qed.

End RamAndRom.

(** ** CPU engine: one instruction, and the public calls *)

Section CPUEngine.
Import Instruction CPUMem CPU Notions.

Lemma finish_instruction_counted s :
  exists continue s',
    finish_instruction s = Completed continue s'
    /\ stats s' = inc_instructions_executed (stats s)
    /\ state s' = (if continue then state s else HALTED)
    /\ a_register s' = a_register s /\ d_register s' = d_register s
    /\ pc s' = pc s /\ memory s' = memory s
    /\ breakpoints s' = breakpoints s
    /\ pause_requested s' = pause_requested s
    /\ continue = negb (pc s >=? rom_size (memory s)).
Proof.
  unfold finish_instruction. cbn.
  destruct (pc s >=? rom_size (memory s)); eexists; eexists;
    (split; [reflexivity|]); cbn; repeat split.
Qed.

Lemma execute_a_counted s raw : counted s (execute_a s raw).
Proof.
  unfold execute_a.
  match goal with
  | |- context [finish_instruction ?t] =>
      destruct (finish_instruction_counted t)
        as (c & s' & -> & Hs & Hst & _ & _ & _ & Hm & Hb & Hp & _)
  end.
  cbn in *. rewrite Hs, Hst, Hb, Hp, Hm. cbn. split; [reflexivity|].
  split; [left; repeat split|]. repeat split.
Qed.

Lemma execute_c_jump_counted s jump_bits alu :
  counted s (execute_c_jump s jump_bits alu).
Proof.
  unfold execute_c_jump.
  match goal with
  | |- context [finish_instruction ?t] =>
      destruct (finish_instruction_counted t)
        as (c & s' & -> & Hs & Hst & _ & _ & _ & Hm & Hb & Hp & _)
  end.
  cbn in *. rewrite Hs, Hst, Hb, Hp, Hm.
  destruct (should_jump jump_bits alu); cbn;
    (split; [reflexivity|]); (split; [right; auto|]); repeat split.
Qed.

Lemma counted_after s s1 t :
  stats s1 = stats s \/
  (instructions_executed (stats s1) = instructions_executed (stats s)
   /\ a_instruction_count (stats s1) = a_instruction_count (stats s)
   /\ c_instruction_count (stats s1) = c_instruction_count (stats s)
   /\ jump_count (stats s1) = jump_count (stats s)) ->
  state s1 = state s -> breakpoints s1 = breakpoints s ->
  pause_requested s1 = pause_requested s ->
  rom (memory s1) = rom (memory s) ->
  program_size (memory s1) = program_size (memory s) ->
  counted s1 t -> counted s t.
Proof.
  intros Hs Hst Hb Hp Hr Hz H.
  assert (Hs' : instructions_executed (stats s1)
                = instructions_executed (stats s)
     /\ a_instruction_count (stats s1) = a_instruction_count (stats s)
     /\ c_instruction_count (stats s1) = c_instruction_count (stats s)
     /\ jump_count (stats s1) = jump_count (stats s)).
  { destruct Hs as [->|Hs]; [repeat split|exact Hs]. }
  destruct Hs' as (H1 & H2 & H3 & H4).
  destruct t; cbn in *; rewrite <- ?H1, <- ?H2, <- ?H3, <- ?H4, <- ?Hst,
    <- ?Hb, <- ?Hp, <- ?Hr, <- ?Hz; exact H.
Qed.

Lemma execute_c_store_counted s dest_bits jump_bits alu :
  counted s (execute_c_store s dest_bits jump_bits alu).
Proof.
  unfold execute_c_store.
  set (s1 := if nonzero (Z.land dest_bits 4) then set_a s alu else s).
  set (s2 := if nonzero (Z.land dest_bits 2) then set_d s1 alu else s1).
  assert (H2 : stats s2 = stats s /\ state s2 = state s
               /\ breakpoints s2 = breakpoints s
               /\ pause_requested s2 = pause_requested s
               /\ memory s2 = memory s).
  { subst s2 s1.
    destruct (nonzero (Z.land dest_bits 4)), (nonzero (Z.land dest_bits 2));
      cbn; auto. }
  destruct H2 as (Hs & Hst & Hb & Hp & Hm).
  destruct (nonzero (Z.land dest_bits 1)).
  - unfold write_ram. rewrite Hm.
    destruct (a_register s >=? RAM_SIZE).
    + cbn. rewrite Hs, Hst, Hb, Hp, Hm. repeat split.
    + destruct ((a_register s >=? SCREEN_BASE)
                && (a_register s <? SCREEN_BASE + SCREEN_SIZE));
        (eapply counted_after; [| | | | | |apply execute_c_jump_counted]);
        cbn; rewrite ?Hs, ?Hst, ?Hb, ?Hp; auto.
  - eapply counted_after; [| | | | | |apply execute_c_jump_counted];
      rewrite ?Hs, ?Hst, ?Hb, ?Hp, ?Hm; auto.
Qed.

Lemma execute_c_counted s raw : counted s (execute_c s raw).
Proof.
  unfold execute_c. cbv zeta.
  destruct (nonzero (Z.land (to_u8 (Z.land (Z.shiftr raw 6) 127)) 64)).
  - unfold read_ram. destruct (a_register s >=? RAM_SIZE).
    + cbn. repeat split.
    + cbn [pc d_register set_stats].
      destruct (compute_alu (pc s) _ (d_register s) _) as [alu|e].
      * eapply counted_after; [| | | | | |apply execute_c_store_counted];
          cbn; auto.
      * cbn. repeat split.
  - destruct (compute_alu (pc s) _ (d_register s) _) as [alu|e].
    + apply execute_c_store_counted.
    + cbn. repeat split.
Qed.

(** The effect of [execute_instruction] on what the loops look at. *)
Lemma execute_instruction_counted s continue s' :
  execute_instruction s = (continue, s') ->
  breakpoints s' = breakpoints s
  /\ rom (memory s') = rom (memory s)
  /\ program_size (memory s') = program_size (memory s)
  /\ (if continue
      then counted s (Completed true s')
      else (state s' = HALTED \/ state s' = PAUSED \/ state s' = ERROR)
           /\ (counted s (Completed false s')
               \/ stats s' = stats s
               \/ exists e t, counted s (Caught e t) /\ stats s' = stats t)).
Proof.
  unfold execute_instruction.
  destruct (pc s >=? rom_size (memory s)).
  { intros H; inversion H; subst. cbn. auto 10. }
  destruct (pause_requested s).
  { intros H; inversion H; subst. cbn. auto 10. }
  destruct ((instructions_executed (stats s) >? 0)
            && existsb (Z.eqb (pc s)) (breakpoints s)).
  { intros H; inversion H; subst. cbn. auto 10. }
  set (raw := rom (memory s) (pc s)).
  assert (Ht : counted s (if negb (nonzero (Z.land raw 32768))
                          then execute_a s raw else execute_c s raw)).
  { destruct (negb (nonzero (Z.land raw 32768)));
      [apply execute_a_counted|apply execute_c_counted]. }
  destruct (if negb (nonzero (Z.land raw 32768))
            then execute_a s raw else execute_c s raw) as [c t|e t].
  - intros H; inversion H; subst c t. clear H.
    pose proof Ht as Ht'. cbn in Ht'.
    destruct Ht' as (_ & _ & Hst & Hb & _ & Hr & Hz).
    split; [exact Hb|]. split; [exact Hr|]. split; [exact Hz|].
    destruct continue; [exact Ht|]. split; [auto|]. left. exact Ht.
  - intros H; inversion H; subst. clear H.
    pose proof Ht as Ht'. cbn in Ht'.
    destruct Ht' as (_ & _ & _ & _ & _ & Hb & _ & Hr & Hz).
    cbn. split; [exact Hb|]. split; [exact Hr|]. split; [exact Hz|].
    split; [auto|]. right. right. exists e, t. split; [exact Ht|reflexivity].
Qed.

Lemma to_u64_next z :
  0 <= z -> z + 1 < 18446744073709551616 -> to_u64 (z + 1) = z + 1.
Proof. intros. unfold to_u64. apply Z.mod_small. lia. Qed.

Lemma completed_counts s continue s' :
  counted s (Completed continue s') ->
  counters_agree (stats s) ->
  instructions_executed (stats s) + 1 < 18446744073709551616 ->
  counters_agree (stats s')
  /\ instructions_executed (stats s') = instructions_executed (stats s) + 1.
Proof.
  intros (Hie & Hac & _) (Hsum & Ha & Hj) Hroom.
  rewrite to_u64_next in Hie by lia. unfold counters_agree.
  destruct Hac as [(Ha' & Hc' & Hj')|(Ha' & Hc' & Hj')].
  - rewrite to_u64_next in Ha' by lia. lia.
  - rewrite to_u64_next in Hc' by lia.
    destruct Hj' as [Hj'|Hj']; [lia|].
    rewrite to_u64_next in Hj' by lia. lia.
Qed.

Lemma execute_instruction_counts s continue s' :
  execute_instruction s = (continue, s') ->
  counters_agree (stats s) ->
  instructions_executed (stats s) + 1 < 18446744073709551616 ->
  counters_agree (stats s')
  /\ instructions_executed (stats s)
     <= instructions_executed (stats s')
     <= instructions_executed (stats s) + 1
  /\ (if continue then state s' = state s
      else state s' = HALTED \/ state s' = PAUSED \/ state s' = ERROR)
  /\ breakpoints s' = breakpoints s
  /\ rom (memory s') = rom (memory s)
  /\ program_size (memory s') = program_size (memory s).
Proof.
  intros H Hagree Hroom.
  apply execute_instruction_counted in H as (Hb & Hr & Hz & H).
  assert (Hdone : forall c, counted s (Completed c s') ->
            counters_agree (stats s')
            /\ instructions_executed (stats s)
               <= instructions_executed (stats s')
               <= instructions_executed (stats s) + 1).
  { intros c Hc.
    destruct (completed_counts _ _ _ Hc Hagree Hroom) as [H1 H2].
    split; [exact H1|lia]. }
  destruct continue.
  - destruct (Hdone _ H) as [H1 H2]. destruct H as (_ & _ & Hst & _).
    split; [exact H1|]. split; [exact H2|]. split; [exact Hst|].
    split; [exact Hb|]. split; [exact Hr|exact Hz].
  - destruct H as [Hst H].
    assert (H12 : counters_agree (stats s')
            /\ instructions_executed (stats s)
               <= instructions_executed (stats s')
               <= instructions_executed (stats s) + 1).
    { destruct H as [H|[H|(e & t & H & Hs)]].
      - exact (Hdone _ H).
      - rewrite H. split; [exact Hagree|lia].
      - destruct H as (H1 & H2 & H3 & H4 & _).
        unfold counters_agree in *. rewrite Hs, H1, H2, H3, H4.
        split; [exact Hagree|lia]. }
    destruct H12 as [H1 H2].
    split; [exact H1|]. split; [exact H2|]. split; [exact Hst|].
    split; [exact Hb|]. split; [exact Hr|exact Hz].
Qed.

Lemma run_for_loop_counts budget : forall s,
  counters_agree (stats s) ->
  instructions_executed (stats s) + Z.of_nat budget < 18446744073709551616 ->
  counters_agree (stats (run_for_loop budget s)).
Proof.
  induction budget as [|budget IH]; intros s Hagree Hroom;
    cbn [run_for_loop]; [exact Hagree|].
  destruct (is_running s); [|exact Hagree].
  destruct (execute_instruction s) as [c s1] eqn:E.
  destruct (execute_instruction_counts _ _ _ E Hagree)
    as (Hagree1 & Hie & _); [lia|].
  destruct c; [|exact Hagree1]. apply IH; [exact Hagree1|lia].
Qed.

Lemma execute_instruction_bound s continue s' :
  execute_instruction s = (continue, s') ->
  0 <= instructions_executed (stats s) ->
  instructions_executed (stats s) + 1 < 18446744073709551616 ->
  instructions_executed (stats s)
  <= instructions_executed (stats s')
  <= instructions_executed (stats s) + 1
  /\ (if continue then state s' = state s
      else state s' = HALTED \/ state s' = PAUSED \/ state s' = ERROR)
  /\ breakpoints s' = breakpoints s
  /\ rom (memory s') = rom (memory s)
  /\ program_size (memory s') = program_size (memory s).
Proof.
  intros H Hpos Hroom.
  apply execute_instruction_counted in H as (Hb & Hr & Hz & H).
  assert (Hdone : forall c, counted s (Completed c s') ->
            instructions_executed (stats s')
            = instructions_executed (stats s) + 1).
  { intros c (Hie & _). now rewrite to_u64_next in Hie by lia. }
  destruct continue.
  - pose proof (Hdone _ H). destruct H as (_ & _ & Hst & _).
    split; [lia|]. split; [exact Hst|]. split; [exact Hb|].
    split; [exact Hr|exact Hz].
  - destruct H as [Hst H]. split.
    + destruct H as [H|[H|(e & t & H & Hs)]].
      * pose proof (Hdone _ H). lia.
      * rewrite H. lia.
      * destruct H as (H1 & _). rewrite Hs, H1. lia.
    + split; [exact Hst|]. split; [exact Hb|]. split; [exact Hr|exact Hz].
Qed.

Lemma run_for_loop_bound budget : forall s,
  0 <= instructions_executed (stats s) ->
  instructions_executed (stats s) + Z.of_nat budget < 18446744073709551616 ->
  let s' := run_for_loop budget s in
  instructions_executed (stats s)
  <= instructions_executed (stats s')
  <= instructions_executed (stats s) + Z.of_nat budget
  /\ (state s = RUNNING -> state s' <> READY)
  /\ breakpoints s' = breakpoints s
  /\ rom (memory s') = rom (memory s)
  /\ program_size (memory s') = program_size (memory s).
Proof.
  induction budget as [|budget IH]; intros s Hpos Hroom;
    cbn [run_for_loop]; cbv zeta.
  - split; [lia|]. split; [congruence|]. repeat split.
  - assert (Hstay :
       instructions_executed (stats s) <= instructions_executed (stats s)
          <= instructions_executed (stats s) + Z.of_nat (S budget)
       /\ (state s = RUNNING -> state s <> READY)
       /\ breakpoints s = breakpoints s
       /\ rom (memory s) = rom (memory s)
       /\ program_size (memory s) = program_size (memory s)).
    { split; [lia|]. split; [congruence|]. repeat split. }
    destruct (is_running s) eqn:Hrun; [clear Hstay|exact Hstay].
    assert (Hst : state s = RUNNING).
    { unfold is_running in Hrun. destruct (state s); congruence. }
    destruct (execute_instruction s) as [c s1] eqn:E.
    destruct (execute_instruction_bound _ _ _ E Hpos)
      as (Hie & Hst1 & Hb & Hr & Hz); [lia|].
    destruct c.
    + destruct (IH s1) as (H2 & H3 & H4 & H5 & H6); [lia|lia|].
      split; [lia|]. split; [intros _; apply H3; congruence|].
      split; [congruence|]. split; congruence.
    + split; [lia|].
      split; [intros _; destruct Hst1 as [->|[->| ->]]; discriminate|].
      split; [exact Hb|]. split; [exact Hr|exact Hz].
Qed.

(** X10.  [run_for n] keeps to its budget and never comes back running:
    started from READY or PAUSED it returns PAUSED, HALTED or ERROR, the
    state the engine is left in; it executes at most [n] instructions; and
    it leaves the breakpoints and the loaded program alone. *)
Theorem run_for_keeps_to_its_budget (n : nat) (s : CPUEngine) :
  can_start (state s) = true ->
  0 <= instructions_executed (stats s) ->
  instructions_executed (stats s) + Z.of_nat n < 18446744073709551616 ->
  let st := fst (run_for n s) in
  let s' := snd (run_for n s) in
  st = state s'
  /\ (st = PAUSED \/ st = HALTED \/ st = ERROR)
  /\ instructions_executed (stats s)
     <= instructions_executed (stats s')
     <= instructions_executed (stats s) + Z.of_nat n
  /\ breakpoints s' = breakpoints s
  /\ rom (memory s') = rom (memory s)
  /\ program_size (memory s') = program_size (memory s).
Proof.
  intros Hstart Hpos Hroom. unfold run_for. rewrite Hstart. cbv zeta.
  set (s0 := set_pause_requested
               (set_pause_reason (set_state s RUNNING) NONE) false).
  destruct (run_for_loop_bound n s0) as (Hie & Hst & Hb & Hr & Hz);
    [exact Hpos|exact Hroom|].
  specialize (Hst eq_refl). cbn [stats breakpoints memory state s0
    set_pause_requested set_pause_reason set_state] in Hie, Hb, Hr, Hz.
  unfold is_running.
  destruct (state (run_for_loop n s0)) eqn:E; cbn [fst snd state stats
    breakpoints memory set_pause_reason set_state];
    rewrite ?E; try congruence; auto 10.
Qed.

Lemma run_for_keeps_to_its_budget_witness :
  let s := fst (load initial [1; 60432; 0; 60039]) in
  fst (run_for 3 s) = PAUSED
  /\ instructions_executed (stats (snd (run_for 3 s))) <= 3.
Proof.
  intro s.
  destruct (run_for_keeps_to_its_budget 3 s) as (_ & _ & Hie & _).
  - reflexivity.
  - vm_compute. discriminate.
  - vm_compute. reflexivity.
  - split; [reflexivity|]. exact (proj2 Hie).
Defined.

(** X11.  The counters of the CPU engine stay in agreement over any
    [run_for]: when, before the call, the instructions executed are the
    A-instructions plus the C-instructions and there are no more jumps
    than C-instructions, the same holds after it. *)
Theorem run_for_keeps_the_counters_in_agreement (n : nat) (s : CPUEngine) :
  counters_agree (stats s) ->
  instructions_executed (stats s) + Z.of_nat n < 18446744073709551616 ->
  counters_agree (stats (snd (run_for n s))).
Proof.
  intros Hagree Hroom. unfold run_for.
  destruct (can_start (state s)); [|exact Hagree]. cbv zeta.
  set (s0 := set_pause_requested
               (set_pause_reason (set_state s RUNNING) NONE) false).
  pose proof (run_for_loop_counts n s0 Hagree Hroom) as H.
  destruct (is_running (run_for_loop n s0)); exact H.
Qed.

Lemma run_for_keeps_the_counters_in_agreement_witness :
  let s := fst (load initial [1; 60432; 0; 60039]) in
  counters_agree (stats (snd (run_for 7 s)))
  /\ stats (snd (run_for 7 s)) = mkStats 7 4 3 1 0 0.
Proof.
  intro s. split; [|reflexivity].
  apply (run_for_keeps_the_counters_in_agreement 7 s).
  - vm_compute. repeat split; discriminate.
  - vm_compute. reflexivity.
Defined.

(** X12.  An A-instruction that is fetched: A becomes the 15-bit value of
    the word, PC moves to the next address, D and the memory are as
    before, one A-instruction and one instruction are counted, and the
    engine halts exactly when the new PC is outside the loaded program.
    It never fails. *)
Theorem a_instruction_step (s : CPUEngine) :
  let i := decode_instruction (rom (memory s) (pc s)) in
  let s' := snd (execute_instruction s) in
  Vocabulary.cpu_fetches s = true ->
  type i = A_INSTRUCTION ->
  a_register s' = value i
  /\ d_register s' = d_register s
  /\ memory s' = memory s
  /\ pc s' = to_word (pc s + 1)
  /\ stats s'
     = inc_instructions_executed (inc_a_instruction_count (stats s))
  /\ fst (execute_instruction s) = (pc s' <? rom_size (memory s))
  /\ state s' = (if pc s' <? rom_size (memory s) then state s else HALTED).
Proof.
  intros i s' Hfetch Htype. subst i s'.
  unfold Vocabulary.cpu_fetches in Hfetch.
  apply andb_prop in Hfetch as [Hfetch Hbp].
  apply andb_prop in Hfetch as [Hhalt Hpause].
  apply negb_true_iff in Hhalt, Hpause, Hbp.
  unfold execute_instruction. rewrite Hhalt, Hpause, Hbp.
  unfold decode_instruction in Htype |- *.
  destruct (negb (nonzero (Z.land (rom (memory s) (pc s)) 32768)));
    [|discriminate].
  unfold execute_a, finish_instruction.
  cbn [pc memory stats set_a set_pc set_stats a_register d_register value].
  rewrite Z.geb_leb, Z.ltb_antisym.
  destruct (rom_size (memory s) <=? to_word (pc s + 1)) eqn:E; cbn;
    rewrite ?E; repeat split.
Qed.

(** [@5] at ROM address 0 of a two-word program. *)
Lemma a_instruction_step_witness :
  let s := set_state (fst (load initial [5; 60432])) RUNNING in
  let s' := snd (execute_instruction s) in
  a_register s' = 5 /\ pc s' = 1 /\ state s' = RUNNING.
Proof.
  intros s s'.
  destruct (a_instruction_step s) as (Ha & _ & _ & Hpc & _ & _ & Hst);
    [reflexivity | reflexivity |].
  split; [exact Ha|]. split; [exact Hpc|exact Hst].
Defined.

(** X13.  A pause request made while the engine is stopped.  [run] and
    [run_for] clear the request before their loop, so it is lost: they
    behave as if [pause] had not been called.  [step] does not clear it:
    with the PC inside the program it executes nothing, consumes the
    request and returns PAUSED with reason USER_REQUEST. *)
Theorem pause_before_a_call (s : CPUEngine) :
  can_start (state s) = true ->
  (forall fuel, run fuel (pause s) = run fuel s)
  /\ (forall n, run_for n (pause s) = run_for n s)
  /\ (pc s < rom_size (memory s) ->
      step (pause s)
      = (PAUSED,
         set_pause_requested
           (set_pause_reason (set_state s PAUSED) USER_REQUEST) false)).
Proof.
  intros Hstart. split; [|split].
  - intros fuel. unfold run, pause. cbn [state set_pause_requested].
    rewrite Hstart. reflexivity.
  - intros n. unfold run_for, pause. cbn [state set_pause_requested].
    rewrite Hstart. reflexivity.
  - intros Hpc. unfold step, pause. cbn [state set_pause_requested].
    rewrite Hstart. cbv zeta. unfold execute_instruction.
    cbn [pc memory pause_requested set_state set_pause_reason
         set_pause_requested].
    rewrite geb_false by exact Hpc. reflexivity.
Qed.

Lemma pause_before_a_call_witness :
  let s := fst (load initial [5; 60432]) in
  run 10 (pause s) = run 10 s
  /\ fst (step (pause s)) = PAUSED
  /\ stats (snd (step (pause s))) = stats s.
Proof.
  intro s.
  destruct (pause_before_a_call s) as (Hrun & _ & Hstep); [reflexivity|].
  split; [apply Hrun|]. rewrite Hstep by (vm_compute; reflexivity).
  split; reflexivity.
Defined.

(** X14.  A store to M that fails.  When a fetched C-instruction computes
    on A (not M), has M among its destinations and A holds an address
    outside the RAM, the write throws after the other destinations were
    written: the engine is in ERROR at this PC with the message of
    [write_ram], A and D already hold the ALU output where the
    instruction names them, and the memory, the PC and the counters are
    those from before the instruction. *)
Theorem failed_store_keeps_register_writes (s : CPUEngine) (alu : Z) :
  let i := decode_instruction (rom (memory s) (pc s)) in
  let s' := snd (execute_instruction s) in
  Vocabulary.cpu_fetches s = true ->
  type i = C_INSTRUCTION ->
  reads_memory i = false ->
  dest_m (dest i) = true ->
  compute_alu (pc s) (comp i) (d_register s) (a_register s) = Return alu ->
  RAM_SIZE <= a_register s ->
  fst (execute_instruction s) = false
  /\ state s' = ERROR
  /\ error_message s'
     = Some (What (RuntimeError (MsgRamWrite (a_register s))))
  /\ error_location s' = pc s
  /\ pc s' = pc s
  /\ a_register s' = (if dest_a (dest i) then alu else a_register s)
  /\ d_register s' = (if dest_d (dest i) then alu else d_register s)
  /\ memory s' = memory s
  /\ stats s' = stats s.
Proof.
  intros i s' Hfetch Htype Hreads Hm Halu Hout. subst s'.
  destruct (decoded_fields _ Htype)
    as (Hc & Hda & Hdd & Hdm & _ & Hr).
  fold i in Hc, Hda, Hdd, Hdm, Hr.
  unfold Vocabulary.cpu_fetches in Hfetch.
  apply andb_prop in Hfetch as [Hfetch Hbp].
  apply andb_prop in Hfetch as [Hhalt Hpause].
  apply negb_true_iff in Hhalt, Hpause, Hbp.
  unfold execute_instruction.
  rewrite Hhalt, Hpause, Hbp, (decoded_type _ Htype).
  unfold execute_c. cbv zeta.
  rewrite <- Hr, Hreads, <- Hc, Halu.
  unfold execute_c_store. rewrite <- Hda, <- Hdd, <- Hdm, Hm.
  unfold write_ram.
  destruct (dest_a (dest i)), (dest_d (dest i));
    cbn [memory set_a set_d a_register];
    rewrite geb_true by exact Hout; cbn; repeat split.
Qed.

(** [M=D] with A = 40000. *)
Lemma failed_store_keeps_register_writes_witness :
  let s := set_state (set_a (fst (load initial [58120])) 40000) RUNNING in
  let s' := snd (execute_instruction s) in
  state s' = ERROR
  /\ error_message s' = Some (What (RuntimeError (MsgRamWrite 40000)))
  /\ stats s' = stats s.
Proof.
  intros s s'.
  destruct (failed_store_keeps_register_writes s 0)
    as (_ & Hst & He & _ & _ & _ & _ & _ & Hs);
    [reflexivity | reflexivity | reflexivity | reflexivity | reflexivity
    | vm_compute; discriminate |].
  split; [exact Hst|]. split; [exact He|exact Hs].
Defined.

(** X15.  The end of the program.  With the PC at or past the program
    size, a call that starts from READY or PAUSED executes nothing and
    leaves the engine HALTED, registers, memory and counters untouched;
    only [run_for 0] does not look and reports PAUSED.  From HALTED every
    call returns HALTED and changes nothing. *)
Theorem past_the_end_the_engine_halts (s : CPUEngine) :
  (can_start (state s) = true ->
   rom_size (memory s) <= pc s ->
   let halted := set_state (set_pause_reason s NONE) HALTED in
   step s = (HALTED, halted)
   /\ (forall fuel,
         run (S fuel) s = Some (HALTED, set_pause_requested halted false))
   /\ (forall n,
         run_for (S n) s = (HALTED, set_pause_requested halted false))
   /\ run_for 0 s
      = (PAUSED,
         set_pause_requested
           (set_pause_reason (set_state s PAUSED) USER_REQUEST) false))
  /\ (state s = HALTED ->
      step s = (HALTED, s)
      /\ (forall fuel, run fuel s = Some (HALTED, s))
      /\ (forall n, run_for n s = (HALTED, s))).
Proof.
  split.
  - intros Hstart Hend. cbv zeta.
    assert (Hx : forall t, pc t = pc s -> memory t = memory s ->
              execute_instruction t = (false, set_state t HALTED)).
    { intros t Hp Hm. unfold execute_instruction.
      rewrite Hp, Hm, geb_true by exact Hend. reflexivity. }
    split; [|split; [|split]].
    + unfold step. rewrite Hstart. cbv zeta.
      rewrite Hx by reflexivity. reflexivity.
    + intros fuel. unfold run. rewrite Hstart. cbv zeta.
      cbn [run_loop]. unfold is_running at 1. cbn [state set_pause_requested
        set_pause_reason set_state].
      rewrite Hx by reflexivity. reflexivity.
    + intros n. unfold run_for. rewrite Hstart. cbv zeta.
      cbn [run_for_loop]. unfold is_running at 1. cbn [state
        set_pause_requested set_pause_reason set_state].
      rewrite Hx by reflexivity. reflexivity.
    + unfold run_for. rewrite Hstart. reflexivity.
  - intros Hst. unfold step, run, run_for. rewrite Hst. cbn.
    rewrite ?Hst. repeat split.
Qed.

Lemma past_the_end_the_engine_halts_witness :
  let s := set_pc (fst (load initial [5; 60432])) 2 in
  fst (step s) = HALTED
  /\ run 1 s = Some (HALTED, snd (run_for 1 s))
  /\ fst (run_for 0 s) = PAUSED.
Proof.
  intro s.
  destruct (past_the_end_the_engine_halts s) as [H _].
  destruct H as (Hstep & Hrun & Hfor & Hzero);
    [reflexivity | vm_compute; discriminate |].
  rewrite Hstep, Hrun, Hfor, Hzero. repeat split.
Defined.

End CPUEngine.

(** ** VM memory: stack, segments, statics and frames *)

Section StackAndSegments.
Import VMMem VMDebug.

Ltac unfold_addresses :=
  unfold SP, LCL, ARG, THIS, THAT, TEMP_BASE, TEMP_SIZE, STATIC_BASE,
    STACK_BASE, STACK_MAX, RAM_SIZE in *.

Ltac upd_simpl :=
  repeat first [ rewrite upd_at by (unfold_addresses; lia)
               | rewrite upd_other by (unfold_addresses; lia) ].

Lemma push_then_pop m v sp :
  ram m SP = sp -> STACK_BASE <= sp <= STACK_MAX ->
  exists m1 m2,
    push m v = Ok m1 /\ pop m1 = Ok (v, m2)
    /\ ram m1 = upd (upd (ram m) sp v) SP (sp + 1)
    /\ ram m2 SP = sp /\ ram m2 sp = v
    /\ (forall a, a <> sp -> ram m2 a = ram m a)
    /\ call_stack m2 = call_stack m
    /\ static_bases m2 = static_bases m.
Proof.
  intros Hsp Hrange.
  destruct (push_spec m v sp Hsp) as (m1 & Hpush & Hr1 & Hc1 & Hs1 & _);
    [unfold_addresses; lia|].
  destruct (pop_spec m1 (sp + 1)) as (m2 & Hpop & Hr2 & Hc2 & Hs2 & _);
    [rewrite Hr1; apply upd_same | unfold_addresses; lia |].
  exists m1, m2. split; [exact Hpush|].
  replace (sp + 1 - 1) with sp in * by lia.
  rewrite Hr1 in Hpop.
  rewrite (upd_other _ SP _ sp), upd_same in Hpop by (unfold_addresses; lia).
  split; [exact Hpop|]. split; [exact Hr1|]. rewrite Hr2, Hr1.
  split; [apply upd_same|].
  split; [upd_simpl; reflexivity|].
  split; [|split; congruence].
  intros a Ha. unfold upd.
  destruct (Z.eqb_spec a SP) as [->|_]; [exact (eq_sym Hsp)|].
  destruct (Z.eqb_spec a sp); [contradiction|reflexivity].
Qed.

(** X16.  The stack round trips.  With SP inside the stack area, a value
    pushed is the value popped next, and the memory is then as before the
    push but for the word at the old SP, which holds the value.  A pop
    followed by a push of the popped value restores every word. *)
Theorem push_pop_round_trip (m : VMMemory) (v sp : Z) :
  ram m SP = sp ->
  (STACK_BASE <= sp <= STACK_MAX ->
   exists m1 m2,
     push m v = Ok m1 /\ pop m1 = Ok (v, m2)
     /\ ram m2 SP = sp /\ ram m2 sp = v
     /\ (forall a, a <> sp -> ram m2 a = ram m a)
     /\ call_stack m2 = call_stack m
     /\ static_bases m2 = static_bases m)
  /\ (STACK_BASE < sp <= STACK_MAX + 1 ->
      exists m1 m2,
        pop m = Ok (ram m (sp - 1), m1) /\ push m1 (ram m (sp - 1)) = Ok m2
        /\ (forall a, ram m2 a = ram m a)
        /\ call_stack m2 = call_stack m
        /\ static_bases m2 = static_bases m).
Proof.
  intros Hsp. split; intros Hrange.
  - destruct (push_then_pop m v sp Hsp Hrange)
      as (m1 & m2 & Hpush & Hpop & _ & H).
    exists m1, m2. split; [exact Hpush|]. split; [exact Hpop|exact H].
  - destruct (pop_spec m sp Hsp) as (m1 & Hpop & Hr1 & Hc1 & Hs1 & _);
      [unfold_addresses; lia|].
    destruct (push_spec m1 (ram m (sp - 1)) (sp - 1))
      as (m2 & Hpush & Hr2 & Hc2 & Hs2 & _);
      [rewrite Hr1; apply upd_same | unfold_addresses; lia |].
    exists m1, m2. split; [exact Hpop|]. split; [exact Hpush|].
    split; [|split; congruence].
    intros a. rewrite Hr2, Hr1. unfold upd.
    replace (sp - 1 + 1) with sp by lia.
    destruct (Z.eqb_spec a SP) as [->|_]; [exact (eq_sym Hsp)|].
    destruct (Z.eqb_spec a (sp - 1)) as [->|_]; reflexivity.
Qed.

Lemma push_pop_round_trip_witness :
  let m := reset (mkVMMem (fun _ => 0) [] [] STATIC_BASE) in
  exists m1 m2,
    push m 7 = Ok m1 /\ pop m1 = Ok (7, m2) /\ ram m2 SP = 256.
Proof.
  intro m.
  destruct (push_pop_round_trip m 7 256 eq_refl) as [H _].
  destruct H as (m1 & m2 & Hpush & Hpop & Hsp & _);
    [unfold STACK_BASE, STACK_MAX; lia|].
  exists m1, m2. split; [exact Hpush|]. split; [exact Hpop|exact Hsp].
Defined.

(** X17.  A segment cell written is the cell read.  When the address of
    [segment index] is inside the RAM and is not one of the five pointer
    registers (or the segment is temp, static or pointer, whose address
    does not depend on them), [write_segment] stores the value at that
    address only and [read_segment] then returns it. *)
Theorem segment_write_then_read (m : VMMemory) (segment : SegmentType)
    (index value : Z) (file_name : string) (addr : Z) :
  calculate_address m segment index file_name = Ok addr ->
  0 <= addr < RAM_SIZE ->
  4 < addr \/ segment = TEMP \/ segment = STATIC \/ segment = POINTER ->
  exists m',
    write_segment m segment index value file_name = Ok m'
    /\ read_segment m' segment index file_name = Ok value
    /\ ram m' = upd (ram m) addr value
    /\ call_stack m' = call_stack m
    /\ static_bases m' = static_bases m.
Proof.
  intros Hcalc Hin Hsafe.
  assert (Hw : write_segment m segment index value file_name
               = Ok (set_ram m (upd (ram m) addr value))).
  { unfold write_segment. destruct segment;
      try (rewrite Hcalc; cbn [bind]; rewrite ram_put_in by exact Hin;
           reflexivity).
    cbn in Hcalc. discriminate. }
  exists (set_ram m (upd (ram m) addr value)).
  split; [exact Hw|]. split; [|repeat split].
  assert (Hcalc' : calculate_address (set_ram m (upd (ram m) addr value))
                     segment index file_name = Ok addr).
  { destruct segment; cbn in Hcalc |- *; try exact Hcalc;
      destruct Hsafe as [Hsafe|[Hsafe|[Hsafe|Hsafe]]]; try discriminate;
      rewrite upd_other by (unfold_addresses; lia); exact Hcalc. }
  unfold read_segment. destruct segment;
    try (rewrite Hcalc'; cbn [bind ram set_ram];
         rewrite ram_get_in by exact Hin; now rewrite upd_same).
  cbn in Hcalc. discriminate.
Qed.

Lemma segment_write_then_read_witness :
  let m := set_ram (reset (mkVMMem (fun _ => 0) [] [] STATIC_BASE))
                   (upd (upd (fun _ => 0) SP 256) LCL 300) in
  exists m',
    write_segment m LOCAL 2 9 "Main" = Ok m'
    /\ read_segment m' LOCAL 2 "Main" = Ok 9.
Proof.
  intro m.
  destruct (segment_write_then_read m LOCAL 2 9 "Main" 302)
    as (m' & Hw & Hr & _);
    [reflexivity | unfold RAM_SIZE; lia | left; lia |].
  exists m'. split; [exact Hw|exact Hr].
Defined.

(** X18.  The segments with a fixed place.  [temp i] is RAM[5 + i] for the
    eight indices 0..7 and an error from 8 on; [pointer 0] and [pointer 1]
    are RAM[3] and RAM[4], so writing them moves the [this] and [that]
    segments, and any index above 1 is an error; [constant i] reads as [i]
    and cannot be written.  The errors change nothing: they are raised
    before any access. *)
Theorem fixed_segments (m : VMMemory) (file_name : string) :
  (forall i, 0 <= i < TEMP_SIZE ->
     calculate_address m TEMP i file_name = Ok (TEMP_BASE + i))
  /\ (forall i v, TEMP_SIZE <= i ->
        read_segment m TEMP i file_name
        = Throw (RuntimeError (MsgTempIndex i))
        /\ write_segment m TEMP i v file_name
           = Throw (RuntimeError (MsgTempIndex i)))
  /\ (forall i, 0 <= i <= 1 ->
        read_segment m POINTER i file_name = Ok (ram m (THIS + i)))
  /\ (forall i v, 1 < i ->
        read_segment m POINTER i file_name
        = Throw (RuntimeError (MsgPointerIndex i))
        /\ write_segment m POINTER i v file_name
           = Throw (RuntimeError (MsgPointerIndex i)))
  /\ (forall v k other,
        exists m',
          write_segment m POINTER 0 v file_name = Ok m'
          /\ calculate_address m' SEG_THIS k other = Ok (to_word (v + k))
          /\ ram m' THAT = ram m THAT)
  /\ (forall v k other,
        exists m',
          write_segment m POINTER 1 v file_name = Ok m'
          /\ calculate_address m' SEG_THAT k other = Ok (to_word (v + k))
          /\ ram m' THIS = ram m THIS)
  /\ (forall i, read_segment m CONSTANT i file_name = Ok i)
  /\ (forall i v,
        write_segment m CONSTANT i v file_name
        = Throw (RuntimeError MsgWriteConstant)).
Proof.
  split; [|split; [|split; [|split; [|split; [|split; [|split]]]]]].
  - intros i Hi. unfold calculate_address.
    rewrite geb_false by (unfold_addresses; lia).
    rewrite to_word_small by (unfold_addresses; lia). reflexivity.
  - intros i v Hi. unfold read_segment, write_segment, calculate_address.
    rewrite geb_true by exact Hi. split; reflexivity.
  - intros i Hi. unfold read_segment, calculate_address.
    rewrite gtb_false by lia.
    cbn [bind]. rewrite to_word_small by (unfold_addresses; lia).
    rewrite ram_get_in by (unfold_addresses; lia). reflexivity.
  - intros i v Hi. unfold read_segment, write_segment, calculate_address.
    rewrite gtb_true by exact Hi. split; reflexivity.
  - intros v k other. eexists. split; [reflexivity|].
    split; reflexivity.
  - intros v k other. eexists. split; [reflexivity|].
    split; reflexivity.
  - reflexivity.
  - reflexivity.
Qed.

Lemma lookup_other key k v l :
  k <> key -> lookup key ((k, v) :: l) = lookup key l.
Proof.
  intros H. cbn. destruct (String.eqb_spec k key); [contradiction|reflexivity].
Qed.

Lemma lookup_here key v l : lookup key ((key, v) :: l) = Some v.
Proof. cbn. now rewrite String.eqb_refl. Qed.

Lemma allocate_statics_fresh basename files : forall m base,
  next_static_address m = base -> 0 <= base ->
  base + 16 * Z.of_nat (List.length files) <= STACK_BASE ->
  NoDup (map basename files) ->
  (forall f, In f files -> lookup (basename f) (static_bases m) = None) ->
  exists m',
    VM.allocate_statics basename files m = Ok m'
    /\ ram m' = ram m /\ call_stack m' = call_stack m
    /\ next_static_address m' = base + 16 * Z.of_nat (List.length files)
    /\ (forall i f, nth_error files i = Some f ->
          lookup (basename f) (static_bases m')
          = Some (base + 16 * Z.of_nat i)).
Proof.
  induction files as [|f more IH]; intros m base Hnext Hbase Hroom Hnd Hfresh.
  - exists m. cbn. repeat split; try lia. intros [|i] g; discriminate.
  - cbn [map] in Hnd. inversion Hnd as [|? ? Hnotin Hnd']; subst.
    cbn [VM.allocate_statics List.length] in Hroom |- *.
    unfold get_static_base.
    rewrite (Hfresh f) by (left; reflexivity).
    rewrite Nat2Z.inj_succ in Hroom.
    rewrite geb_false by (unfold_addresses; lia).
    rewrite to_word_small by (unfold_addresses; lia).
    destruct (IH (mkVMMem (ram m) (call_stack m)
                    ((basename f, next_static_address m) :: static_bases m)
                    (next_static_address m + 16))
                 (next_static_address m + 16))
      as (m' & Hrun & Hram & Hcs & Hn & Hall).
    + reflexivity.
    + lia.
    + lia.
    + exact Hnd'.
    + intros g Hg. cbn [static_bases]. rewrite lookup_other.
      * apply Hfresh. now right.
      * intros E. apply Hnotin. rewrite E. now apply in_map.
    + exists m'. split; [exact Hrun|]. cbn in Hram, Hcs.
      split; [exact Hram|]. split; [exact Hcs|].
      split; [rewrite Hn, Nat2Z.inj_succ; lia|].
      intros [|i] g Hg.
      * cbn in Hg. inversion Hg; subst g. clear Hg.
        (* the entry of [f] is below those of [more] *)
        assert (Hkeep : forall more' m1 m2,
                  VM.allocate_statics basename more' m1 = Ok m2 ->
                  forall key v, lookup key (static_bases m1) = Some v ->
                  lookup key (static_bases m2) = Some v).
        { clear. induction more' as [|h t IHt]; intros m1 m2 H key v Hk.
          - cbn in H. inversion H; subst. exact Hk.
          - cbn [VM.allocate_statics] in H. unfold get_static_base in H.
            destruct (lookup (basename h) (static_bases m1)) as [b|] eqn:E.
            + eapply IHt; eassumption.
            + destruct (next_static_address m1 >=? STACK_BASE);
                [discriminate|].
              eapply IHt; [exact H|]. cbn [static_bases].
              destruct (String.eqb_spec (basename h) key) as [<-|Hne].
              * congruence.
              * rewrite lookup_other by exact Hne. exact Hk. }
        rewrite (Hkeep _ _ _ Hrun (basename f) (next_static_address m)).
        -- f_equal. cbn. lia.
        -- cbn [static_bases]. apply lookup_here.
      * cbn in Hg. rewrite (Hall i g Hg). f_equal. lia.
Qed.

Lemma allocate_statics_full basename files : forall m base,
  next_static_address m = base -> 0 <= base ->
  (0 < List.length files)%nat ->
  STACK_BASE <= base + 16 * (Z.of_nat (List.length files) - 1) ->
  NoDup (map basename files) ->
  (forall f, In f files -> lookup (basename f) (static_bases m) = None) ->
  VM.allocate_statics basename files m
  = Throw (RuntimeError MsgOutOfStaticSpace).
Proof.
  induction files as [|f more IH]; intros m base Hnext Hbase Hlen Hroom Hnd
    Hfresh; [cbn in Hlen; lia|].
  cbn [map] in Hnd. inversion Hnd as [|? ? Hnotin Hnd']; subst.
  cbn [VM.allocate_statics]. unfold get_static_base.
  rewrite (Hfresh f) by (left; reflexivity).
  destruct (Z.geb_spec (next_static_address m) STACK_BASE) as [|Hlt];
    [reflexivity|].
  cbn [List.length] in Hroom. rewrite Nat2Z.inj_succ in Hroom.
  rewrite to_word_small by (unfold_addresses; lia).
  apply (IH _ (next_static_address m + 16)).
  - reflexivity.
  - lia.
  - destruct more; [cbn in Hroom; lia|cbn; lia].
  - lia.
  - exact Hnd'.
  - intros g Hg. cbn [static_bases]. rewrite lookup_other.
    + apply Hfresh. now right.
    + intros E. apply Hnotin. rewrite E. now apply in_map.
Qed.

(** X19.  Static segments.  From a reset memory, the source files of a
    program (with distinct base names) get their static segments at
    16, 32, 48, ... in the order of the files, which leaves room for
    fifteen files: with up to fifteen the allocation succeeds, RAM is not
    touched and [static k] of the [i]-th file is RAM[16 + 16 i + k]; with
    sixteen or more it throws for lack of static space.  The index is not
    checked against 16, so [static 16] of a file is [static 0] of the
    next. *)
Theorem static_segments_are_16_words_apart
    (get_file_basename : string -> string) (files : list string)
    (m : VMMemory) :
  NoDup (map get_file_basename files) ->
  ((List.length files <= 15)%nat ->
   exists m',
     VM.allocate_statics get_file_basename files (reset m) = Ok m'
     /\ ram m' = ram (reset m)
     /\ forall i f k,
          nth_error files i = Some f ->
          get_static_base m' (get_file_basename f)
          = Ok (16 + 16 * Z.of_nat i, m')
          /\ calculate_address m' STATIC k (get_file_basename f)
             = Ok (to_word (16 + 16 * Z.of_nat i + k)))
  /\ ((16 <= List.length files)%nat ->
      VM.allocate_statics get_file_basename files (reset m)
      = Throw (RuntimeError MsgOutOfStaticSpace)).
Proof.
  intros Hnd. split; intros Hlen.
  - destruct (allocate_statics_fresh get_file_basename files (reset m) 16)
      as (m' & Hrun & Hram & _ & _ & Hall).
    + reflexivity.
    + lia.
    + unfold_addresses. lia.
    + exact Hnd.
    + reflexivity.
    + exists m'. split; [exact Hrun|]. split; [exact Hram|].
      intros i f k Hf. unfold get_static_base, calculate_address.
      rewrite (Hall i f Hf). split; reflexivity.
  - apply (allocate_statics_full get_file_basename files (reset m) 16).
    + reflexivity.
    + lia.
    + lia.
    + unfold_addresses. lia.
    + exact Hnd.
    + reflexivity.
Qed.

Lemma static_segments_are_16_words_apart_witness :
  exists m',
    VM.allocate_statics Vocabulary.plain_basename ["Main"; "Math"]%string
      (reset (mkVMMem (fun _ => 0) [] [] STATIC_BASE)) = Ok m'
    /\ calculate_address m' STATIC 3 (Vocabulary.plain_basename "Math")
       = Ok 35.
Proof.
  assert (Hnd : NoDup (map Vocabulary.plain_basename ["Main"; "Math"]%string)).
  { cbn. constructor; [|constructor; [|constructor]]; cbn; intuition
      discriminate. }
  destruct (static_segments_are_16_words_apart Vocabulary.plain_basename
              ["Main"; "Math"]%string
              (mkVMMem (fun _ => 0) [] [] STATIC_BASE) Hnd) as [H _].
  destruct H as (m' & Hrun & _ & Hall); [cbn; lia|].
  exists m'. split; [exact Hrun|].
  destruct (Hall 1%nat "Math"%string 3 eq_refl) as [_ Hc].
  rewrite Hc. reflexivity.
Defined.

Lemma push_zeros_zero count : forall r sp r' sp',
  push_zeros count r sp = Ok (r', sp') ->
  0 <= sp -> sp + Z.of_nat count <= RAM_SIZE ->
  forall a, sp <= a < sp + Z.of_nat count -> r' a = 0.
Proof.
  induction count as [|count IH]; intros r sp r' sp' H Hsp Hfit a Ha.
  - cbn in Ha. lia.
  - cbn [push_zeros] in H. rewrite ram_put_in in H by lia. cbn [bind] in H.
    rewrite to_word_small in H by (unfold_addresses; lia).
    destruct (Z.eq_dec a sp) as [->|Hne].
    + destruct (push_zeros_spec count (upd r sp 0) (sp + 1))
        as (r2 & Hrun & Hlow); [lia|lia|].
      rewrite Hrun in H. inversion H; subst r' sp'.
      rewrite Hlow by lia. apply upd_same.
    + eapply IH; [exact H|lia|lia|lia].
Qed.

(** X20.  The frame a call builds.  When the arguments lie in the stack
    area and the frame fits the RAM, [push_frame] succeeds; afterwards the
    callee reads its [na] arguments as the words that were on top of the
    stack, every one of its [nl] locals as 0, the caller's THIS and THAT
    are still in place, the five words from the old SP on are the return
    address and the caller's LCL, ARG, THIS and THAT, SP is past the
    locals, and the function is the current one. *)
Theorem call_frame_layout (m : VMMemory) (ra : Z) (f any : string)
    (na nl sp : Z) :
  ram m SP = sp ->
  STACK_BASE <= sp - na -> 0 <= na -> 0 <= nl -> sp + 5 + nl <= RAM_SIZE ->
  exists m1,
    push_frame m ra f na nl = Ok m1
    /\ (forall j, 0 <= j < na ->
          read_segment m1 ARGUMENT j any = Ok (ram m (sp - na + j)))
    /\ (forall k, 0 <= k < nl -> read_segment m1 LOCAL k any = Ok 0)
    /\ ram m1 THIS = ram m THIS /\ ram m1 THAT = ram m THAT
    /\ ram m1 sp = to_word ra
    /\ ram m1 (sp + 1) = ram m LCL /\ ram m1 (sp + 2) = ram m ARG
    /\ ram m1 (sp + 3) = ram m THIS /\ ram m1 (sp + 4) = ram m THAT
    /\ ram m1 SP = sp + 5 + nl
    /\ current_function m1 = f.
Proof.
  intros Hsp0 Hbase Hna Hnl Hfit.
  destruct (push_frame_spec m ra f na nl sp Hsp0 Hbase Hna Hnl Hfit)
    as (m1 & Hpf & HSP & HLCL & HARG & Hra & H1 & H2 & H3 & H4 & Hlow
        & Hcs & _).
  assert (Hzero : forall a, sp + 5 <= a < sp + 5 + nl -> ram m1 a = 0).
  { revert Hpf. unfold push_frame. rewrite Hsp0.
    cbn [saved_lcl saved_arg saved_this saved_that].
    rewrite ram_put_in by (unfold_addresses; lia). cbn [bind].
    rewrite (to_word_small (sp + 1)) by (unfold_addresses; lia).
    rewrite ram_put_in by (unfold_addresses; lia). cbn [bind].
    rewrite (to_word_small (sp + 1 + 1)) by (unfold_addresses; lia).
    rewrite ram_put_in by (unfold_addresses; lia). cbn [bind].
    rewrite (to_word_small (sp + 1 + 1 + 1)) by (unfold_addresses; lia).
    rewrite ram_put_in by (unfold_addresses; lia). cbn [bind].
    rewrite (to_word_small (sp + 1 + 1 + 1 + 1)) by (unfold_addresses; lia).
    rewrite ram_put_in by (unfold_addresses; lia). cbn [bind].
    rewrite (to_word_small (sp + 1 + 1 + 1 + 1 + 1))
      by (unfold_addresses; lia).
    match goal with
    | |- context [push_zeros ?c ?r ?s] =>
        destruct (push_zeros c r s) as [[r' sp']| |] eqn:Hz;
          cbn [bind]; try discriminate
    end.
    intros Hpf a Ha. inversion Hpf; subst m1. cbn [ram].
    rewrite upd_other by (unfold_addresses; lia).
    eapply push_zeros_zero; [exact Hz| | |].
    - unfold_addresses. lia.
    - rewrite Z2Nat.id by lia. lia.
    - rewrite Z2Nat.id by lia. lia. }
  exists m1. split; [exact Hpf|].
  split; [|split; [|split; [|split; [|split; [|split; [|split; [|split;
    [|split; [|split]]]]]]]]].
  - intros j Hj. unfold read_segment, calculate_address. rewrite HARG.
    cbn [bind]. rewrite to_word_small by (unfold_addresses; lia).
    rewrite ram_get_in by (unfold_addresses; lia).
    rewrite Hlow by (unfold_addresses; lia). reflexivity.
  - intros k Hk. unfold read_segment, calculate_address. rewrite HLCL.
    cbn [bind]. rewrite to_word_small by (unfold_addresses; lia).
    rewrite ram_get_in by (unfold_addresses; lia).
    rewrite Hzero by lia. reflexivity.
  - apply Hlow. unfold_addresses. lia.
  - apply Hlow. unfold_addresses. lia.
  - exact Hra.
  - exact H1.
  - exact H2.
  - exact H3.
  - exact H4.
  - exact HSP.
  - unfold current_function. rewrite Hcs. reflexivity.
Qed.

Lemma call_frame_layout_witness :
  let m0 := reset (mkVMMem (fun _ => 0) [] [] STATIC_BASE) in
  let m := set_ram m0 (upd (upd (ram m0) 256 41) SP 257) in
  exists m1,
    push_frame m 9 "Math.neg" 1 2 = Ok m1
    /\ read_segment m1 ARGUMENT 0 "Math" = Ok 41
    /\ read_segment m1 LOCAL 1 "Math" = Ok 0
    /\ ram m1 SP = 264.
Proof.
  intros m0 m.
  destruct (call_frame_layout m 9 "Math.neg" "Math" 1 2 257)
    as (m1 & Hpf & Harg & Hloc & _ & _ & _ & _ & _ & _ & _ & HSP & _);
    [reflexivity | unfold STACK_BASE; lia | lia | lia
    | unfold RAM_SIZE; lia |].
  exists m1. split; [exact Hpf|].
  split; [rewrite (Harg 0) by lia; reflexivity|].
  split; [apply Hloc; lia|exact HSP].
Defined.

Lemma words_from_cells count : forall r addr,
  0 <= addr -> addr + Z.of_nat count <= RAM_SIZE ->
  words_from count r addr
  = Ok (map (fun i => r (addr + Z.of_nat i)) (seq 0 count)).
Proof.
  induction count as [|count IH]; intros r addr Haddr Hfit; [reflexivity|].
  cbn [words_from]. rewrite ram_get_in by lia. cbn [bind].
  rewrite to_word_small by (unfold_addresses; lia).
  rewrite IH by lia. cbn [bind seq map]. rewrite Z.add_0_r.
  do 2 f_equal. rewrite <- seq_shift, map_map.
  apply map_ext. intros i. f_equal. lia.
Qed.

(** X21.  The stack as a list.  With SP inside the stack area,
    [get_stack_contents] is the list of the SP - 256 words from address
    256 up; a push appends its value to that list and a pop removes the
    last element, which is the value it returns. *)
Theorem stack_contents_follow_push_and_pop (m : VMMemory) (v sp : Z) :
  ram m SP = sp ->
  STACK_BASE <= sp <= STACK_MAX ->
  exists l m1 m2,
    get_stack_contents m = Ok l
    /\ Z.of_nat (List.length l) = sp - STACK_BASE
    /\ push m v = Ok m1
    /\ get_stack_contents m1 = Ok (l ++ [v])
    /\ pop m1 = Ok (v, m2)
    /\ get_stack_contents m2 = Ok l.
Proof.
  intros Hsp Hrange.
  destruct (push_then_pop m v sp Hsp Hrange)
    as (m1 & m2 & Hpush & Hpop & Hr1 & Hsp2 & _ & Hsame & _).
  set (n := Z.to_nat (sp - STACK_BASE)).
  assert (Hn : Z.of_nat n = sp - STACK_BASE) by (unfold n; lia).
  exists (map (fun i => ram m (STACK_BASE + Z.of_nat i)) (seq 0 n)), m1, m2.
  split; [|split; [|split; [|split; [|split]]]].
  - unfold get_stack_contents. rewrite Hsp. fold n.
    apply words_from_cells; unfold_addresses; lia.
  - now rewrite length_map, length_seq.
  - exact Hpush.
  - unfold get_stack_contents. rewrite Hr1, upd_same.
    replace (Z.to_nat (sp + 1 - STACK_BASE)) with (S n) by (unfold n; lia).
    rewrite words_from_cells by (unfold_addresses; lia).
    rewrite seq_S, map_app. cbn [map]. f_equal. f_equal.
    + apply map_ext_in. intros i Hi. apply in_seq in Hi.
      rewrite !upd_other by (unfold_addresses; lia). reflexivity.
    + cbn [Nat.add]. rewrite upd_other by (unfold_addresses; lia).
      rewrite upd_at by lia. reflexivity.
  - exact Hpop.
  - unfold get_stack_contents. rewrite Hsp2. fold n.
    rewrite words_from_cells by (unfold_addresses; lia).
    f_equal. apply map_ext_in. intros i Hi. apply in_seq in Hi.
    apply Hsame. lia.
Qed.

Lemma stack_contents_follow_push_and_pop_witness :
  let m := reset (mkVMMem (fun _ => 0) [] [] STATIC_BASE) in
  exists m1, push m 7 = Ok m1 /\ get_stack_contents m1 = Ok [7].
Proof.
  intro m.
  destruct (stack_contents_follow_push_and_pop m 7 256 eq_refl)
    as (l & m1 & _ & Hl & Hlen & Hpush & Hget & _);
    [unfold STACK_BASE, STACK_MAX; lia|].
  exists m1. split; [exact Hpush|].
  destruct l; [exact Hget|cbn in Hlen; lia].
Defined.

End StackAndSegments.

(** ** VM engine: commands *)

Section VMCommands.
Import VMMem VM Notions.

Ltac unfold_addresses :=
  unfold SP, LCL, ARG, THIS, THAT, TEMP_BASE, TEMP_SIZE, STATIC_BASE,
    STACK_BASE, STACK_MAX, RAM_SIZE in *.

Ltac upd_simpl :=
  repeat first [ rewrite upd_at by (unfold_addresses; lia)
               | rewrite upd_other by (unfold_addresses; lia) ].

Lemma mem_pop_ok s sp :
  ram (memory s) SP = sp -> STACK_BASE < sp <= RAM_SIZE ->
  mem_pop s = VOk (ram (memory s) (sp - 1)) (popped s sp).
Proof.
  intros Hsp Hrange. unfold mem_pop, on_memory, pop. rewrite Hsp.
  replace (sp <=? STACK_BASE) with false
    by (symmetry; apply Z.leb_gt; lia).
  rewrite ram_get_in by (unfold_addresses; lia). cbn [bind].
  rewrite to_word_small by (unfold_addresses; lia).
  rewrite upd_other by (unfold_addresses; lia). reflexivity.
Qed.

Lemma mem_pop_empty s :
  ram (memory s) SP <= STACK_BASE ->
  mem_pop s = VThrow (RuntimeError MsgStackUnderflow) s.
Proof.
  intros H. unfold mem_pop, on_memory, pop.
  replace (ram (memory s) SP <=? STACK_BASE) with true
    by (symmetry; apply Z.leb_le; lia).
  reflexivity.
Qed.

Lemma mem_push_ok s v sp :
  ram (memory s) SP = sp -> 0 < sp <= STACK_MAX ->
  mem_push v s
  = VOk tt (set_memory s
              (set_ram (memory s)
                 (upd (upd (ram (memory s)) sp v) SP (sp + 1)))).
Proof.
  intros Hsp Hrange. unfold mem_push, on_memory, push. rewrite Hsp.
  rewrite gtb_false by lia.
  rewrite ram_put_in by (unfold_addresses; lia). cbn [bind with_unit].
  rewrite to_word_small by (unfold_addresses; lia). reflexivity.
Qed.

Lemma to_word_int16_add x y :
  to_word (to_int16 x + to_int16 y) = (x + y) mod 65536.
Proof.
  unfold to_word. rewrite Zplus_mod, !to_int16_mod, <- Zplus_mod.
  reflexivity.
Qed.

Lemma to_word_int16_sub x y :
  to_word (to_int16 x - to_int16 y) = (x - y) mod 65536.
Proof.
  unfold to_word. rewrite Zminus_mod, !to_int16_mod, <- Zminus_mod.
  reflexivity.
Qed.

Lemma to_word_int16_opp y : to_word (- to_int16 y) = (- y) mod 65536.
Proof.
  unfold to_word. rewrite <- (Z.sub_0_l (to_int16 y)), <- (Z.sub_0_l y).
  rewrite Zminus_mod, to_int16_mod, <- Zminus_mod. reflexivity.
Qed.

Lemma to_word_lnot y : 0 <= y < 65536 -> to_word (Z.lnot y) = 65535 - y.
Proof.
  intros Hy. unfold to_word, Z.lnot.
  replace (Z.pred (- y)) with (65535 - y + (-1) * 65536) by lia.
  rewrite Z.mod_add by lia. apply Z.mod_small. lia.
Qed.

Lemma to_word_land x y :
  0 <= x < 65536 -> 0 <= y < 65536 -> to_word (Z.land x y) = Z.land x y.
Proof.
  intros Hx Hy. unfold to_word. change 65536 with (2 ^ 16).
  apply Z.bits_inj'. intros i Hi. destruct (Z.ltb_spec i 16).
  - now rewrite Z.mod_pow2_bits_low by lia.
  - rewrite Z.mod_pow2_bits_high, Z.land_spec, !testbit_word_high by lia.
    reflexivity.
Qed.

(** The word pushed by an arithmetic command. *)
Lemma arithmetic_value op x y :
  0 <= x < 65536 -> 0 <= y < 65536 ->
  arithmetic_result op x y
  = match op with
    | ADD => to_word (to_int16 x + to_int16 y)
    | SUB => to_word (to_int16 x - to_int16 y)
    | NEG => to_word (- to_int16 y)
    | EQ => truth (x =? y)
    | GT => truth (to_int16 x >? to_int16 y)
    | LT => truth (to_int16 x <? to_int16 y)
    | AND => to_word (Z.land x y)
    | OR => to_word (Z.lor x y)
    | NOT => to_word (Z.lnot y)
    end.
Proof.
  intros Hx Hy. destruct op; cbn [arithmetic_result].
  - now rewrite to_word_int16_add.
  - now rewrite to_word_int16_sub.
  - now rewrite to_word_int16_opp.
  - reflexivity.
  - now rewrite Z.gtb_ltb.
  - reflexivity.
  - now rewrite to_word_land.
  - now rewrite to_word_lor.
  - now rewrite to_word_lnot.
Qed.

(** X22.  Arithmetic commands on the stack.  With its operands on the
    stack ([x] below [y]; one operand for [neg] and [not]), a command
    replaces them by one word: the sum, the difference [x - y] or the
    negation modulo 2^16, the bitwise and, or, complement, or 65535 / 0
    for a comparison, [gt] and [lt] comparing as signed 16-bit numbers.
    SP moves down by the operands less one, no other word of the RAM
    changes, the PC moves to the next command and one arithmetic command
    is counted. *)
Theorem arithmetic_command_on_the_stack (op : ArithmeticOp) (s : VMEngine)
    (sp : Z) :
  let x := ram (memory s) (sp - 2) in
  let y := ram (memory s) (sp - 1) in
  let top := sp - operands op in
  ram (memory s) SP = sp ->
  STACK_BASE + operands op <= sp <= STACK_MAX + 1 ->
  0 <= x < 65536 -> 0 <= y < 65536 ->
  exists s',
    execute_arithmetic op s = VOk tt s'
    /\ ram (memory s') SP = top + 1
    /\ ram (memory s') top = arithmetic_result op x y
    /\ (forall a, a <> SP -> a <> top ->
          ram (memory s') a = ram (memory s) a)
    /\ pc s' = to_u64 (pc s + 1)
    /\ state s' = state s
    /\ stats s' = inc_arithmetic_count (stats s).
Proof.
  intros x y top Hsp Hrange Hx Hy.
  pose proof (arithmetic_value op x y Hx Hy) as Hval.
  set (s0 := set_stats s (inc_arithmetic_count (stats s))).
  assert (Hpop1 : mem_pop s0 = VOk y (popped s0 sp)).
  { refine (mem_pop_ok s0 sp Hsp _).
    unfold operands in Hrange. unfold_addresses. destruct op; lia. }
  assert (Hsp1 : ram (memory (popped s0 sp)) SP = sp - 1).
  { cbn [popped memory ram set_memory set_ram]. apply upd_same. }
  destruct op; unfold operands in Hrange, top; cbn [arithmetic_result] in *;
    unfold execute_arithmetic, vbind, count, advance_pc, modify;
    fold s0; rewrite Hpop1;
    try (rewrite (mem_pop_ok (popped s0 sp) (sp - 1) Hsp1)
           by (unfold_addresses; lia);
         replace (ram (memory (popped s0 sp)) (sp - 1 - 1)) with x
           by (cbn [popped memory ram set_memory set_ram];
               rewrite upd_other by (unfold_addresses; lia);
               unfold x; f_equal; lia);
         rewrite (mem_push_ok _ _ (sp - 1 - 1))
           by first [ cbn [popped memory ram set_memory set_ram];
                      apply upd_same
                    | unfold_addresses; lia ]);
    try (rewrite (mem_push_ok _ _ (sp - 1))
           by first [ exact Hsp1 | unfold_addresses; lia ]);
    try rewrite <- Hval;
    (eexists; split; [reflexivity|]);
    cbn [memory ram pc state stats set_memory set_ram set_pc set_stats
         popped s0];
    (split; [upd_simpl; lia|]);
    (split; [upd_simpl; reflexivity|]);
    (split; [intros a Ha1 Ha2; upd_simpl; reflexivity|]);
    repeat split.
Qed.

Lemma arithmetic_command_on_the_stack_witness :
  let m0 := VMMem.reset (mkVMMem (fun _ => 0) [] [] STATIC_BASE) in
  let m := set_ram m0 (upd (upd (upd (ram m0) 256 3) 257 65535) SP 258) in
  let s := set_memory (loaded (mkProgram [ArithmeticCommand GT] [] [] [])) m in
  exists s',
    execute_arithmetic GT s = VOk tt s'
    /\ ram (memory s') SP = 257 /\ ram (memory s') 256 = 65535.
Proof.
  intros m0 m s.
  destruct (arithmetic_command_on_the_stack GT s 258)
    as (s' & Hrun & Hsp & Hres & _);
    [reflexivity | unfold STACK_BASE, STACK_MAX; cbn; lia
    | cbn; lia | cbn; lia |].
  exists s'. split; [exact Hrun|]. split; [exact Hsp|exact Hres].
Defined.

Lemma execute_command_throws s cmd e s1 :
  vm_fetches s = true ->
  nth_error (commands (program s)) (Z.to_nat (pc s)) = Some cmd ->
  dispatch cmd s = VThrow e s1 ->
  execute_command s
  = Some (false, set_state (set_error_fields s1 (Some (What e)) (pc s1)) ERROR).
Proof.
  intros Hfetch Hcmd Hthrow. unfold vm_fetches in Hfetch.
  apply andb_prop in Hfetch as [Hfetch Hbp].
  apply andb_prop in Hfetch as [Hhalt Hpause].
  apply negb_true_iff in Hhalt, Hpause, Hbp.
  unfold execute_command. rewrite Hhalt, Hpause, Hbp, Hcmd.
  unfold vbind at 1. rewrite Hthrow. reflexivity.
Qed.

(** X23.  A command that fails is not undone.  The engine turns the
    exception into the ERROR state at the PC of the command, without
    counting an instruction, but what the command did before the throw
    stays: a two-operand arithmetic command on a stack of one word has
    popped that word; [return] without an active function has popped the
    return value; both have been counted in their own counter, as has a
    [call] of an unknown function. *)
Theorem a_failing_command_is_not_undone (s : VMEngine) :
  vm_fetches s = true ->
  let failed (e : N2TError) (s1 : VMEngine) :=
    Some (false, set_state (set_error_fields s1 (Some (What e)) (pc s)) ERROR)
  in
  (forall op,
      nth_error (commands (program s)) (Z.to_nat (pc s))
      = Some (ArithmeticCommand op) ->
      operands op = 2 ->
      ram (memory s) SP = STACK_BASE + 1 ->
      execute_command s
      = failed (RuntimeError MsgStackUnderflow)
          (popped (set_stats s (inc_arithmetic_count (stats s)))
                  (STACK_BASE + 1)))
  /\ (forall sp,
      nth_error (commands (program s)) (Z.to_nat (pc s))
      = Some ReturnCommand ->
      call_stack (memory s) = [] ->
      ram (memory s) SP = sp -> STACK_BASE < sp <= RAM_SIZE ->
      execute_command s
      = failed (RuntimeError MsgNoActiveFunction)
          (popped (set_stats s (inc_return_count (stats s))) sp))
  /\ (forall f n,
      nth_error (commands (program s)) (Z.to_nat (pc s))
      = Some (CallCommand f n) ->
      lookup f (function_entry_points (program s)) = None ->
      execute_command s
      = failed (RuntimeError (MsgUndefinedFunction f))
          (set_stats s (inc_call_count (stats s)))).
Proof.
  intros Hfetch failed. split; [|split].
  - intros op Hcmd Hbin Hsp.
    rewrite (execute_command_throws s _ (RuntimeError MsgStackUnderflow)
               (popped (set_stats s (inc_arithmetic_count (stats s)))
                       (STACK_BASE + 1)) Hfetch Hcmd); [reflexivity|].
    set (s0 := set_stats s (inc_arithmetic_count (stats s))).
    assert (Hpop1 : mem_pop s0
                    = VOk (ram (memory s0) (STACK_BASE + 1 - 1))
                          (popped s0 (STACK_BASE + 1))).
    { refine (mem_pop_ok s0 _ Hsp _). unfold_addresses. lia. }
    assert (Hpop2 : mem_pop (popped s0 (STACK_BASE + 1))
                    = VThrow (RuntimeError MsgStackUnderflow)
                             (popped s0 (STACK_BASE + 1))).
    { apply mem_pop_empty. cbn [popped memory ram set_memory set_ram].
      rewrite upd_same. lia. }
    destruct op; try discriminate Hbin;
      cbn [dispatch]; unfold execute_arithmetic, vbind, count, modify;
      fold s0; rewrite Hpop1, Hpop2; reflexivity.
  - intros sp Hcmd Hcs Hsp Hrange.
    rewrite (execute_command_throws s _ (RuntimeError MsgNoActiveFunction)
               (popped (set_stats s (inc_return_count (stats s))) sp)
               Hfetch Hcmd); [reflexivity|].
    set (s0 := set_stats s (inc_return_count (stats s))).
    cbn [dispatch]. unfold execute_return, vbind, count, modify. fold s0.
    rewrite (mem_pop_ok s0 sp Hsp Hrange).
    unfold on_memory, pop_frame.
    cbn [popped memory call_stack set_memory set_ram s0 set_stats].
    rewrite Hcs. reflexivity.
  - intros f n Hcmd Hnone.
    rewrite (execute_command_throws s _
               (RuntimeError (MsgUndefinedFunction f))
               (set_stats s (inc_call_count (stats s))) Hfetch Hcmd);
      [reflexivity|].
    cbn [dispatch].
    unfold execute_call, lookup_function, count, modify, get, vbind.
    cbn [program set_stats]. rewrite Hnone. reflexivity.
Qed.

Lemma a_failing_command_is_not_undone_witness :
  let m0 := VMMem.reset (mkVMMem (fun _ => 0) [] [] STATIC_BASE) in
  let m := set_ram m0 (upd (upd (ram m0) 256 3) SP 257) in
  let s := set_memory (loaded (mkProgram [ArithmeticCommand ADD] [] [] [])) m in
  exists s',
    execute_command s = Some (false, s')
    /\ state s' = ERROR /\ ram (memory s') SP = 256
    /\ instructions_executed (stats s') = 0.
Proof.
  intros m0 m s.
  destruct (a_failing_command_is_not_undone s eq_refl) as (H & _).
  eexists. split; [apply (H ADD); reflexivity|]. repeat split.
Defined.

(** X24.  [if-goto] pops first and looks the label up only when it
    jumps.  With a word on the stack, the condition is popped; if it is 0
    the PC moves to the next command, whatever the label is, defined or
    not; otherwise the PC becomes the position of the label, taken under
    the name [function$label] of the current function when that name is
    defined and under the plain name otherwise, and when neither is
    defined the command throws with the condition already popped. *)
Theorem if_goto_pops_then_branches (s : VMEngine) (label : string) (sp : Z) :
  let condition := ram (memory s) (sp - 1) in
  let s1 := popped s sp in
  let labels := label_positions (program s) in
  let current := current_function (memory s) in
  let scoped := (current ++ "$" ++ label)%string in
  ram (memory s) SP = sp -> STACK_BASE < sp <= RAM_SIZE ->
  (condition = 0 ->
   execute_if_goto label s = VOk tt (set_pc s1 (to_u64 (pc s + 1))))
  /\ (condition <> 0 ->
      (forall t, current <> EmptyString -> lookup scoped labels = Some t ->
         execute_if_goto label s = VOk tt (set_pc s1 t))
      /\ (forall t,
            current = EmptyString \/ lookup scoped labels = None ->
            lookup label labels = Some t ->
            execute_if_goto label s = VOk tt (set_pc s1 t))
      /\ (current = EmptyString \/ lookup scoped labels = None ->
          lookup label labels = None ->
          execute_if_goto label s
          = VThrow (RuntimeError (MsgUndefinedLabel label)) s1)).
Proof.
  intros condition s1 labels current scoped Hsp Hrange.
  assert (Hhead : execute_if_goto label s
            = if negb (condition =? 0)
              then (target <~ lookup_label label ;;
                    modify (fun s => set_pc s target)) s1
              else advance_pc s1).
  { unfold execute_if_goto, vbind at 1.
    rewrite (mem_pop_ok s sp Hsp Hrange). unfold condition, s1.
    destruct (negb (ram (memory s) (sp - 1) =? 0)); reflexivity. }
  assert (Hempty : forall c : string,
            CPUMem.is_empty c = true <-> c = EmptyString).
  { intros [|a c]; cbn; split; congruence. }
  split.
  - intros Hc. rewrite Hhead, Hc. reflexivity.
  - intros Hc. apply Z.eqb_neq in Hc. rewrite Hhead, Hc. cbn [negb].
    unfold lookup_label, get, modify, vbind, ret, throw.
    change (current_function (memory s1)) with current.
    change (label_positions (program s1)) with labels.
    fold scoped.
    split; [|split].
    + intros t Hcur Hl. destruct (CPUMem.is_empty current) eqn:E.
      * apply Hempty in E. contradiction.
      * cbn [negb]. rewrite Hl. reflexivity.
    + intros t Hnone Hl. destruct (CPUMem.is_empty current) eqn:E;
        cbn [negb]; [now rewrite Hl|].
      destruct Hnone as [Hcur|Hnone];
        [apply Hempty in Hcur; congruence|].
      rewrite Hnone, Hl. reflexivity.
    + intros Hnone Hl. destruct (CPUMem.is_empty current) eqn:E;
        cbn [negb]; [now rewrite Hl|].
      destruct Hnone as [Hcur|Hnone];
        [apply Hempty in Hcur; congruence|].
      rewrite Hnone, Hl. reflexivity.
Qed.

Lemma if_goto_pops_then_branches_witness :
  let m0 := VMMem.reset (mkVMMem (fun _ => 0) [] [] STATIC_BASE) in
  let m := set_ram m0 (upd (upd (ram m0) 256 0) SP 257) in
  let s := set_memory (loaded (mkProgram [IfGotoCommand "NOWHERE"] [] [] [])) m
  in
  exists s',
    execute_if_goto "NOWHERE" s = VOk tt s'
    /\ pc s' = 1 /\ ram (memory s') SP = 256.
Proof.
  intros m0 m s.
  destruct (if_goto_pops_then_branches s "NOWHERE" 257 eq_refl) as [H _];
    [unfold STACK_BASE, RAM_SIZE; lia|].
  eexists. split; [apply H; reflexivity|]. split; reflexivity.
Defined.

Lemma allocate_statics_keeps basename files : forall m m',
  allocate_statics basename files m = Ok m' ->
  ram m' = ram m /\ call_stack m' = call_stack m.
Proof.
  induction files as [|f more IH]; intros m m' H; cbn [allocate_statics] in H.
  - inversion H; subst. split; reflexivity.
  - unfold get_static_base in H.
    destruct (lookup (basename f) (static_bases m)).
    + now apply IH.
    + destruct (next_static_address m >=? STACK_BASE); [discriminate|].
      apply IH in H. exact H.
Qed.

Lemma push_frame_call_stack m ra f na nl m1 :
  push_frame m ra f na nl = Ok m1 ->
  call_stack m1
  = mkFrame ra (ram m LCL) (ram m ARG) (ram m THIS) (ram m THAT) f na nl
    :: call_stack m.
Proof.
  unfold push_frame.
  repeat match goal with
  | |- context [bind (ram_put ?r ?i ?v) _] =>
      destruct (ram_put r i v); cbn [bind]; try discriminate
  end.
  match goal with
  | |- context [push_zeros ?c ?r ?s] =>
      destruct (push_zeros c r s) as [[r' sp']| |]; cbn [bind];
        try discriminate
  end.
  intros H. inversion H; subst. reflexivity.
Qed.

(** X25.  Where execution starts.  When [initialize_execution] returns
    (it throws only when a frame or the static segments do not fit), an
    engine without a set entry point starts at [Sys.init] if the program
    has it, else at [Main.main], each with a bootstrap frame whose return
    address is 0 and whose saved pointers are 0, and else at command 0
    with no frame at all; it is then PAUSED.  A set entry point that the
    program does not define puts the engine in ERROR, with nothing
    executed by [run]. *)
Theorem entry_point_selection (get_file_basename : string -> string)
    (s s' : VMEngine) :
  initialize_execution get_file_basename s = VOk tt s' ->
  let functions := function_entry_points (program s) in
  let bootstrap name t :=
    pc s' = t /\ state s' = PAUSED
    /\ call_stack (memory s')
       = [mkFrame 0 0 0 0 0 name 0 (locals_at (program s) t)] in
  (entry_point s = EmptyString ->
   (forall t, lookup "Sys.init" functions = Some t ->
      bootstrap "Sys.init"%string t)
   /\ (forall t, lookup "Sys.init" functions = None ->
         lookup "Main.main" functions = Some t ->
         bootstrap "Main.main"%string t)
   /\ (lookup "Sys.init" functions = None ->
       lookup "Main.main" functions = None ->
       pc s' = 0 /\ state s' = PAUSED /\ call_stack (memory s') = []))
  /\ (entry_point s <> EmptyString ->
      lookup (entry_point s) functions = None ->
      state s' = ERROR
      /\ error_message s' = Some (Text (MsgEntryPointNotFound (entry_point s)))
      /\ call_stack (memory s') = []
      /\ (state s = READY ->
          forall fuel, run get_file_basename fuel s = Returned ERROR s')).
Proof.
  intros Hinit functions bootstrap.
  assert (Hboot : forall name t,
            initialize_execution get_file_basename s = VOk tt s' ->
            (if CPUMem.is_empty (entry_point s) then
               if has_function (program s) "Sys.init" then "Sys.init"%string
               else if has_function (program s) "Main.main"
                    then "Main.main"%string else EmptyString
             else entry_point s) = name ->
            CPUMem.is_empty name = false ->
            lookup name functions = Some t -> bootstrap name t).
  { intros name t H Hname Hne Hl. unfold initialize_execution in H.
    cbv zeta in H. cbn [entry_point program set_memory] in H.
    rewrite Hname, Hne in H. cbn [negb] in H. fold functions in H.
    rewrite Hl in H. cbn [memory program set_pc set_memory] in H.
    destruct (push_frame _ 0 name 0 _) as [m1| |] eqn:Hpf; try discriminate.
    apply push_frame_call_stack in Hpf. cbn in Hpf.
    cbn [source_files program memory set_memory set_pc] in H.
    destruct (allocate_statics _ _ m1) as [m2| |] eqn:Ha; try discriminate.
    apply allocate_statics_keeps in Ha as [_ Hcs].
    inversion H; subst s'. unfold bootstrap. cbn.
    split; [reflexivity|]. split; [reflexivity|].
    rewrite Hcs, Hpf. reflexivity. }
  split.
  - intros Hep. unfold has_function in Hboot. fold functions in Hboot.
    rewrite Hep in Hboot. cbn [CPUMem.is_empty] in Hboot.
    split; [|split].
    + intros t Hl.
      apply (Hboot _ t Hinit); [now rewrite Hl|reflexivity|exact Hl].
    + intros t Hn Hl.
      apply (Hboot _ t Hinit); [now rewrite Hn, Hl|reflexivity|exact Hl].
    + intros Hn1 Hn2. unfold initialize_execution in Hinit.
      cbv zeta in Hinit. cbn [entry_point program set_memory] in Hinit.
      unfold has_function in Hinit. fold functions in Hinit.
      rewrite Hep, Hn1, Hn2 in Hinit. cbn [CPUMem.is_empty negb] in Hinit.
      cbn [source_files program memory set_memory set_pc] in Hinit.
      destruct (allocate_statics _ _ _) as [m2| |] eqn:Ha; try discriminate.
      apply allocate_statics_keeps in Ha as [_ Hcs].
      inversion Hinit; subst s'. cbn. rewrite Hcs. repeat split.
  - intros Hep Hnone.
    assert (Hne : CPUMem.is_empty (entry_point s) = false).
    { destruct (entry_point s); [contradiction|reflexivity]. }
    assert (Hs' : s' = set_error (set_memory s (VMMem.reset (memory s)))
                         (MsgEntryPointNotFound (entry_point s))).
    { unfold initialize_execution in Hinit. cbv zeta in Hinit.
      cbn [entry_point program set_memory] in Hinit.
      repeat (rewrite Hne in Hinit; cbn [negb] in Hinit).
      fold functions in Hinit. rewrite Hnone in Hinit.
      inversion Hinit. reflexivity. }
    split; [now rewrite Hs'|]. split; [now rewrite Hs'|].
    split; [now rewrite Hs'|].
    intros Hready fuel. unfold run, prepare. rewrite Hready, Hinit.
    rewrite Hs'. reflexivity.
Qed.

Lemma entry_point_selection_witness :
  let p := mkProgram
             [FunctionCommand "Main.main" 0; FunctionCommand "Sys.init" 1]
             [] [("Main.main"%string, 0); ("Sys.init"%string, 1)] [] in
  exists s',
    initialize_execution Vocabulary.plain_basename (loaded p) = VOk tt s'
    /\ pc s' = 1 /\ current_function (memory s') = "Sys.init"%string.
Proof.
  intro p. eexists. split; [reflexivity|].
  match goal with
  | |- pc ?s' = _ /\ _ =>
      destruct (entry_point_selection Vocabulary.plain_basename (loaded p) s'
                  eq_refl) as [H _]
  end.
  destruct (H eq_refl) as (Hsys & _).
  destruct (Hsys 1 eq_refl) as (Hpc & _ & Hcs).
  split; [exact Hpc|]. unfold current_function. rewrite Hcs. reflexivity.
Defined.

End VMCommands.

(** ** HDL chips: pins *)

Section ChipPins.
Import HDL Pins.

Lemma find_overwrite key value l :
  find key l <> None -> find key (overwrite key value l) = Some value.
Proof.
  induction l as [|[k v] l IH]; cbn; [congruence|].
  destruct (String.eqb k key) eqn:E; cbn; rewrite E; [reflexivity|exact IH].
Qed.

Lemma find_overwrite_other key value l other :
  other <> key -> find other (overwrite key value l) = find other l.
Proof.
  intros Hne. induction l as [|[k v] l IH]; cbn; [reflexivity|].
  destruct (String.eqb_spec k key) as [->|Hk]; cbn.
  - destruct (String.eqb_spec key other); [congruence|reflexivity].
  - destruct (String.eqb k other); [reflexivity|exact IH].
Qed.






Lemma bit_mask_ones w : 0 <= w <= 62 -> bit_mask w = Done (Z.ones w).
Proof.
  intros Hw. unfold bit_mask.
  replace (w <? 0) with false by (symmetry; apply Z.ltb_ge; lia).
  rewrite gtb_false by lia. cbn [orb]. unfold Z.ones.
  now rewrite Z.sub_1_r.
Qed.

Lemma field_written cur v lo w i :
  0 <= lo -> 0 <= w -> 0 <= i ->
  Z.testbit (Z.lor (Z.land cur (Z.lnot (Z.shiftl (Z.ones w) lo)))
                   (Z.shiftl (Z.land v (Z.ones w)) lo)) i
  = if (lo <=? i) && (i <? lo + w) then Z.testbit v (i - lo)
    else Z.testbit cur i.
Proof.
  intros Hlo Hw Hi.
  rewrite Z.lor_spec, Z.land_spec, Z.lnot_spec by lia.
  destruct (Z.leb_spec lo i) as [Hge|Hlt]; cbn [andb].
  - rewrite !Z.shiftl_spec, Z.land_spec, !testbit_ones by lia.
    destruct (Z.ltb_spec (i - lo) w); destruct (Z.ltb_spec i (lo + w));
      try lia; cbn [negb].
    + now rewrite andb_false_r, andb_true_r.
    + now rewrite andb_true_r, andb_false_r, orb_false_r.
  - rewrite !Z.shiftl_spec_low by lia. cbn [negb].
    now rewrite andb_true_r, orb_false_r.
Qed.

(** X27.  Sub-buses of a pin.  For a known pin and a range [lo..hi] of
    bit positions below 62, [set_pin_bits] followed by [get_pin_bits] on
    the same range gives the value written, cut to the width of the
    range; the write leaves every bit of the pin outside the range, and
    every other pin, as it was.  A negative [lo] means the whole pin. *)
Theorem pin_bits_round_trip (c : PinStore) (name : string)
    (lo hi v cur : Z) :
  get_pin c name = Done cur ->
  0 <= lo <= hi -> hi < 62 ->
  exists c' new,
    set_pin_bits c name lo hi v = Done c'
    /\ get_pin c' name = Done new
    /\ get_pin_bits c' name lo hi = Done (v mod 2 ^ (hi - lo + 1))
    /\ (forall i, 0 <= i -> i < lo \/ hi < i ->
          Z.testbit new i = Z.testbit cur i)
    /\ (forall other, other <> name -> get_pin c' other = get_pin c other)
    /\ (forall whole, whole < 0 ->
          get_pin_bits c name whole hi = Done cur
          /\ set_pin_bits c name whole hi v = set_pin c name v).
Proof.
  intros Hcur Hrange Hhi.
  set (w := hi - lo + 1).
  set (new := Z.lor (Z.land cur (Z.lnot (Z.shiftl (Z.ones w) lo)))
                    (Z.shiftl (Z.land v (Z.ones w)) lo)).
  assert (Hfound : find name (pins c) = Some cur).
  { unfold get_pin in Hcur. destruct (find name (pins c)); congruence. }
  assert (Hfit : (Z.shiftl (Z.ones w) lo >? INT64_MAX) = false).
  { apply gtb_false. rewrite Z.shiftl_mul_pow2 by lia.
    unfold Z.ones. rewrite Z.shiftl_1_l.
    assert (2 ^ w * 2 ^ lo = 2 ^ (hi + 1)).
    { rewrite <- Z.pow_add_r by (unfold w; lia). f_equal. unfold w. lia. }
    assert (2 ^ (hi + 1) <= 2 ^ 62) by (apply Z.pow_le_mono_r; lia).
    assert (0 < 2 ^ lo) by (apply Z.pow_pos_nonneg; lia).
    change (2 ^ 62) with 4611686018427387904 in *. unfold INT64_MAX. nia. }
  assert (Hset : set_pin_bits c name lo hi v
                 = Done (mkStore (owner c) (overwrite name new (pins c))
                                 (pin_widths c))).
  { unfold set_pin_bits.
    replace (lo <? 0) with false by (symmetry; apply Z.ltb_ge; lia).
    rewrite Hcur. fold w. rewrite bit_mask_ones by (unfold w; lia).
    cbv zeta. rewrite gtb_false by lia. rewrite Hfit. cbn [orb].
    fold new. unfold set_pin. rewrite Hfound. reflexivity. }
  assert (Hget : get_pin (mkStore (owner c) (overwrite name new (pins c))
                                  (pin_widths c)) name = Done new).
  { unfold get_pin. cbn [pins]. rewrite find_overwrite by congruence.
    reflexivity. }
  eexists. exists new. split; [exact Hset|]. split; [exact Hget|].
  split; [|split; [|split]].
  - unfold get_pin_bits. rewrite Hget.
    replace (lo <? 0) with false by (symmetry; apply Z.ltb_ge; lia).
    fold w. rewrite bit_mask_ones by (unfold w; lia).
    rewrite gtb_false by lia. f_equal.
    rewrite <- Z.land_ones by (unfold w; lia).
    apply Z.bits_inj'. intros i Hi.
    rewrite !Z.land_spec, Z.shiftr_spec, testbit_ones by (unfold w; lia).
    unfold new. rewrite field_written by (unfold w; lia).
    destruct (Z.ltb_spec i w).
    + replace (lo <=? i + lo) with true by (symmetry; apply Z.leb_le; lia).
      replace (i + lo <? lo + w) with true
        by (symmetry; apply Z.ltb_lt; lia).
      cbn [andb]. now replace (i + lo - lo) with i by lia.
    + now rewrite !andb_false_r.
  - intros i Hi Hout. unfold new.
    rewrite field_written by (unfold w; lia).
    destruct (Z.leb_spec lo i); destruct (Z.ltb_spec i (lo + w));
      cbn [andb]; try reflexivity. unfold w in *. lia.
  - intros other Hother. unfold get_pin. cbn [pins owner].
    now rewrite find_overwrite_other.
  - intros whole Hwhole. unfold get_pin_bits, set_pin_bits. rewrite Hcur.
    replace (whole <? 0) with true by (symmetry; apply Z.ltb_lt; lia).
    split; reflexivity.
Qed.

Lemma pin_bits_round_trip_witness :
  let d := mkDef "Bus" [] [mkPort "out" 16] [] true in
  let c := mkStore d [("out"%string, 65535)] [("out"%string, 16)] in
  exists c',
    set_pin_bits c "out" 4 7 5 = Done c'
    /\ get_pin_bits c' "out" 4 7 = Done 5.
Proof.
  intros d c.
  destruct (pin_bits_round_trip c "out" 4 7 5 65535 eq_refl)
    as (c' & new & Hset & _ & Hbits & _); [lia | lia |].
  exists c'. split; [exact Hset|exact Hbits].
Defined.

End ChipPins.

(** ** HDL chips: wiring and the evaluation order *)

Section ChipWiring.
Import HDL.








End ChipWiring.

(** ** VM engine: the budget of [run_for] *)

Section VMBudget.
Import VMMem VM Notions.

(** What a command never touches, whether it returns or throws. *)
Lemma dispatch_keeps cmd s :
  match dispatch cmd s with
  | VOk _ s' | VThrow _ s' =>
      instructions_executed (stats s') = instructions_executed (stats s)
      /\ program s' = program s
      /\ breakpoints s' = breakpoints s
      /\ (state s' = state s \/ state s' = HALTED)
  | VUndef => True
  end.
Proof.
  destruct cmd as [op|seg i f|seg i f|l|l|l|f n|f n|]; cbn [dispatch].
  - unfold execute_arithmetic, vbind, count, modify, advance_pc, mem_pop,
      mem_push, on_memory.
    destruct op; cbn [memory set_stats set_memory];
      repeat match goal with
      | |- context [match pop ?m with _ => _ end] =>
          destruct (pop m) as [[? ?]| |]; cbn [memory set_memory]
      | |- context [match with_unit (push ?m ?v) with _ => _ end] =>
          destruct (push m v); cbn [with_unit memory set_memory]
      end; cbn; auto.
  - unfold execute_push, vbind, count, modify, advance_pc, mem_push, on_memory.
    cbn [memory set_stats].
    destruct (read_segment (memory s) seg i f); cbn [keep_memory];
      [|cbn; auto|exact I].
    cbn [memory set_memory].
    match goal with
    | |- context [push ?m ?v] => destruct (push m v); cbn; auto
    end.
  - unfold execute_pop, vbind, count, modify, advance_pc, mem_pop, on_memory.
    cbn [memory set_stats].
    destruct (pop (memory s)) as [[v m]| |]; [|cbn; auto|exact I].
    cbn [memory set_memory].
    destruct (write_segment m seg i v f); cbn; auto.
  - cbn. auto.
  - unfold execute_goto, lookup_label, vbind, get, modify, ret, throw.
    destruct (negb (CPUMem.is_empty (current_function (memory s))));
      repeat match goal with
      | |- context [match lookup ?k ?t with _ => _ end] =>
          destruct (lookup k t)
      end; cbn; auto.
  - unfold execute_if_goto, lookup_label, vbind, get, modify, ret, throw,
      advance_pc, mem_pop, on_memory.
    destruct (pop (memory s)) as [[v m]| |]; [|cbn; auto|exact I].
    destruct (negb (v =? 0)); [|cbn; auto].
    cbn [memory set_memory program].
    destruct (negb (CPUMem.is_empty (current_function m)));
      repeat match goal with
      | |- context [match lookup ?k ?t with _ => _ end] =>
          destruct (lookup k t)
      end; cbn; auto.
  - cbn. auto.
  - unfold execute_call, lookup_function, vbind, count, get, modify, ret,
      throw, on_memory.
    cbn [program set_stats memory pc].
    destruct (lookup f (function_entry_points (program s))); [|cbn; auto].
    match goal with
    | |- context [push_frame ?m ?a ?b ?c ?d] =>
        destruct (push_frame m a b c d); cbn; auto
    end.
  - unfold execute_return, vbind, count, modify, mem_pop, on_memory.
    cbn [memory set_stats].
    destruct (pop (memory s)) as [[v m]| |]; [|cbn; auto|exact I].
    cbn [memory set_memory].
    destruct (pop_frame m v) as [[ra m']| |]; [|cbn; auto|exact I].
    destruct (ra =? 0); cbn; auto.
Qed.

Lemma execute_command_bound s continue s' :
  execute_command s = Some (continue, s') ->
  0 <= instructions_executed (stats s) ->
  instructions_executed (stats s) + 1 < 18446744073709551616 ->
  instructions_executed (stats s)
  <= instructions_executed (stats s')
  <= instructions_executed (stats s) + 1
  /\ program s' = program s
  /\ breakpoints s' = breakpoints s
  /\ (state s' = state s \/ state s' = HALTED \/ state s' = PAUSED
      \/ state s' = ERROR)
  /\ (continue = false ->
      state s' = HALTED \/ state s' = PAUSED \/ state s' = ERROR).
Proof.
  intros H Hpos Hroom. unfold execute_command in H.
  destruct (pc s >=? Z.of_nat (List.length (commands (program s)))).
  { inversion H; subst. cbn. repeat split; auto; lia. }
  destruct (pause_requested s).
  { inversion H; subst. cbn. repeat split; auto; lia. }
  destruct ((instructions_executed (stats s) >? 0)
            && existsb (Z.eqb (pc s)) (breakpoints s)).
  { inversion H; subst. cbn. repeat split; auto; lia. }
  destruct (nth_error (commands (program s)) (Z.to_nat (pc s))) as [cmd|];
    [|discriminate].
  pose proof (dispatch_keeps cmd s) as Hk.
  unfold vbind, count, modify in H.
  destruct (dispatch cmd s) as [[] s1|e s1|]; [| |discriminate].
  - destruct Hk as (Hie & Hp & Hb & Hst).
    inversion H; subst. cbn [stats set_stats inc_instructions_executed
      instructions_executed program breakpoints state].
    rewrite Hie. unfold to_u64. rewrite Z.mod_small by lia.
    split; [lia|]. split; [exact Hp|]. split; [exact Hb|].
    split; [tauto|discriminate].
  - destruct Hk as (Hie & Hp & Hb & Hst).
    inversion H; subst. cbn. rewrite Hie.
    split; [lia|]. split; [exact Hp|]. split; [exact Hb|]. auto.
Qed.

Lemma run_for_loop_bound_vm budget : forall s,
  0 <= instructions_executed (stats s) ->
  instructions_executed (stats s) + Z.of_nat budget < 18446744073709551616 ->
  match run_for_loop budget s with
  | Returned st s' =>
      st = state s'
      /\ instructions_executed (stats s)
         <= instructions_executed (stats s')
         <= instructions_executed (stats s) + Z.of_nat budget
      /\ program s' = program s
      /\ breakpoints s' = breakpoints s
      /\ (state s <> READY -> state s' <> READY)
  | Escaped _ _ | OutOfFuel => False
  | UndefinedBehaviour => True
  end.
Proof.
  induction budget as [|budget IH]; intros s Hpos Hroom; cbn [run_for_loop].
  - split; [reflexivity|]. split; [lia|]. repeat split. auto.
  - destruct (is_running s) eqn:Hrun.
    2:{ split; [reflexivity|]. split; [lia|]. repeat split. auto. }
    assert (Hst : state s = RUNNING).
    { unfold is_running in Hrun. destruct (state s); congruence. }
    destruct (execute_command s) as [[c s1]|] eqn:E; [|exact I].
    destruct (execute_command_bound _ _ _ E Hpos)
      as (Hie & Hp & Hb & Hst1 & Hstop); [lia|].
    assert (Hnr : state s1 <> READY).
    { rewrite Hst in Hst1. destruct Hst1 as [->|[->|[->| ->]]]; discriminate. }
    destruct c.
    + specialize (IH s1). destruct (run_for_loop budget s1) as [st s'| | |];
        try (apply IH; lia).
      destruct IH as (H1 & H2 & H3 & H4 & H5); [lia|lia|].
      split; [exact H1|]. split; [lia|]. split; [congruence|].
      split; [congruence|]. intros _. exact (H5 Hnr).
    + split; [reflexivity|]. split; [lia|]. split; [exact Hp|].
      split; [exact Hb|]. intros _. exact Hnr.
Qed.

Lemma initialize_execution_keeps basename s s0 :
  initialize_execution basename s = VOk tt s0 ->
  (state s0 = PAUSED \/ state s0 = ERROR)
  /\ stats s0 = stats s /\ program s0 = program s
  /\ breakpoints s0 = breakpoints s.
Proof.
  unfold initialize_execution. cbv zeta.
  cbn [entry_point program set_memory memory].
  match goal with
  | |- context [if negb (CPUMem.is_empty ?e) then _ else _] =>
      destruct (negb (CPUMem.is_empty e));
        [destruct (lookup e (function_entry_points (program s)))|]
  end.
  - cbn [memory program set_pc set_memory].
    match goal with
    | |- context [push_frame ?m ?a ?b ?c ?d] =>
        destruct (push_frame m a b c d) as [m1| |]; try discriminate
    end.
    cbn [source_files program memory set_memory set_pc].
    destruct (allocate_statics _ _ m1); try discriminate.
    intros H; inversion H; subst. cbn. auto.
  - intros H; inversion H; subst. cbn. auto.
  - cbn [source_files program memory set_memory set_pc].
    destruct (allocate_statics _ _ _); try discriminate.
    intros H; inversion H; subst. cbn. auto.
Qed.

(** X30.  [run_for n] of the VM engine keeps to its budget.  Whenever it
    returns, the state it returns is the state of the engine and is
    neither RUNNING nor READY, at most [n] commands have been counted,
    and the program and the breakpoints are as before.  An exception
    leaves the call only from the initialisation of a READY engine, and
    the loop cannot run on. *)
Theorem vm_run_for_keeps_to_its_budget
    (get_file_basename : string -> string) (n : nat) (s : VMEngine) :
  0 <= instructions_executed (stats s) ->
  instructions_executed (stats s) + Z.of_nat n < 18446744073709551616 ->
  match run_for get_file_basename n s with
  | Returned st s' =>
      st = state s'
      /\ st <> RUNNING
      /\ st <> READY
      /\ instructions_executed (stats s)
         <= instructions_executed (stats s')
         <= instructions_executed (stats s) + Z.of_nat n
      /\ program s' = program s
      /\ breakpoints s' = breakpoints s
  | Escaped _ _ => state s = READY
  | UndefinedBehaviour => True
  | OutOfFuel => False
  end.
Proof.
  intros Hpos Hroom. unfold run_for.
  assert (Hprep : match prepare get_file_basename s with
                  | VOk _ s0 =>
                      state s0 <> READY
                      /\ (state s <> RUNNING /\ may_proceed (state s0) = false
                          \/ may_proceed (state s0) = true)
                      /\ stats s0 = stats s /\ program s0 = program s
                      /\ breakpoints s0 = breakpoints s
                  | VThrow _ _ => state s = READY
                  | VUndef => True
                  end).
  { unfold prepare. destruct (state s) eqn:Hst;
      try (rewrite Hst; split; [discriminate|];
           split; [|repeat split];
           first [ right; reflexivity
                 | left; split; [discriminate|reflexivity] ]).
    destruct (initialize_execution get_file_basename s) as [[] s0|e s0|] eqn:E;
      [|reflexivity|exact I].
    apply initialize_execution_keeps in E as (Hs0 & Hstats & Hp & Hb).
    split; [destruct Hs0 as [->| ->]; discriminate|].
    split; [|auto].
    destruct Hs0 as [->| ->]; [right; reflexivity|].
    left. split; [discriminate|reflexivity]. }
  destruct (prepare get_file_basename s) as [[] s0|e s0|];
    [|exact Hprep|exact I].
  destruct Hprep as (Hnr & Hmay & Hstats & Hp & Hb).
  destruct (may_proceed (state s0)) eqn:Hgo; cbn [negb].
  2:{ destruct Hmay as [[Hs _]|]; [|discriminate].
      split; [reflexivity|]. split.
      - intros Hr. rewrite Hr in Hgo. discriminate.
      - split; [exact Hnr|]. rewrite Hstats. split; [lia|]. auto. }
  set (s1 := set_pause_requested
               (set_pause_reason (set_state s0 RUNNING) NONE) false).
  pose proof (run_for_loop_bound_vm n s1) as Hloop.
  cbn [stats s1 set_pause_requested set_pause_reason set_state] in Hloop.
  rewrite Hstats in Hloop. specialize (Hloop Hpos Hroom).
  destruct (run_for_loop n s1) as [st s'| | |];
    try exact Hloop; try contradiction.
  destruct Hloop as (H1 & H2 & H3 & H4 & H5).
  cbn [program breakpoints state s1 set_pause_requested set_pause_reason
       set_state] in H3, H4, H5.
  assert (Hnr' : state s' <> READY) by (apply H5; discriminate).
  unfold is_running. destruct (state s') eqn:Hs'; cbn [state stats program
    breakpoints set_pause_reason set_state]; rewrite ?Hs';
    (split; [reflexivity|]); (split; [discriminate|]);
    (split; [try discriminate; congruence|]);
    (split; [exact H2|]); split; congruence.
Qed.

Lemma vm_run_for_keeps_to_its_budget_witness :
  match run_for Vocabulary.plain_basename 3
          (loaded Vocabulary.vm_add_program) with
  | Returned st s' =>
      st = PAUSED /\ instructions_executed (stats s') <= 3
  | _ => False
  end.
Proof.
  pose proof (vm_run_for_keeps_to_its_budget Vocabulary.plain_basename 3
                (loaded Vocabulary.vm_add_program)) as H.
  destruct (run_for Vocabulary.plain_basename 3
              (loaded Vocabulary.vm_add_program)) as [st s'| | |] eqn:E;
    try (vm_compute in E; discriminate).
  destruct H as (_ & _ & _ & Hie & _);
    [vm_compute; discriminate | vm_compute; reflexivity |].
  split; [|exact (proj2 Hie)].
  vm_compute in E. inversion E. reflexivity.
Defined.

End VMBudget.
